(** * Phaser atlas viewer: the core, embedded and verified

    A shallow embedding of the atlas loader ([AtlasLoader]), the playback
    controller ([FrameController]) and the trim-aware placement of the
    sprite ([SpriteRenderer]), followed by the properties of the
    specification that concern them.

    Conventions of the embedding.
    - A JavaScript [number] that is the length of an array (a frame count)
      or that the manifest format declares an integer (a pixel coordinate) is
      a [Z].
    - A [number] that is used as an index or as a rate (a frame index, a
      frame rate, a count of frames to skip) is what [Math.floor] and
      [parseInt] return, which is what the callers pass: an integer, an
      infinity or NaN.  The guards of the program are comparisons, which are
      false on NaN.
    - A [number] that is genuinely fractional (a scrub progress, a scale
      factor, a sprite position, a timer period) is an IEEE 754 binary64
      value, with the operations of [SpecFloat] at precision 53.
    - A method of a class is a function on the state of its object; what it
      calls on its collaborators (the event callbacks, the console, the
      registry of object URLs) is recorded in a trace or in an explicit
      world state.
    - An exception is a value of an error type; [throw] is [inl]. *)

From Stdlib Require Import ZArith NArith List Bool String Ascii Lia.
From Stdlib Require Import DecimalString.
From Stdlib Require Import Sorting.Sorted Sorting.Permutation.
From Stdlib Require Import Floats.SpecFloat.
Import ListNotations.

Local Open Scope Z_scope.

#[local] Set Warnings "-register-all".

(* ================================================================= *)
(** * Part I: the program *)
(* ================================================================= *)

(* ----------------------------------------------------------------- *)
(** ** Numbers: IEEE 754 binary64 *)

Module Number.

Definition prec : Z := 53.
Definition emax : Z := 1024.

Definition number : Type := spec_float.

(** The double nearest to an integer (exact below [2^53]). *)
Definition ofZ (z : Z) : number := binary_normalize prec emax z 0 false.

Definition add : number -> number -> number := SFadd prec emax.
Definition sub : number -> number -> number := SFsub prec emax.
Definition mul : number -> number -> number := SFmul prec emax.
Definition div : number -> number -> number := SFdiv prec emax.
Definition leb : number -> number -> bool := SFleb.
Definition valid : number -> bool := valid_binary prec emax.

(** What [Math.floor] returns: an integer, an infinity or NaN. *)
Inductive integral : Type :=
| Int (z : Z)
| PosInfinity
| NegInfinity
| NaN.

Definition floor (x : number) : integral :=
  match x with
  | S754_zero _ => Int 0
  | S754_infinity false => PosInfinity
  | S754_infinity true => NegInfinity
  | S754_nan => NaN
  | S754_finite s m e => Int (Z.shiftl (if s then Zneg m else Zpos m) e)
  end.

(** An integer, an infinity or NaN, as a double. *)
Definition toNumber (i : integral) : number :=
  match i with
  | Int z => ofZ z
  | PosInfinity => S754_infinity false
  | NegInfinity => S754_infinity true
  | NaN => S754_nan
  end.

(** [i < z], [i > z], [i >= z] and [i === z]: false on NaN. *)
Definition ltZ (i : integral) (z : Z) : bool :=
  match i with
  | Int k => k <? z
  | NegInfinity => true
  | PosInfinity | NaN => false
  end.

Definition gtZ (i : integral) (z : Z) : bool :=
  match i with
  | Int k => k >? z
  | PosInfinity => true
  | NegInfinity | NaN => false
  end.

Definition geZ (i : integral) (z : Z) : bool :=
  match i with
  | Int k => k >=? z
  | PosInfinity => true
  | NegInfinity | NaN => false
  end.

Definition eqZ (i : integral) (z : Z) : bool :=
  match i with
  | Int k => k =? z
  | PosInfinity | NegInfinity | NaN => false
  end.

(** [i + z] and [i + j] *)
Definition plusZ (i : integral) (z : Z) : integral :=
  match i with
  | Int k => Int (k + z)
  | PosInfinity => PosInfinity
  | NegInfinity => NegInfinity
  | NaN => NaN
  end.

Definition plus (i j : integral) : integral :=
  match i, j with
  | Int a, _ => plusZ j a
  | _, Int b => plusZ i b
  | PosInfinity, PosInfinity => PosInfinity
  | NegInfinity, NegInfinity => NegInfinity
  | _, _ => NaN
  end.

(** [i % z], the remainder of the truncated division: NaN for a divisor 0
    and for a dividend that is not finite. *)
Definition remZ (i : integral) (z : Z) : integral :=
  match i with
  | Int k => if z =? 0 then NaN else Int (Z.rem k z)
  | PosInfinity | NegInfinity | NaN => NaN
  end.

(** [Math.min(z, i)] and [Math.max(z, i)]: NaN when [i] is. *)
Definition minZ (z : Z) (i : integral) : integral :=
  match i with
  | Int k => Int (Z.min z k)
  | PosInfinity => Int z
  | NegInfinity => NegInfinity
  | NaN => NaN
  end.

Definition maxZ (z : Z) (i : integral) : integral :=
  match i with
  | Int k => Int (Z.max z k)
  | PosInfinity => PosInfinity
  | NegInfinity => Int z
  | NaN => NaN
  end.

(** [items[i]]: [undefined] unless [i] is an index of the array. *)
Definition item {A : Type} (items : list A) (i : integral) : option A :=
  match i with
  | Int k => if k <? 0 then None else nth_error items (Z.to_nat k)
  | PosInfinity | NegInfinity | NaN => None
  end.

(** A valid double between 0 and 1. *)
Definition inUnitInterval (p : number) : bool :=
  valid p && leb (ofZ 0) p && leb p (ofZ 1).

(** The exponent of the format at a given magnitude. *)
Definition F (e : Z) : Z := fexp prec emax e.

(** The bits shifted out so far are not all zero. *)
Definition inexact (mrs : shr_record) : bool := shr_r mrs || shr_s mrs.

Definition isNaN (x : number) : bool :=
  match x with
  | S754_nan => true
  | _ => false
  end.

(** [Math.min] of two numbers: NaN when either is, and -0 below +0. *)
Definition min2 (x y : number) : number :=
  match SFcompare x y with
  | None => S754_nan
  | Some Lt => x
  | Some Gt => y
  | Some Eq =>
      match y with
      | S754_zero true => y
      | _ => x
      end
  end.

(** The double 1.0 itself. *)
Definition isOne (x : number) : bool :=
  match x with
  | S754_finite false m e => Pos.eqb m 4503599627370496 && Z.eqb e (-52)
  | _ => false
  end.

(** A scale that does not shrink: above 1.0, or 1.0 itself. *)
Definition oneOrMore (x : number) : bool :=
  match SFcompare x (ofZ 1) with
  | Some Gt => true
  | Some Eq => isOne x
  | _ => false
  end.

End Number.

(* ----------------------------------------------------------------- *)
(** ** types/AtlasTypes.ts *)

Record Size : Type := mkSize { size_w : Z; size_h : Z }.

Record Rect : Type := mkRect { rect_x : Z; rect_y : Z; rect_w : Z; rect_h : Z }.

(** Of a frame, what the loader and the renderer read.  [spriteSourceSize]
    is declared by the type but tested for presence by the renderer, and
    [sourceSize] likewise: both are optional here. *)
Record FrameData : Type := mkFrameData {
  filename : string;
  sourceSize : option Size;
  spriteSourceSize : option Rect;
  frame : Rect
}.

(** Of a texture sheet, what the loader reads. *)
Record TextureData : Type := mkTextureData {
  size : Size;
  frames : list FrameData
}.

Record AtlasData : Type := mkAtlasData { textures : list TextureData }.

(* ----------------------------------------------------------------- *)
(** ** core/FrameController.ts *)

Module FrameController.

Import Number.

(** The calls made on [FrameControllerEvents]. *)
Inductive Event : Type :=
| OnFrameChange (frameIndex : integral) (frameData : option FrameData)
| OnPlayStateChange (playing : bool)
| OnFrameRateChange (fps : integral).

(** The fields of the class.  [animationTimer] holds the period, in
    milliseconds, of the interval that is installed. *)
Record state : Type := mkState {
  totalFrames : Z;
  currentFrame : integral;
  isPlaying : bool;
  frameRate : integral;
  animationTimer : option number;
  isLooping : bool;
  getFrameDataCallback : integral -> option FrameData
}.

Definition new (callback : integral -> option FrameData) : state :=
  mkState 0 (Int 0) false (Int 12) None true callback.

Definition with_totalFrames (n : Z) (c : state) : state :=
  mkState n (currentFrame c) (isPlaying c) (frameRate c)
          (animationTimer c) (isLooping c) (getFrameDataCallback c).

Definition with_currentFrame (i : integral) (c : state) : state :=
  mkState (totalFrames c) i (isPlaying c) (frameRate c)
          (animationTimer c) (isLooping c) (getFrameDataCallback c).

Definition with_isPlaying (b : bool) (c : state) : state :=
  mkState (totalFrames c) (currentFrame c) b (frameRate c)
          (animationTimer c) (isLooping c) (getFrameDataCallback c).

Definition with_frameRate (fps : integral) (c : state) : state :=
  mkState (totalFrames c) (currentFrame c) (isPlaying c) fps
          (animationTimer c) (isLooping c) (getFrameDataCallback c).

Definition with_animationTimer (t : option number) (c : state) : state :=
  mkState (totalFrames c) (currentFrame c) (isPlaying c) (frameRate c)
          t (isLooping c) (getFrameDataCallback c).

Definition with_isLooping (b : bool) (c : state) : state :=
  mkState (totalFrames c) (currentFrame c) (isPlaying c) (frameRate c)
          (animationTimer c) b (getFrameDataCallback c).

(** A method: the new state and the events it fired, oldest first. *)
Definition method : Type := state -> state * list Event.

Definition skip : method := fun c => (c, []).

Definition andThen (p q : method) : method :=
  fun c =>
    let (c1, e1) := p c in
    let (c2, e2) := q c1 in
    (c2, e1 ++ e2).

Notation "p ;; q" := (andThen p q) (at level 61, right associativity).

Definition update (f : state -> state) : method := fun c => (f c, []).

Definition notifyFrameChange : method :=
  fun c =>
    let frameData := getFrameDataCallback c (currentFrame c) in
    (c, [OnFrameChange (currentFrame c) frameData]).

(** The guard is false on NaN: an index that is NaN becomes the current
    frame. *)
Definition setFrame (frameIndex : integral) : method :=
  fun c =>
    if ltZ frameIndex 0 || geZ frameIndex (totalFrames c) then skip c
    else (update (with_currentFrame frameIndex) ;; notifyFrameChange) c.

Definition setFrameFromProgress (progress : number) : method :=
  fun c =>
    let frameIndex :=
      floor (mul progress (ofZ (Z.max 0 (totalFrames c - 1)))) in
    setFrame frameIndex c.

Definition stopAnimation : method :=
  update (with_animationTimer None).

Definition startAnimation : method :=
  stopAnimation ;;
  (fun c =>
     let interval := div (ofZ 1000) (toNumber (frameRate c)) in
     update (with_animationTimer (Some interval)) c).

Definition pause : method :=
  fun c =>
    if negb (isPlaying c) then skip c
    else (update (with_isPlaying false) ;; stopAnimation ;;
          (fun c' => (c', [OnPlayStateChange false]))) c.

Definition play : method :=
  fun c =>
    if isPlaying c || (totalFrames c <=? 1) then skip c
    else (update (with_isPlaying true) ;; startAnimation ;;
          (fun c' => (c', [OnPlayStateChange true]))) c.

Definition nextFrame : method :=
  fun c =>
    if totalFrames c =? 0 then skip c
    else
      let nextIndex := plusZ (currentFrame c) 1 in
      if geZ nextIndex (totalFrames c) then
        if isLooping c then setFrame (Int 0) c
        else pause c
      else setFrame nextIndex c.

Definition previousFrame : method :=
  fun c =>
    if totalFrames c =? 0 then skip c
    else
      let prevIndex :=
        if eqZ (currentFrame c) 0 then Int (totalFrames c - 1)
        else plusZ (currentFrame c) (-1) in
      setFrame prevIndex c.

Definition stop : method := pause ;; setFrame (Int 0).

Definition initialize (n : Z) : method :=
  stop ;;
  update (with_totalFrames n) ;;
  update (with_currentFrame (Int 0)) ;;
  notifyFrameChange.

Definition togglePlay : method :=
  fun c => if isPlaying c then pause c else play c.

(** The guard is false on NaN: a rate that is NaN becomes the frame
    rate. *)
Definition setFrameRate (fps : integral) : method :=
  fun c =>
    if ltZ fps 1 || gtZ fps 60 then skip c
    else (update (with_frameRate fps) ;;
          (fun c' =>
             if isPlaying c' then (stopAnimation ;; startAnimation) c'
             else skip c') ;;
          (fun c' => (c', [OnFrameRateChange fps]))) c.

Definition setLooping (enabled : bool) : method :=
  update (with_isLooping enabled).

Definition getProgress (c : state) : number :=
  if totalFrames c <=? 1 then ofZ 0
  else div (toNumber (currentFrame c)) (ofZ (totalFrames c - 1)).

Definition goToFirstFrame : method := setFrame (Int 0).

Definition goToLastFrame : method :=
  fun c => setFrame (Int (totalFrames c - 1)) c.

Definition skipFrames (count : integral) : method :=
  fun c =>
    let newFrame :=
      maxZ 0 (minZ (totalFrames c - 1) (plus (currentFrame c) count)) in
    setFrame newFrame c.

Definition cleanup : method :=
  stop ;;
  update (with_totalFrames 0) ;;
  update (with_currentFrame (Int 0)) ;;
  update (with_frameRate (Int 12)).

(** The callback given to [setInterval] by [startAnimation]. *)
Definition timerTick : method :=
  fun c =>
    if negb (isPlaying c) then stopAnimation c
    else nextFrame c.

(** The public operations, and the tick of the timer.  The count given to
    [initialize] is the length of the list of frames. *)
Inductive Op : Type :=
| Initialize (n : Z)
| SetFrame (frameIndex : integral)
| SetFrameFromProgress (progress : number)
| NextFrame
| PreviousFrame
| Play
| Pause
| Stop
| TogglePlay
| SetFrameRate (fps : integral)
| SetLooping (enabled : bool)
| GoToFirstFrame
| GoToLastFrame
| SkipFrames (count : integral)
| Cleanup
| TimerTick.

Definition exec (op : Op) (c : state) : state * list Event :=
  match op with
  | Initialize n => initialize n c
  | SetFrame i => setFrame i c
  | SetFrameFromProgress p => setFrameFromProgress p c
  | NextFrame => nextFrame c
  | PreviousFrame => previousFrame c
  | Play => play c
  | Pause => pause c
  | Stop => stop c
  | TogglePlay => togglePlay c
  | SetFrameRate fps => setFrameRate fps c
  | SetLooping b => setLooping b c
  | GoToFirstFrame => goToFirstFrame c
  | GoToLastFrame => goToLastFrame c
  | SkipFrames n => skipFrames n c
  | Cleanup => cleanup c
  | TimerTick =>
      match animationTimer c with
      | Some _ => timerTick c
      | None => skip c
      end
  end.

(** The states a controller can be in: a fresh one, then any sequence of
    operations and ticks, NaN among their arguments. *)
Inductive Reachable : state -> Prop :=
| Reachable_new : forall callback, Reachable (new callback)
| Reachable_exec : forall op c,
    Reachable c -> Reachable (fst (exec op c)).

(** The range of the frame cursor: an integer of [0, totalFrames - 1], and
    0 without frames. *)
Definition cursorInRange (c : state) : Prop :=
  exists k,
    currentFrame c = Int k /\
    (1 <= totalFrames c -> 0 <= k <= totalFrames c - 1) /\
    (totalFrames c = 0 -> k = 0).


Definition isFrameChange (e : Event) : bool :=
  match e with
  | OnFrameChange _ _ => true
  | _ => false
  end.

Definition frameChanges (events : list Event) : list Event :=
  filter isFrameChange events.

(** The notification of the frame a controller is on. *)
Definition notification (c : state) : Event :=
  OnFrameChange (currentFrame c) (getFrameDataCallback c (currentFrame c)).

Definition firesOnce (r : state * list Event) : Prop :=
  frameChanges (snd r) = [notification (fst r)].


(** Scrubbing to the progress just read: does the cursor stay on frame [k]
    of [n]? *)
Definition roundTrip (n k : Z) : bool :=
  let progress :=
    if n <=? 1 then ofZ 0 else div (ofZ k) (ofZ (n - 1)) in
  match floor (mul progress (ofZ (Z.max 0 (n - 1)))) with
  | Int i => i =? k
  | _ => false
  end.

(** A controller of [n] frames on frame [k], stopped and looping, whose
    lookup knows no frame: the state the examples start from. *)
Definition onFrame (n k : Z) : state :=
  with_currentFrame (Int k) (with_totalFrames n (new (fun _ => None))).

Definition range (lo : Z) (len : nat) : list Z :=
  map (fun i => lo + Z.of_nat i) (seq 0 len).

(** *** Further vocabulary *)

(** [k] calls of a method in a row. *)
Fixpoint times (k : nat) (m : method) : method :=
  match k with
  | O => skip
  | S k' => m ;; times k' m
  end.

(** What the host does when the period of the interval elapses: it runs
    the callback when an interval is installed, and nothing otherwise. *)
Definition tick : method :=
  fun c =>
    match animationTimer c with
    | Some _ => timerTick c
    | None => skip c
    end.

(** The timer and the play state agree: an interval is installed exactly
    while playing, at the period of the current frame rate; playing needs
    two frames; the frame rate is within 1 and 60, or NaN. *)
Definition timerConsistent (c : state) : Prop :=
  (isPlaying c = true <-> animationTimer c <> None) /\
  (forall period, animationTimer c = Some period ->
                  period = div (ofZ 1000) (toNumber (frameRate c))) /\
  (isPlaying c = true -> 2 <= totalFrames c) /\
  (frameRate c = NaN \/
   exists fps, frameRate c = Int fps /\ 1 <= fps <= 60).

Definition getCurrentFrameData (c : state) : option FrameData :=
  getFrameDataCallback c (currentFrame c).

(** The cursor is 0, a valid index or NaN, whatever the operations were
    given. *)
Definition cursorValid (c : state) : Prop :=
  currentFrame c = NaN \/
  exists k, currentFrame c = Int k /\ (k = 0 \/ 0 <= k < totalFrames c).

End FrameController.

(* ----------------------------------------------------------------- *)
(** ** types/AppTypes.ts *)

Record CanvasConfig : Type := mkCanvasConfig {
  canvas_width : Z;
  canvas_height : Z
}.

Definition DEFAULT_CANVAS_CONFIG : CanvasConfig := mkCanvasConfig 800 600.

(* ----------------------------------------------------------------- *)
(** ** core/SpriteRenderer.ts *)

Module SpriteRenderer.

Import Number.

(** The calls made on [SpriteRenderEvents]. *)
Inductive Event : Type :=
| OnFrameChanged (frameIndex : integral) (frameData : FrameData)
| OnRenderError (message : string).

(** What the renderer sets on the Phaser sprite: the index in the name of
    the texture frame it asks for ([frame_<index>]), and the position. *)
Record Sprite : Type := mkSprite {
  sprite_frame : integral;
  sprite_x : number;
  sprite_y : number
}.

Record state : Type := mkState {
  sprite : option Sprite;
  frames : list FrameData;
  currentFrameIndex : integral;
  originalSpriteSize : Z * Z;
  scaleFactor : number;
  canvasCenter : number * number
}.

(** The constructor: no sprite, no frame, scale 1, and the centre of the
    default canvas. *)
Definition new : state :=
  mkState None [] (Int 0) (0, 0) (ofZ 1)
    (div (ofZ (canvas_width DEFAULT_CANVAS_CONFIG)) (ofZ 2),
     div (ofZ (canvas_height DEFAULT_CANVAS_CONFIG)) (ofZ 2)).

Definition setPosition (x y : number) (sp : Sprite) : Sprite :=
  mkSprite (sprite_frame sp) x y.

Definition with_sprite (sp : option Sprite) (r : state) : state :=
  mkState sp (frames r) (currentFrameIndex r) (originalSpriteSize r)
          (scaleFactor r) (canvasCenter r).

Definition with_currentFrameIndex (i : integral) (r : state) : state :=
  mkState (sprite r) (frames r) i (originalSpriteSize r) (scaleFactor r)
          (canvasCenter r).

Definition adjustSpritePosition (frameData : FrameData) (r : state) : state :=
  match sprite r with
  | None => r
  | Some sp =>
      match spriteSourceSize frameData, sourceSize frameData with
      | Some sss, Some ss =>
          let offsetX :=
            sub (add (ofZ (rect_x sss)) (div (ofZ (rect_w sss)) (ofZ 2)))
                (div (ofZ (size_w ss)) (ofZ 2)) in
          let offsetY :=
            sub (add (ofZ (rect_y sss)) (div (ofZ (rect_h sss)) (ofZ 2)))
                (div (ofZ (size_h ss)) (ofZ 2)) in
          with_sprite
            (Some (setPosition
                     (add (fst (canvasCenter r)) (mul offsetX (scaleFactor r)))
                     (add (snd (canvasCenter r)) (mul offsetY (scaleFactor r)))
                     sp))
            r
      | _, _ =>
          with_sprite
            (Some (setPosition (fst (canvasCenter r)) (snd (canvasCenter r)) sp))
            r
      end
  end.

(** [sprite.setFrame] of Phaser is taken not to throw: for a frame missing
    from the texture it warns and falls back on another.  The guard is
    false on NaN: an index that is NaN becomes the current index, and no
    frame is found at it. *)
Definition setFrame (frameIndex : integral) (r : state) : state * list Event :=
  match sprite r with
  | None => (r, [])
  | Some sp =>
      if ltZ frameIndex 0 || geZ frameIndex (Z.of_nat (List.length (frames r)))
      then (r, [])
      else
        let r1 := with_currentFrameIndex frameIndex r in
        let r2 :=
          with_sprite
            (Some (mkSprite frameIndex (sprite_x sp) (sprite_y sp))) r1 in
        match item (frames r2) frameIndex with
        | Some frameData =>
            (adjustSpritePosition frameData r2,
             [OnFrameChanged frameIndex frameData])
        | None => (r2, [])
        end
  end.

(** A frame of 20 by 40 trimmed to the rectangle (2, 4, 10, 20), and the
    same frame without trim data. *)
Definition trimmedFrame : FrameData :=
  mkFrameData "run_01.png" (Some (mkSize 20 40)) (Some (mkRect 2 4 10 20))
              (mkRect 0 0 10 20).

Definition untrimmedFrame : FrameData :=
  mkFrameData "run_02.png" (Some (mkSize 20 40)) None (mkRect 10 0 20 40).

(** A renderer showing these two frames at half scale, its sprite where
    [createSprite] puts it. *)
Definition exampleRenderer : state :=
  mkState (Some (mkSprite (Int 0) (fst (canvasCenter new))
                          (snd (canvasCenter new))))
          [trimmedFrame; untrimmedFrame] (Int 0) (20, 40) (div (ofZ 1) (ofZ 2))
          (canvasCenter new).

(** *** Scaling and stepping *)

Definition with_scaleFactor (k : number) (r : state) : state :=
  mkState (sprite r) (frames r) (currentFrameIndex r) (originalSpriteSize r)
          k (canvasCenter r).

Definition with_originalSpriteSize (size : Z * Z) (r : state) : state :=
  mkState (sprite r) (frames r) (currentFrameIndex r) size (scaleFactor r)
          (canvasCenter r).

(** The loop of [calculateScaling]: the largest [sourceSize] of the frames,
    from (0, 0).  [None] when a frame has no [sourceSize], on which the
    destructuring throws. *)
Fixpoint maxSourceSize (fs : list FrameData) (maxWidth maxHeight : Z)
  : option (Z * Z) :=
  match fs with
  | [] => Some (maxWidth, maxHeight)
  | frameData :: rest =>
      match sourceSize frameData with
      | Some ss =>
          maxSourceSize rest (Z.max maxWidth (size_w ss))
                        (Z.max maxHeight (size_h ss))
      | None => None
      end
  end.

(** [Math.min(scaleX, scaleY, 1)] for the largest source size. *)
Definition scaleFor (maxWidth maxHeight : Z) : number :=
  let padding := 40 in
  let availableWidth := canvas_width DEFAULT_CANVAS_CONFIG - padding in
  let availableHeight := canvas_height DEFAULT_CANVAS_CONFIG - padding in
  let scaleX := div (ofZ availableWidth) (ofZ maxWidth) in
  let scaleY := div (ofZ availableHeight) (ofZ maxHeight) in
  min2 (min2 scaleX scaleY) (ofZ 1).

(** [None]: a frame has no [sourceSize], and the destructuring throws,
    before any field is written. *)
Definition calculateScaling (r : state) : option state :=
  match sprite r, frames r with
  | None, _ => Some r
  | Some _, [] => Some r
  | Some _, fs =>
      match maxSourceSize fs 0 0 with
      | Some (maxWidth, maxHeight) =>
          Some (with_scaleFactor (scaleFor maxWidth maxHeight)
                  (with_originalSpriteSize (maxWidth, maxHeight) r))
      | None => None
      end
  end.

Definition getFrameData (index : integral) (r : state) : option FrameData :=
  if ltZ index 0 || geZ index (Z.of_nat (List.length (frames r))) then None
  else item (frames r) index.

(** [%] of the language is the remainder of the truncated division. *)
Definition nextFrame (r : state) : state * list Event :=
  match frames r with
  | [] => (r, [])
  | _ =>
      let nextIndex :=
        remZ (plusZ (currentFrameIndex r) 1)
             (Z.of_nat (List.length (frames r))) in
      setFrame nextIndex r
  end.

Definition previousFrame (r : state) : state * list Event :=
  match frames r with
  | [] => (r, [])
  | _ =>
      let prevIndex :=
        if eqZ (currentFrameIndex r) 0
        then Int (Z.of_nat (List.length (frames r)) - 1)
        else plusZ (currentFrameIndex r) (-1) in
      setFrame prevIndex r
  end.

(** [cleanup]: the sprite and the texture are destroyed, the fields
    reset. *)
Definition cleanup (r : state) : state :=
  mkState None [] (Int 0) (0, 0) (ofZ 1) (canvasCenter r).

(** *** Loading *)

Definition with_frames (fs : list FrameData) (r : state) : state :=
  mkState (sprite r) fs (currentFrameIndex r) (originalSpriteSize r)
          (scaleFactor r) (canvasCenter r).

(** The sprite [createSprite] adds: on [frame_0], at the centre of the
    canvas. *)
Definition newSprite (r : state) : Sprite :=
  mkSprite (Int 0) (fst (canvasCenter r)) (snd (canvasCenter r)).

(** What the loader of the host does with the image of the texture: it
    reports [complete], or [loaderror]. *)
Inductive Loading : Type :=
| Complete
| LoadError.

(** [loadAtlasTexture]: the frames are stored, and the host loads the
    image.  On [complete], [createSpriteFrames], [createSprite] and
    [setFrame(0)] run; on [loaderror], the error is reported.  The flag
    tells whether the promise resolves: it rejects on [loaderror], and when
    [calculateScaling] throws in [createSprite], the sprite already
    assigned.  The texts of the errors reported end with the key of the
    texture, made from the time, and with the text of the exception, which
    is the engine's: both are left out. *)
Definition loadAtlasTexture (fs : list FrameData) (loading : Loading)
  (r : state) : state * list Event * bool :=
  let r1 := with_frames fs r in
  match loading with
  | LoadError =>
      (r1, [OnRenderError "Failed to load texture: "%string], false)
  | Complete =>
      let r2 := with_sprite (Some (newSprite r1)) r1 in
      match calculateScaling r2 with
      | Some r3 =>
          let (r4, events) := setFrame (Int 0) r3 in
          (r4, events, true)
      | None =>
          (r2, [OnRenderError "Failed to create sprite: "%string], false)
      end
  end.

End SpriteRenderer.

(* ----------------------------------------------------------------- *)
(** ** JavaScript values

    What [JSON.parse] returns, and [undefined], which reading a property
    can return.  A number is an integer, as the manifest format declares
    every number the loader reads.  A string holds one character per code
    unit below 256. *)

Inductive JValue : Type :=
| JUndefined
| JNull
| JBool (b : bool)
| JNum (n : Z)
| JStr (s : string)
| JArr (items : list JValue)
| JObj (fields : list (string * JValue)).

(** What the loader throws.  [TypeError] is the exception of the language
    itself, on reading a property of [null] or [undefined] or on applying
    [in] to a value that is not an object. *)
Inductive LoadError : Type :=
| InvalidJSON
| RootNotObject
| MissingTextures
| NoTextures
| TextureMissingField (field : string)
| TextureSizeNotNumeric
| FramesNotArray
| NoFrames
| FrameMissingField (index : nat) (field : string)
| FrameCoordsNotNumeric (index : nat)
| FrameSourceSize (index : nat)
| FrameFilename (index : nat)
| ImageLoadFailed
| FrameOutOfBounds (index : nat) (name : string)
                   (frameRight frameBottom imageWidth imageHeight : Z)
| TypeError.

Definition Exc (A : Type) : Type := LoadError + A.

Definition throw {A : Type} (e : LoadError) : Exc A := inl e.

Definition ret {A : Type} (a : A) : Exc A := inr a.

Definition bind {A B : Type} (m : Exc A) (k : A -> Exc B) : Exc B :=
  match m with
  | inl e => inl e
  | inr a => k a
  end.

Notation "x <- m ;; k" := (bind m (fun x => k))
  (at level 61, m at next level, right associativity).

Notation "'check' b 'orThrow' e ;; k" :=
  (if b then k else throw e)
  (at level 61, b at next level, e at next level, right associativity).

Module JS.

Definition truthy (v : JValue) : bool :=
  match v with
  | JUndefined | JNull => false
  | JBool b => b
  | JNum n => negb (n =? 0)
  | JStr s => negb (String.eqb s "")
  | JArr _ | JObj _ => true
  end.

Fixpoint lookup (key : string) (fields : list (string * JValue))
  : option JValue :=
  match fields with
  | [] => None
  | (k, v) :: rest => if String.eqb k key then Some v else lookup key rest
  end.

(** [v.key], for the property names the loader reads (none of them is
    [length], an index or a method). *)
Definition get (v : JValue) (key : string) : Exc JValue :=
  match v with
  | JUndefined | JNull => throw TypeError
  | JObj fields =>
      match lookup key fields with
      | Some x => ret x
      | None => ret JUndefined
      end
  | _ => ret JUndefined
  end.

(** [key in v], for the same property names. *)
Definition hasField (key : string) (v : JValue) : Exc bool :=
  match v with
  | JObj fields =>
      match lookup key fields with
      | Some _ => ret true
      | None => ret false
      end
  | JArr _ => ret false
  | _ => throw TypeError
  end.

Definition isArray (v : JValue) : bool :=
  match v with
  | JArr _ => true
  | _ => false
  end.

Definition isNumber (v : JValue) : bool :=
  match v with
  | JNum _ => true
  | _ => false
  end.

(** [typeof v === "object"] *)
Definition isObjectType (v : JValue) : bool :=
  match v with
  | JNull | JArr _ | JObj _ => true
  | _ => false
  end.

(** [v !== 0] *)
Definition notZero (v : JValue) : bool :=
  match v with
  | JNum 0 => false
  | _ => true
  end.

Definition isWhiteSpace (c : ascii) : bool :=
  let n := N_of_ascii c in
  (((9 <=? n) && (n <=? 13)) || (n =? 32) || (n =? 160))%N.

(** [s.trim() === ""] *)
Definition isBlank (s : string) : bool :=
  forallb isWhiteSpace (list_ascii_of_string s).

Definition showZ (z : Z) : string := NilZero.string_of_int (Z.to_int z).

Definition showNat (n : nat) : string := showZ (Z.of_nat n).

End JS.

(** The text of the [Error] thrown. *)
Definition message (e : LoadError) : string :=
  match e with
  | InvalidJSON => "Invalid JSON file: Unable to parse atlas data"
  | RootNotObject => "Invalid atlas: Root must be an object"
  | MissingTextures => "Invalid atlas: Missing or invalid textures array"
  | NoTextures => "Invalid atlas: No textures found"
  | TextureMissingField field =>
      "Invalid texture: Missing " ++ field ++ " field"
  | TextureSizeNotNumeric =>
      "Invalid texture: Size must have numeric width and height"
  | FramesNotArray => "Invalid texture: Frames must be an array"
  | NoFrames => "Invalid texture: No frames found"
  | FrameMissingField index field =>
      "Invalid frame " ++ JS.showNat index ++ ": Missing " ++ field ++ " field"
  | FrameCoordsNotNumeric index =>
      "Invalid frame " ++ JS.showNat index
        ++ ": Frame coordinates must be numeric"
  | FrameSourceSize index =>
      "Invalid frame " ++ JS.showNat index
        ++ ": Source size must have width and height"
  | FrameFilename index =>
      "Invalid frame " ++ JS.showNat index
        ++ ": Filename must be a non-empty string"
  | ImageLoadFailed => "Failed to load texture image"
  | FrameOutOfBounds index name frameRight frameBottom width height =>
      "Frame " ++ JS.showNat index ++ " (" ++ name
        ++ ") extends beyond texture bounds: "
        ++ JS.showZ frameRight ++ "x" ++ JS.showZ frameBottom ++ " > "
        ++ JS.showZ width ++ "x" ++ JS.showZ height
  | TypeError => "TypeError"
  end%string.

(* ----------------------------------------------------------------- *)
(** ** The comparison and the sort of the host *)

Module NaturalOrder.

(** The collation table of the host: the primary weight of each character
    that is not a digit (letters that differ by case or accent only share
    one, which is what [sensitivity: "base"] asks for), and the weight at
    which a run of digits sorts among them. *)
Record Collation : Type := mkCollation {
  primaryWeight : ascii -> N;
  digitsWeight : N
}.

Inductive Token : Type :=
| TNum (n : N)
| TChr (c : ascii).

Definition isDigit (c : ascii) : bool :=
  ((48 <=? N_of_ascii c) && (N_of_ascii c <=? 57))%N.

Definition digitValue (c : ascii) : N := (N_of_ascii c - 48)%N.

Definition flush (acc : option N) : list Token :=
  match acc with
  | Some n => [TNum n]
  | None => []
  end.

Definition pushDigit (acc : option N) (c : ascii) : N :=
  match acc with
  | Some n => (10 * n + digitValue c)%N
  | None => digitValue c
  end.

(** A string as its maximal runs of digits, each one a number, and its
    other characters.  [acc] is the run of digits being read. *)
Fixpoint tokens (acc : option N) (s : list ascii) : list Token :=
  match s with
  | [] => flush acc
  | c :: rest =>
      if isDigit c then tokens (Some (pushDigit acc c)) rest
      else flush acc ++ TChr c :: tokens None rest
  end.

Definition key (col : Collation) (t : Token) : N * N :=
  match t with
  | TNum n => (digitsWeight col, n)
  | TChr c => (primaryWeight col c, 0%N)
  end.

Definition compareKey (a b : N * N) : comparison :=
  match N.compare (fst a) (fst b) with
  | Eq => N.compare (snd a) (snd b)
  | c => c
  end.

Fixpoint compareKeys (a b : list (N * N)) : comparison :=
  match a, b with
  | [], [] => Eq
  | [], _ :: _ => Lt
  | _ :: _, [] => Gt
  | x :: a', y :: b' =>
      match compareKey x y with
      | Eq => compareKeys a' b'
      | c => c
      end
  end.

Definition keys (col : Collation) (s : string) : list (N * N) :=
  map (key col) (tokens None (list_ascii_of_string s)).

(** Modelled from the spec: [a.localeCompare(b, undefined, { numeric: true,
    sensitivity: "base" })] is the collation of the host, which the
    repository calls and does not contain.  It is the comparison the
    specification describes: runs of digits compare by integer value, the
    other characters as text, in the order of the collation table.  [Lt],
    [Eq] and [Gt] stand for a negative, a zero and a positive result. *)
Definition localeCompare (col : Collation) (a b : string) : comparison :=
  compareKeys (keys col a) (keys col b).

(** Vocabulary for the statements about the comparison. *)

Definition numeral (u : list ascii) : bool :=
  match u with
  | [] => false
  | _ => forallb isDigit u
  end.

(** The integer a run of digits denotes. *)
Definition decimal (u : list ascii) : N :=
  fold_left (fun n c => (10 * n + digitValue c)%N) u 0%N.

Definition startsWithDigit (s : list ascii) : bool :=
  match s with
  | [] => false
  | c :: _ => isDigit c
  end.

Fixpoint endsWithDigit (s : list ascii) : bool :=
  match s with
  | [] => false
  | [c] => isDigit c
  | _ :: s' => endsWithDigit s'
  end.

Definition notAfter {A : Type} (cmp : A -> A -> comparison) (x y : A)
  : Prop :=
  cmp x y <> Gt.

Definition toLower (c : ascii) : ascii :=
  let n := N_of_ascii c in
  if ((65 <=? n) && (n <=? 90))%N then ascii_of_N (n + 32) else c.

(** A collation to run examples with: the code of the character, case
    folded, digits in their place among the codes.  No property below
    depends on it. *)
Definition asciiBase : Collation :=
  mkCollation (fun c => N_of_ascii (toLower c)) 48%N.

(** [Array.prototype.sort] with a comparison function: a stable sort.
    Inserting from the right, before the first element that is not smaller,
    keeps the elements that compare equal in their order. *)
Fixpoint insertBy {A : Type} (cmp : A -> A -> comparison) (x : A)
  (l : list A) : list A :=
  match l with
  | [] => [x]
  | y :: l' =>
      match cmp x y with
      | Gt => y :: insertBy cmp x l'
      | _ => x :: y :: l'
      end
  end.

Definition sortBy {A : Type} (cmp : A -> A -> comparison) (l : list A)
  : list A :=
  fold_right (insertBy cmp) [] l.

End NaturalOrder.

(* ----------------------------------------------------------------- *)
(** ** The loader (class [AtlasLoader]) *)

Module AtlasLoader.

Import JS NaturalOrder.

Local Open Scope string_scope.

(** *** The files and the host *)

(** A texture file, as the host decodes it: the width and the height of
    the image, or nothing when it does not decode. *)
Record TextureFile : Type := mkTextureFile { decoded : option (Z * Z) }.

(** An atlas file, as [JSON.parse] reads its text: a value, or nothing
    when the text is not JSON. *)
Record AtlasFile : Type := mkAtlasFile { parsed : option JValue }.

Inductive ConsoleMessage : Type :=
| TextureSizeMismatch (expected : option Size) (gotWidth gotHeight : Z).

(** The registry of object URLs of the host, and its console. *)
Record World : Type := mkWorld {
  objectURLs : list nat;
  nextURL : nat;
  console : list ConsoleMessage
}.

Definition emptyWorld : World := mkWorld [] 0 [].

Definition createObjectURL (w : World) : nat * World :=
  (nextURL w,
   mkWorld (nextURL w :: objectURLs w) (S (nextURL w)) (console w)).

Definition revokeObjectURL (url : nat) (w : World) : World :=
  mkWorld (filter (fun u => negb (Nat.eqb u url)) (objectURLs w))
          (nextURL w) (console w).

Definition warn (m : ConsoleMessage) (w : World) : World :=
  mkWorld (objectURLs w) (nextURL w) (console w ++ [m]).

(** *** The fields *)

Record LoadedAtlas : Type := mkLoadedAtlas {
  data : JValue;
  textureURL : nat;
  totalFrames : nat;
  loadedFrames : list FrameData
}.

Record state : Type := mkState { loadedAtlas : option LoadedAtlas }.

(** *** Structural validation *)

Fixpoint requireFields (missing : string -> LoadError) (v : JValue)
  (requiredFields : list string) : Exc unit :=
  match requiredFields with
  | [] => ret tt
  | field :: rest =>
      present <- hasField field v ;;
      check present orThrow missing field ;;
      requireFields missing v rest
  end.

Definition validateFrameStructure (frame : JValue) (index : nat) : Exc unit :=
  _ <- requireFields (FrameMissingField index) frame
         ["filename"; "frame"; "sourceSize"] ;;
  frameRect <- get frame "frame" ;;
  x <- get frameRect "x" ;;
  y <- get frameRect "y" ;;
  w <- get frameRect "w" ;;
  h <- get frameRect "h" ;;
  check negb ((negb (truthy x) && notZero x) ||
              (negb (truthy y) && notZero y) ||
              negb (truthy w) ||
              negb (truthy h))
    orThrow FrameCoordsNotNumeric index ;;
  sourceSize <- get frame "sourceSize" ;;
  sw <- get sourceSize "w" ;;
  sh <- get sourceSize "h" ;;
  check negb (negb (truthy sw) || negb (truthy sh))
    orThrow FrameSourceSize index ;;
  name <- get frame "filename" ;;
  match name with
  | JStr s => check negb (isBlank s) orThrow FrameFilename index ;; ret tt
  | _ => throw (FrameFilename index)
  end.

(** [frames.forEach((frame, index) => validateFrameStructure(frame, index))],
    from [index] on. *)
Fixpoint validateFrames (frames : list JValue) (index : nat) : Exc unit :=
  match frames with
  | [] => ret tt
  | frame :: rest =>
      _ <- validateFrameStructure frame index ;;
      validateFrames rest (S index)
  end.

Definition validateTextureStructure (texture : JValue) : Exc unit :=
  _ <- requireFields TextureMissingField texture
         ["image"; "size"; "frames"] ;;
  size <- get texture "size" ;;
  w <- get size "w" ;;
  h <- get size "h" ;;
  check negb (negb (truthy w) || negb (truthy h) ||
              negb (isNumber w) || negb (isNumber h))
    orThrow TextureSizeNotNumeric ;;
  frames <- get texture "frames" ;;
  match frames with
  | JArr [] => throw NoFrames
  | JArr items => validateFrames items 0
  | _ => throw FramesNotArray
  end.

Definition validateAtlasStructure (data : JValue) : Exc unit :=
  check truthy data && isObjectType data orThrow RootNotObject ;;
  textures <- get data "textures" ;;
  match textures with
  | JArr [] => throw NoTextures
  | JArr (texture :: _) => validateTextureStructure texture
  | _ => throw MissingTextures
  end.

Definition parseAtlasJSON (file : AtlasFile) : Exc JValue :=
  match parsed file with
  | None => throw InvalidJSON
  | Some data =>
      _ <- validateAtlasStructure data ;;
      ret data
  end.

(** *** The manifest at its declared type

    [parseAtlasJSON] returns [data as AtlasData]: an assertion of the type
    checker, without effect at run time.  The functions below read the
    value at that type.  They are undefined on a manifest that passes the
    structural validation with a coordinate that is not a number (a string,
    [true]): what the loader does with it rests on the coercions of the
    language, which are not embedded. *)

Definition asNumber (v : JValue) : option Z :=
  match v with
  | JNum n => Some n
  | _ => None
  end.

Definition field (v : JValue) (key : string) : JValue :=
  match v with
  | JObj fields =>
      match lookup key fields with
      | Some x => x
      | None => JUndefined
      end
  | _ => JUndefined
  end.

Definition asSize (v : JValue) : option Size :=
  match asNumber (field v "w"), asNumber (field v "h") with
  | Some w, Some h => Some (mkSize w h)
  | _, _ => None
  end.

Definition asRect (v : JValue) : option Rect :=
  match asNumber (field v "x"), asNumber (field v "y"),
        asNumber (field v "w"), asNumber (field v "h") with
  | Some x, Some y, Some w, Some h => Some (mkRect x y w h)
  | _, _, _, _ => None
  end.

Definition asFrameData (v : JValue) : option FrameData :=
  match field v "filename", asRect (field v "frame"),
        asSize (field v "sourceSize") with
  | JStr name, Some rect, Some ss =>
      match field v "spriteSourceSize" with
      | JUndefined | JNull => Some (mkFrameData name (Some ss) None rect)
      | sss =>
          match asRect sss with
          | Some r => Some (mkFrameData name (Some ss) (Some r) rect)
          | None => None
          end
      end
  | _, _, _ => None
  end.

Fixpoint asFrames (items : list JValue) : option (list FrameData) :=
  match items with
  | [] => Some []
  | v :: rest =>
      match asFrameData v, asFrames rest with
      | Some f, Some fs => Some (f :: fs)
      | _, _ => None
      end
  end.

Definition asTextureData (v : JValue) : option TextureData :=
  match asSize (field v "size"), field v "frames" with
  | Some sz, JArr items =>
      match asFrames items with
      | Some fs => Some (mkTextureData sz fs)
      | None => None
      end
  | _, _ => None
  end.

(** Only the first texture sheet is read: the typed manifest holds it
    alone. *)
Definition asAtlasData (v : JValue) : option AtlasData :=
  match field v "textures" with
  | JArr (texture :: _) =>
      match asTextureData texture with
      | Some t => Some (mkAtlasData [t])
      | None => None
      end
  | _ => None
  end.

(** *** The image against the manifest *)

Definition exceeds (f : FrameData) (width height : Z) : bool :=
  ((rect_x (frame f) + rect_w (frame f) >? width) ||
   (rect_y (frame f) + rect_h (frame f) >? height))%Z.

(** The loop over the frames of [img.onload], from index [i] on. *)
Fixpoint checkBounds (fs : list FrameData) (i : nat) (width height : Z)
  : Exc unit :=
  match fs with
  | [] => ret tt
  | f :: rest =>
      if exceeds f width height then
        throw (FrameOutOfBounds i (filename f)
                 (rect_x (frame f) + rect_w (frame f))
                 (rect_y (frame f) + rect_h (frame f)) width height)
      else checkBounds rest (S i) width height
  end.

Definition sizeMismatch (expected : option Size) (width height : Z) : bool :=
  match expected with
  | Some sz => negb (width =? size_w sz)%Z || negb (height =? size_h sz)%Z
  | None => true
  end.

Definition validateTextureImage (file : TextureFile) (atlasData : AtlasData)
  (w : World) : Exc unit * World :=
  let (src, w1) := createObjectURL w in
  match decoded file with
  | Some (width, height) =>
      let texture := hd_error (textures atlasData) in
      let expected := option_map size texture in
      let w2 :=
        if sizeMismatch expected width height
        then warn (TextureSizeMismatch expected width height) w1
        else w1 in
      let fs :=
        match texture with
        | Some t => frames t
        | None => []
        end in
      (checkBounds fs 0 width height, revokeObjectURL src w2)
  | None => (throw ImageLoadFailed, revokeObjectURL src w1)
  end.

(** *** Loading *)

Definition cleanup (s : state) (w : World) : state * World :=
  match loadedAtlas s with
  | Some atlas => (mkState None, revokeObjectURL (textureURL atlas) w)
  | None => (s, w)
  end.

Definition compareFrames (col : Collation) (a b : FrameData) : comparison :=
  localeCompare col (filename a) (filename b).

(** [None]: the manifest passes the structural validation and is not at its
    declared type. *)
Definition loadAtlas (col : Collation) (textureFile : TextureFile)
  (atlasFile : AtlasFile) (s : state) (w : World)
  : option (Exc LoadedAtlas * state * World) :=
  match parseAtlasJSON atlasFile with
  | inl error =>
      let (s', w') := cleanup s w in
      Some (throw error, s', w')
  | inr raw =>
      let (url, w1) := createObjectURL w in
      match asAtlasData raw with
      | None => None
      | Some atlasData =>
          match validateTextureImage textureFile atlasData w1 with
          | (inl error, w2) =>
              let (s', w') := cleanup s w2 in
              Some (throw error, s', w')
          | (inr _, w2) =>
              let fs :=
                match hd_error (textures atlasData) with
                | Some t => frames t
                | None => []
                end in
              let sortedFrames := sortBy (compareFrames col) fs in
              let atlas :=
                mkLoadedAtlas raw url (List.length sortedFrames)
                              sortedFrames in
              Some (ret atlas, mkState (Some atlas), w2)
          end
      end
  end.

Definition getFrameData (index : Number.integral) (s : state)
  : option FrameData :=
  match loadedAtlas s with
  | None => None
  | Some atlas =>
      if Number.ltZ index 0
         || Number.geZ index (Z.of_nat (totalFrames atlas))
      then None
      else Number.item (loadedFrames atlas) index
  end.

(** *** Vocabulary for the statements *)

(** A manifest whose first texture sheet has its three fields, a numeric
    size without zero, and the array [items] for frames: the manifests on
    which the validation comes down to that of the frames. *)
Definition validHeader (root : JValue) (items : list JValue) : Prop :=
  exists rootFields others textureFields sizeValue sw sh,
    root = JObj rootFields /\
    lookup "textures" rootFields
      = Some (JArr (JObj textureFields :: others)) /\
    lookup "image" textureFields <> None /\
    lookup "size" textureFields = Some sizeValue /\
    get sizeValue "w" = ret (JNum sw) /\ sw <> 0%Z /\
    get sizeValue "h" = ret (JNum sh) /\ sh <> 0%Z /\
    lookup "frames" textureFields = Some (JArr items).






(** *** Manifests to run the loader on *)

Definition sizeValue (w h : Z) : JValue :=
  JObj [("w", JNum w); ("h", JNum h)].

Definition rectValue (x y w h : Z) : JValue :=
  JObj [("x", JNum x); ("y", JNum y); ("w", JNum w); ("h", JNum h)].

(** A frame record with the three required fields. *)
Definition frameValue (name : string) (x y w h : Z) : JValue :=
  JObj [("filename", JStr name); ("frame", rectValue x y w h);
        ("sourceSize", sizeValue w h)].

(** A manifest of one texture sheet. *)
Definition manifestValue (w h : Z) (items : list JValue) : JValue :=
  JObj [("textures",
         JArr [JObj [("image", JStr "atlas.png"); ("size", sizeValue w h);
                     ("frames", JArr items)]])].

Definition manifestFile (w h : Z) (items : list JValue) : AtlasFile :=
  mkAtlasFile (Some (manifestValue w h items)).

Definition imageFile (w h : Z) : TextureFile := mkTextureFile (Some (w, h)).

Definition fresh : state := mkState None.

(** *** The other methods *)

Definition getFrameNames (s : state) : list string :=
  match loadedAtlas s with
  | None => []
  | Some atlas => map filename (loadedFrames atlas)
  end.

(** [haystack.includes(needle)] *)
Definition includes (needle haystack : string) : bool :=
  match String.index 0 needle haystack with
  | Some _ => true
  | None => false
  end.

(** [items.findIndex(p)], counting from [i]. *)
Fixpoint findIndex {A : Type} (p : A -> bool) (items : list A) (i : Z) : Z :=
  match items with
  | [] => -1
  | x :: rest => if p x then i else findIndex p rest (i + 1)
  end.

(** The frame of the result is [frames[index]!]: [None] there would be
    [undefined]. *)
Definition findFrameByName (name : string) (s : state)
  : option (Z * option FrameData) :=
  match loadedAtlas s with
  | None => None
  | Some atlas =>
      let index :=
        findIndex
          (fun frame =>
             String.eqb (filename frame) name || includes name (filename frame))
          (loadedFrames atlas) 0 in
      if (index =? -1)%Z then None
      else Some (index, Number.item (loadedFrames atlas) (Number.Int index))
  end.

(** *** The loader over time *)

(** The object URLs the host has handed out are below the next one. *)
Definition wellFormed (w : World) : Prop :=
  Forall (fun u => (u < nextURL w)%nat) (objectURLs w).

(** The loader and the host after any sequence of loads and cleanups. *)
Inductive Reachable (col : Collation) : state -> World -> Prop :=
| Reachable_fresh : Reachable col fresh emptyWorld
| Reachable_load : forall textureFile atlasFile s w result s' w',
    Reachable col s w ->
    loadAtlas col textureFile atlasFile s w = Some (result, s', w') ->
    Reachable col s' w'
| Reachable_cleanup : forall s w,
    Reachable col s w ->
    Reachable col (fst (cleanup s w)) (snd (cleanup s w)).

End AtlasLoader.

(* ----------------------------------------------------------------- *)
(** ** The viewer (class [PhaserAtlasViewer])

    The viewer once the scene is created: the loader, the renderer and the
    controller are there.  What the handlers write to the page is left
    out. *)

Module App.

Import Number.

(** Of [AppState], the fields that are read back; the three components; the
    host the loader runs in. *)
Record state : Type := mkState {
  currentFrame : integral;
  totalFrames : Z;
  isPlaying : bool;
  frameRate : integral;
  atlasLoader : AtlasLoader.state;
  spriteRenderer : SpriteRenderer.state;
  frameController : FrameController.state;
  host : AtlasLoader.World
}.

Definition with_currentFrame (i : integral) (a : state) : state :=
  mkState i (totalFrames a) (isPlaying a) (frameRate a) (atlasLoader a)
          (spriteRenderer a) (frameController a) (host a).

Definition with_totalFrames (n : Z) (a : state) : state :=
  mkState (currentFrame a) n (isPlaying a) (frameRate a) (atlasLoader a)
          (spriteRenderer a) (frameController a) (host a).

Definition with_isPlaying (b : bool) (a : state) : state :=
  mkState (currentFrame a) (totalFrames a) b (frameRate a) (atlasLoader a)
          (spriteRenderer a) (frameController a) (host a).

Definition with_frameRate (fps : integral) (a : state) : state :=
  mkState (currentFrame a) (totalFrames a) (isPlaying a) fps (atlasLoader a)
          (spriteRenderer a) (frameController a) (host a).

Definition with_spriteRenderer (r : SpriteRenderer.state) (a : state)
  : state :=
  mkState (currentFrame a) (totalFrames a) (isPlaying a) (frameRate a)
          (atlasLoader a) r (frameController a) (host a).

Definition with_frameController (c : FrameController.state) (a : state)
  : state :=
  mkState (currentFrame a) (totalFrames a) (isPlaying a) (frameRate a)
          (atlasLoader a) (spriteRenderer a) c (host a).

(** The lookup the controller is created with:
    [(index) => this.atlasLoader?.getFrameData(index) || null]. *)
Definition lookup (l : AtlasLoader.state) : integral -> option FrameData :=
  fun index => AtlasLoader.getFrameData index l.

(** The lookup reads the loader as it is when it is called: a change of
    the loader is a change of the lookup the controller holds. *)
Definition rewire (l : AtlasLoader.state) (c : FrameController.state)
  : FrameController.state :=
  FrameController.mkState
    (FrameController.totalFrames c) (FrameController.currentFrame c)
    (FrameController.isPlaying c) (FrameController.frameRate c)
    (FrameController.animationTimer c) (FrameController.isLooping c)
    (lookup l).

Definition with_atlasLoader (l : AtlasLoader.state) (w : AtlasLoader.World)
  (a : state) : state :=
  mkState (currentFrame a) (totalFrames a) (isPlaying a) (frameRate a)
          l (spriteRenderer a) (rewire l (frameController a)) w.

(** [DEFAULT_APP_STATE] and the three components as they are created. *)
Definition new : state :=
  mkState (Int 0) 0 false (Int 12) AtlasLoader.fresh SpriteRenderer.new
          (FrameController.new (lookup AtlasLoader.fresh))
          AtlasLoader.emptyWorld.

(** [spriteEvents] *)
Definition onRendererEvent (a : state) (e : SpriteRenderer.Event) : state :=
  match e with
  | SpriteRenderer.OnFrameChanged frameIndex _ =>
      with_currentFrame frameIndex a
  | SpriteRenderer.OnRenderError _ => a
  end.

(** A call of the renderer, and the handling of what it reports. *)
Definition render
  (m : SpriteRenderer.state -> SpriteRenderer.state * list SpriteRenderer.Event)
  (a : state) : state :=
  let (r, events) := m (spriteRenderer a) in
  fold_left onRendererEvent events (with_spriteRenderer r a).

(** [frameEvents] *)
Definition onControllerEvent (a : state) (e : FrameController.Event)
  : state :=
  match e with
  | FrameController.OnFrameChange frameIndex _ =>
      render (SpriteRenderer.setFrame frameIndex) a
  | FrameController.OnPlayStateChange playing => with_isPlaying playing a
  | FrameController.OnFrameRateChange fps => with_frameRate fps a
  end.

(** The handlers read neither the controller nor the loader: running them
    after the method that fired the events, in the order of the events, is
    running them as they are fired. *)
Definition dispatch (result : FrameController.state * list FrameController.Event)
  (a : state) : state :=
  fold_left onControllerEvent (snd result)
            (with_frameController (fst result) a).

(** A call of the controller, and the handling of what it reports. *)
Definition control (m : FrameController.method) (a : state) : state :=
  dispatch (m (frameController a)) a.

(** The guard is false on NaN, as the guard of the controller is. *)
Definition setCurrentFrame (frameIndex : integral) (a : state) : state :=
  if ltZ frameIndex 0 || geZ frameIndex (totalFrames a) then a
  else control (FrameController.setFrame frameIndex) a.

(** [updateFrameFromPosition], from the position computed from the pointer
    and the scrub bar: a number from 0 to 1, or NaN for a bar without
    width. *)
Definition updateFrameFromPosition (position : number) (a : state) : state :=
  if totalFrames a =? 0 then a
  else
    let frameIndex :=
      floor (mul position (ofZ (Z.max 0 (totalFrames a - 1)))) in
    setCurrentFrame frameIndex a.

Definition getCurrentFrameData (a : state) : option FrameData :=
  AtlasLoader.getFrameData (currentFrame a) (atlasLoader a).

(** [handleFilesReady] run to its end: the steps in their order, nothing
    else running while it awaits.  [loading] is what the host does with the
    image of the texture when the renderer asks for it.  [None]: the
    manifest is not at its declared type. *)
Definition handleFilesReady (col : NaturalOrder.Collation)
  (textureFile : AtlasLoader.TextureFile) (atlasFile : AtlasLoader.AtlasFile)
  (loading : SpriteRenderer.Loading) (a : state) : option state :=
  match AtlasLoader.loadAtlas col textureFile atlasFile
          (atlasLoader a) (host a) with
  | None => None
  | Some (inl _, l, w) => Some (with_atlasLoader l w a)
  | Some (inr loadedAtlas, l, w) =>
      let n := Z.of_nat (AtlasLoader.totalFrames loadedAtlas) in
      let a1 :=
        with_currentFrame (Int 0)
          (with_totalFrames n (with_atlasLoader l w a)) in
      match SpriteRenderer.loadAtlasTexture
              (AtlasLoader.loadedFrames loadedAtlas) loading
              (spriteRenderer a1) with
      | (r, events, true) =>
          Some (control (FrameController.initialize n)
                  (fold_left onRendererEvent events
                             (with_spriteRenderer r a1)))
      | (r, events, false) =>
          Some (fold_left onRendererEvent events (with_spriteRenderer r a1))
      end
  end.

(** What the page asks of the viewer: the events of the control panel, of
    the frame display, of the progress indicator and of the scrub bar, the
    tick of the timer, and the files the user gives. *)
Inductive Op : Type :=
| OnPlay
| OnPause
| OnStop
| OnFrameRateChange (fps : integral)
| OnFrameJump (frameIndex : integral)
| OnStepForward
| OnStepBackward
| OnGoToFirst
| OnGoToLast
| OnLoopToggle (enabled : bool)
| OnProgressChange (progress : number)
| OnScrub (position : number)
| OnScrubStart (position : number)
| OnTick
| OnFilesReady (textureFile : AtlasLoader.TextureFile)
               (atlasFile : AtlasLoader.AtlasFile)
               (loading : SpriteRenderer.Loading).

Definition exec (col : NaturalOrder.Collation) (op : Op) (a : state)
  : option state :=
  match op with
  | OnPlay => Some (control FrameController.play a)
  | OnPause => Some (control FrameController.pause a)
  | OnStop => Some (control FrameController.stop a)
  | OnFrameRateChange fps => Some (control (FrameController.setFrameRate fps) a)
  | OnFrameJump frameIndex => Some (setCurrentFrame frameIndex a)
  | OnStepForward => Some (control FrameController.nextFrame a)
  | OnStepBackward => Some (control FrameController.previousFrame a)
  | OnGoToFirst => Some (control FrameController.goToFirstFrame a)
  | OnGoToLast => Some (control FrameController.goToLastFrame a)
  | OnLoopToggle enabled =>
      Some (control (FrameController.setLooping enabled) a)
  | OnProgressChange progress =>
      Some (control (FrameController.setFrameFromProgress progress) a)
  | OnScrub position => Some (updateFrameFromPosition position a)
  | OnScrubStart position =>
      let a1 := updateFrameFromPosition position a in
      if FrameController.isPlaying (frameController a1)
      then Some (control FrameController.pause a1)
      else Some a1
  | OnTick => Some (control FrameController.tick a)
  | OnFilesReady textureFile atlasFile loading =>
      handleFilesReady col textureFile atlasFile loading a
  end.

(** The viewer after any sequence of these. *)
Inductive Reachable (col : NaturalOrder.Collation) : state -> Prop :=
| Reachable_new : Reachable col new
| Reachable_exec : forall op a a',
    Reachable col a -> exec col op a = Some a' -> Reachable col a'.

(** A sequence of them, one after the other. *)
Fixpoint run (col : NaturalOrder.Collation) (ops : list Op) (a : state)
  : option state :=
  match ops with
  | [] => Some a
  | op :: rest =>
      match exec col op a with
      | Some a1 => run col rest a1
      | None => None
      end
  end.

(** *** Vocabulary for the statements *)

(** The renderer holds [n] frames and, when there are frames, a sprite; its
    index, and the frame it asked of the sprite, are [cur]. *)
Definition shows (n : Z) (cur : integral) (r : SpriteRenderer.state) : Prop :=
  Z.of_nat (List.length (SpriteRenderer.frames r)) = n /\
  (1 <= n ->
   SpriteRenderer.currentFrameIndex r = cur /\
   exists sp,
     SpriteRenderer.sprite r = Some sp /\ SpriteRenderer.sprite_frame sp = cur).

(** An index of a list of [n] frames, or 0 when there are none. *)
Definition validIndex (n : Z) (i : integral) : Prop :=
  exists k, i = Int k /\ (0 <= k < n \/ k = 0 /\ n = 0).

(** The state of the viewer, the controller and the renderer agree on the
    number of frames, on the play state and on the frame rate; the renderer
    is on the frame of the controller; the frame of the viewer is a valid
    index, and it is the frame of the controller unless that one is NaN. *)
Definition synced (a : state) : Prop :=
  FrameController.totalFrames (frameController a) = totalFrames a /\
  FrameController.isPlaying (frameController a) = isPlaying a /\
  FrameController.frameRate (frameController a) = frameRate a /\
  shows (totalFrames a) (FrameController.currentFrame (frameController a))
        (spriteRenderer a) /\
  validIndex (totalFrames a) (currentFrame a) /\
  (FrameController.currentFrame (frameController a) = NaN \/
   FrameController.currentFrame (frameController a) = currentFrame a).

(** The renderer is on the frame [cur]; the frame of the viewer is a valid
    index, and it is [cur] unless that one is NaN. *)
Definition follows (a : state) (cur : integral) : Prop :=
  shows (totalFrames a) cur (spriteRenderer a) /\
  validIndex (totalFrames a) (currentFrame a) /\
  (cur = NaN \/ cur = currentFrame a).

(** The frames the renderer shows are those of the atlas the loader holds,
    and the lookup of the controller reads that loader. *)
Definition coherent (a : state) : Prop :=
  FrameController.getFrameDataCallback (frameController a)
    = lookup (atlasLoader a) /\
  forall atlas,
    AtlasLoader.loadedAtlas (atlasLoader a) = Some atlas ->
    SpriteRenderer.frames (spriteRenderer a) = AtlasLoader.loadedFrames atlas /\
    totalFrames a = Z.of_nat (AtlasLoader.totalFrames atlas) /\
    AtlasLoader.totalFrames atlas
      = List.length (AtlasLoader.loadedFrames atlas) /\
    (1 <= AtlasLoader.totalFrames atlas)%nat.

(** An object URL that is registered with the host and that the loader
    does not hold: nothing the viewer keeps refers to it. *)
Definition orphan (url : nat) (a : state) : Prop :=
  In url (AtlasLoader.objectURLs (host a)) /\
  forall atlas,
    AtlasLoader.loadedAtlas (atlasLoader a) = Some atlas ->
    AtlasLoader.textureURL atlas <> url.

(** A page event after which a texture, if one was asked for, is
    loaded. *)
Definition completes (op : Op) : bool :=
  match op with
  | OnFilesReady _ _ SpriteRenderer.LoadError => false
  | _ => true
  end.

(** What a list of events of the controller says of the frame, the play
    state and the frame rate, from those before it. *)
Definition replay1 (v : integral * bool * integral)
  (e : FrameController.Event) : integral * bool * integral :=
  match v, e with
  | (_, playing, fps), FrameController.OnFrameChange frameIndex _ =>
      (frameIndex, playing, fps)
  | (cur, _, fps), FrameController.OnPlayStateChange playing =>
      (cur, playing, fps)
  | (cur, playing, _), FrameController.OnFrameRateChange fps =>
      (cur, playing, fps)
  end.

Definition replay (events : list FrameController.Event)
  (v : integral * bool * integral) : integral * bool * integral :=
  fold_left replay1 events v.

(** The frame an event reports is NaN or an index of [n] frames. *)
Definition frameInRange (n : Z) (e : FrameController.Event) : Prop :=
  match e with
  | FrameController.OnFrameChange frameIndex _ =>
      frameIndex = NaN \/ exists k, frameIndex = Int k /\ 0 <= k < n
  | _ => True
  end.

(** The events of a call of the controller tell what the call changed. *)
Definition reported (c : FrameController.state)
  (result : FrameController.state * list FrameController.Event) : Prop :=
  FrameController.totalFrames (fst result) = FrameController.totalFrames c /\
  FrameController.getFrameDataCallback (fst result)
    = FrameController.getFrameDataCallback c /\
  replay (snd result)
    (FrameController.currentFrame c, FrameController.isPlaying c,
     FrameController.frameRate c)
  = (FrameController.currentFrame (fst result),
     FrameController.isPlaying (fst result),
     FrameController.frameRate (fst result)) /\
  Forall (frameInRange (FrameController.totalFrames c)) (snd result).

End App.

(* ================================================================= *)
(** * Part II: the properties *)
(* ================================================================= *)

(* ----------------------------------------------------------------- *)
(** ** Binary64 arithmetic

    What the controller needs of the rounding of [SpecFloat]: integers
    below [2^53] are doubles, multiplying by 1.0 is exact, and the rounded
    product of a progress of the unit interval with an integer stays within
    that integer. *)

Module NumberFacts.

Import Number.

Lemma digits2_pos_bounds (m : positive) :
  2 ^ (Zpos (digits2_pos m) - 1) <= Zpos m < 2 ^ Zpos (digits2_pos m).
Proof.
  induction m as [m IH | m IH |]; cbn [digits2_pos].
  - rewrite Pos2Z.inj_succ.
    replace (Z.succ (Zpos (digits2_pos m)) - 1) with (Z.succ (Zpos (digits2_pos m) - 1)) by lia.
    rewrite !Z.pow_succ_r by lia. lia.
  - rewrite Pos2Z.inj_succ.
    replace (Z.succ (Zpos (digits2_pos m)) - 1) with (Z.succ (Zpos (digits2_pos m) - 1)) by lia.
    rewrite !Z.pow_succ_r by lia. lia.
  - cbn. lia.
Qed.

Lemma digits2_pos_le (m : positive) (k : Z) :
  0 <= k -> Zpos m < 2 ^ k -> Zpos (digits2_pos m) <= k.
Proof.
  intros Hk Hm.
  destruct (Z.le_gt_cases (Zpos (digits2_pos m)) k) as [|Hgt]; [assumption|].
  pose proof (digits2_pos_bounds m) as [Hlo _].
  assert (2 ^ k <= 2 ^ (Zpos (digits2_pos m) - 1)) by (apply Z.pow_le_mono_r; lia).
  lia.
Qed.

(** One step of the shift: halve, remember the bit, accumulate the sticky. *)
Lemma shr_1_spec (m : Z) (r s : bool) :
  0 <= m ->
  shr_1 (Build_shr_record m r s) =
    Build_shr_record (m / 2) (Z.odd m) (r || s).
Proof.
  intros Hm. destruct m as [|p|p]; [reflexivity| |lia].
  destruct p as [p|p|]; cbn [shr_1].
  - replace (Z.pos p~1 / 2) with (Z.pos p)
      by (rewrite Pos2Z.inj_xI; apply Z.div_unique with 1; lia).
    reflexivity.
  - replace (Z.pos p~0 / 2) with (Z.pos p)
      by (rewrite Pos2Z.inj_xO; apply Z.div_unique with 0; lia).
    reflexivity.
  - reflexivity.
Qed.


Lemma iter_shr_1_spec (m0 : Z) (p : positive) :
  0 <= m0 ->
  forall (k : Z) (mrs : shr_record),
    0 <= k ->
    shr_m mrs = m0 / 2 ^ k ->
    (inexact mrs = true <-> m0 mod 2 ^ k <> 0) ->
    let mrs' := iter_pos shr_1 p mrs in
    shr_m mrs' = m0 / 2 ^ (k + Zpos p) /\
    (inexact mrs' = true <-> m0 mod 2 ^ (k + Zpos p) <> 0).
Proof.
  intros Hm0.
  assert (Hstep : forall k mrs, 0 <= k ->
    shr_m mrs = m0 / 2 ^ k ->
    (inexact mrs = true <-> m0 mod 2 ^ k <> 0) ->
    shr_m (shr_1 mrs) = m0 / 2 ^ (k + 1) /\
    (inexact (shr_1 mrs) = true <-> m0 mod 2 ^ (k + 1) <> 0)).
  { intros k [m r s] Hk Hm Hi. cbn in Hm. unfold inexact in Hi; cbn in Hi.
    assert (0 < 2 ^ k) by (apply Z.pow_pos_nonneg; lia).
    assert (0 <= m) by (subst m; apply Z.div_pos; lia).
    rewrite shr_1_spec by assumption. unfold inexact; cbn.
    rewrite Z.pow_add_r, Z.pow_1_r by lia.
    split.
    - subst m. rewrite Z.div_div by lia. reflexivity.
    - rewrite Z.rem_mul_r by lia.
      rewrite orb_true_iff, Hi, <- Hm, Zodd_mod.
      pose proof (Z.mod_pos_bound m0 (2 ^ k) ltac:(lia)).
      pose proof (Z.mod_pos_bound m 2 ltac:(lia)).
      destruct (Z.eqb_spec (m mod 2) 1); split; intros; nia. }
  induction p as [p IH | p IH |]; intros k mrs Hk Hm Hi; cbn [iter_pos].
  - destruct (Hstep k mrs Hk Hm Hi) as [Hm1 Hi1].
    destruct (IH (k + 1) (shr_1 mrs) ltac:(lia) Hm1 Hi1) as [Hm2 Hi2].
    destruct (IH (k + 1 + Zpos p) _ ltac:(lia) Hm2 Hi2) as [Hm3 Hi3].
    replace (k + Zpos p~1) with (k + 1 + Zpos p + Zpos p) by lia.
    split; assumption.
  - destruct (IH k mrs Hk Hm Hi) as [Hm2 Hi2].
    destruct (IH (k + Zpos p) _ ltac:(lia) Hm2 Hi2) as [Hm3 Hi3].
    replace (k + Zpos p~0) with (k + Zpos p + Zpos p) by lia.
    split; assumption.
  - apply Hstep; assumption.
Qed.


Lemma F_eq (e : Z) : F e = Z.max (e - 53) (-1074).
Proof. reflexivity. Qed.

Lemma shr_exact_spec (m e n : Z) :
  0 <= m -> 0 < n ->
  let mrs' := fst (shr (Build_shr_record m false false) e n) in
  snd (shr (Build_shr_record m false false) e n) = e + n /\
  shr_m mrs' = m / 2 ^ n /\
  (inexact mrs' = true <-> m mod 2 ^ n <> 0).
Proof.
  intros Hm Hn. destruct n as [|p|p]; try lia. cbn [shr fst snd].
  split; [reflexivity|].
  apply (iter_shr_1_spec m p Hm 0 (Build_shr_record m false false)).
  - lia.
  - cbn. now rewrite Z.div_1_r.
  - cbn. rewrite Z.mod_1_r. split; [discriminate | congruence].
Qed.

Lemma shr_noshift (mrs : shr_record) (e n : Z) :
  n <= 0 -> shr mrs e n = (mrs, e).
Proof. destruct n; [reflexivity | lia | reflexivity]. Qed.

Lemma round_nearest_even_bounds (mrs : shr_record) :
  let m' := round_nearest_even (shr_m mrs) (loc_of_shr_record mrs) in
  shr_m mrs <= m' <= shr_m mrs + 1 /\
  (inexact mrs = false -> m' = shr_m mrs).
Proof.
  destruct mrs as [m [|] [|]]; unfold inexact; cbn;
    try destruct (Z.even m); split; try lia; try discriminate; reflexivity.
Qed.

Lemma binary_round_aux_noshift (s : bool) (m : positive) (e : Z) :
  F (Zpos (digits2_pos m) + e) <= e -> e <= emax - prec ->
  binary_round_aux prec emax s (Zpos m) e loc_Exact = S754_finite s m e.
Proof.
  intros Hn He. unfold binary_round_aux, shr_fexp. cbn [Zdigits2 shr_record_of_loc].
  fold (F (Zpos (digits2_pos m) + e)).
  rewrite shr_noshift by lia. cbn [shr_m loc_of_shr_record round_nearest_even Zdigits2].
  fold (F (Zpos (digits2_pos m) + e)).
  rewrite shr_noshift by lia. cbn [shr_m].
  apply Z.leb_le in He. now rewrite He.
Qed.

Lemma shiftl_le_of_scaled (m e B : Z) :
  0 <= m -> e <= 0 -> m <= B * 2 ^ (- e) -> Z.shiftl m e <= B.
Proof.
  intros Hm He Hle. rewrite Z.shiftl_div_pow2 by assumption.
  assert (0 < 2 ^ (- e)) by (apply Z.pow_pos_nonneg; lia).
  apply Z.div_le_upper_bound; [assumption | lia].
Qed.

Lemma binary_round_aux_upper (s : bool) (mx : positive) (ex B : Z) :
  ex <= 0 -> 0 <= B ->
  Zpos mx <= B * 2 ^ (- ex) ->
  F (Zpos (digits2_pos mx) + ex) <= 0 ->
  match binary_round_aux prec emax s (Zpos mx) ex loc_Exact with
  | S754_zero s' => s' = s
  | S754_finite s' mf ef => s' = s /\ Z.shiftl (Zpos mf) ef <= B
  | _ => False
  end.
Proof.
  intros Hex HB Hle He1.
  set (d := Zpos (digits2_pos mx)) in *.
  set (e1 := F (d + ex)) in *.
  destruct (Z.le_gt_cases (e1 - ex) 0) as [Hn | Hn].
  - rewrite binary_round_aux_noshift by (fold d; fold e1; unfold emax, prec; lia).
    split; [reflexivity|]. apply shiftl_le_of_scaled; lia.
  - unfold binary_round_aux, shr_fexp. cbn [Zdigits2 shr_record_of_loc].
    fold d. fold (F (d + ex)). fold e1.
    pose proof (shr_exact_spec (Zpos mx) ex (e1 - ex) ltac:(lia) ltac:(lia)) as Hshr.
    destruct (shr _ ex (e1 - ex)) as [mrs1 e1'] eqn:E1. cbn [fst snd] in Hshr.
    destruct Hshr as (-> & Hm1 & Hi1).
    replace (ex + (e1 - ex)) with e1 by lia.
    pose proof (round_nearest_even_bounds mrs1) as [Hrne Hrne_exact].
    cbn zeta in Hrne, Hrne_exact.
    set (m2 := round_nearest_even (shr_m mrs1) (loc_of_shr_record mrs1)) in *.
    set (n := e1 - ex) in *.
    set (K := B * 2 ^ (- e1)).
    assert (Hpn : 0 < 2 ^ n) by (apply Z.pow_pos_nonneg; lia).
    assert (HK : Zpos mx <= K * 2 ^ n).
    { unfold K. rewrite <- Z.mul_assoc, <- Z.pow_add_r by lia.
      replace (- e1 + n) with (- ex) by lia. exact Hle. }
    assert (Hm1K : shr_m mrs1 <= K).
    { rewrite Hm1. apply Z.div_le_upper_bound; lia. }
    assert (Hm2K : m2 <= K).
    { destruct (inexact mrs1) eqn:Ei.
      - assert (Hne : Zpos mx mod 2 ^ n <> 0) by now apply Hi1.
        assert (Zpos mx <> K * 2 ^ n).
        { intros Heq. apply Hne. rewrite Heq. apply Z.mod_mul. lia. }
        assert (shr_m mrs1 < K).
        { rewrite Hm1. apply Z.div_lt_upper_bound; lia. }
        lia.
      - rewrite Hrne_exact by reflexivity. exact Hm1K. }
    assert (Hm1pos : 0 <= shr_m mrs1) by (rewrite Hm1; apply Z.div_pos; lia).
    assert (Hm1lt : shr_m mrs1 < 2 ^ 53).
    { rewrite Hm1. apply Z.div_lt_upper_bound; [lia|].
      pose proof (digits2_pos_bounds mx) as [_ Hhi]. fold d in Hhi.
      assert (d - 53 <= n) by (unfold n, e1; rewrite F_eq; lia).
      destruct (Z.le_gt_cases d 53).
      - assert (2 ^ d <= 2 ^ 53) by (apply Z.pow_le_mono_r; lia). nia.
      - assert (2 ^ d <= 2 ^ n * 2 ^ 53).
        { rewrite <- Z.pow_add_r by lia. apply Z.pow_le_mono_r; lia. }
        lia. }
    assert (He1min : -1074 <= e1) by (unfold e1; rewrite F_eq; lia).
    destruct m2 as [|p2|p2] eqn:Em2; [| |lia].
    + cbn [Zdigits2]. fold (F (0 + e1)).
      rewrite shr_noshift by (rewrite F_eq; lia). reflexivity.
    + cbn [Zdigits2]. fold (F (Zpos (digits2_pos p2) + e1)).
      assert (Hd2 : Zpos (digits2_pos p2) <= 54).
      { apply digits2_pos_le; [lia|].
        change (2 ^ 54) with (2 * 2 ^ 53). lia. }
      set (n2 := F (Zpos (digits2_pos p2) + e1) - e1).
      assert (Hn2 : n2 <= 1) by (unfold n2; rewrite F_eq; lia).
      destruct (Z.le_gt_cases n2 0) as [Hn20 | Hn20].
      * rewrite shr_noshift by assumption. cbn [shr_m].
        replace (e1 <=? emax - prec) with true by (unfold emax, prec; lia).
        split; [reflexivity|]. apply shiftl_le_of_scaled; lia.
      * assert (n2 = 1) as -> by lia.
        cbn [shr iter_pos shr_1].
        pose proof (shr_1_spec (Zpos p2) false false ltac:(lia)) as Hs1.
        cbn [shr_1] in Hs1. rewrite Hs1. cbn [shr_m].
        destruct (Zpos p2 / 2) as [|p3|p3] eqn:E3.
        -- reflexivity.
        -- replace (e1 + 1 <=? emax - prec) with true by (unfold emax, prec; lia).
           split; [reflexivity|].
           destruct (Z.eq_dec e1 0) as [-> | He10].
           ++ cbn [Z.add]. rewrite Z.shiftl_mul_pow2 by lia.
              unfold K in Hm2K. cbn in Hm2K.
              pose proof (Z.mul_div_le (Zpos p2) 2 ltac:(lia)). lia.
           ++ apply shiftl_le_of_scaled; [lia | lia |].
              rewrite <- E3.
              apply Z.div_le_upper_bound; [lia|].
              replace (2 * (B * 2 ^ (- (e1 + 1)))) with K; [exact Hm2K|].
              unfold K. replace (- e1) with (Z.succ (- (e1 + 1))) by lia.
              rewrite Z.pow_succ_r by lia. lia.
        -- pose proof (Z.div_pos (Zpos p2) 2 ltac:(lia) ltac:(lia)). lia.
Qed.


Lemma digits2_pos_unique (x : positive) (d : Z) :
  2 ^ (d - 1) <= Zpos x < 2 ^ d -> Zpos (digits2_pos x) = d.
Proof.
  intros [Hlo Hhi].
  pose proof (digits2_pos_bounds x) as [Hlo' Hhi'].
  set (d' := Zpos (digits2_pos x)) in *.
  assert (0 < d') by (unfold d'; lia).
  assert (0 < d).
  { destruct (Z.lt_ge_cases 0 d); [assumption|].
    destruct (Z.eq_dec d 0) as [-> | ]; [cbn in Hhi; lia|].
    rewrite (Z.pow_neg_r 2 d) in Hhi by lia. lia. }
  destruct (Z.lt_trichotomy d' d) as [Hlt | [Heq | Hgt]]; [| assumption |].
  - assert (2 ^ d' <= 2 ^ (d - 1)) by (apply Z.pow_le_mono_r; lia). lia.
  - assert (2 ^ d <= 2 ^ (d' - 1)) by (apply Z.pow_le_mono_r; lia). lia.
Qed.

Lemma pos_iter_xO (m d : positive) :
  Zpos (Pos.iter xO m d) = Zpos m * 2 ^ Zpos d.
Proof.
  induction d as [|d IH] using Pos.peano_ind.
  - cbn [Pos.iter]. rewrite Z.pow_1_r. lia.
  - rewrite Pos.iter_succ, Pos2Z.inj_xO, IH, Pos2Z.inj_succ, Z.pow_succ_r by lia. lia.
Qed.

Lemma digits2_pos_shift (m : positive) (x : positive) (n : Z) :
  0 <= n -> Zpos x = Zpos m * 2 ^ n ->
  Zpos (digits2_pos x) = Zpos (digits2_pos m) + n.
Proof.
  intros Hn Hx. apply digits2_pos_unique.
  pose proof (digits2_pos_bounds m) as [Hlo Hhi].
  assert (0 < 2 ^ n) by (apply Z.pow_pos_nonneg; lia).
  replace (Zpos (digits2_pos m) + n - 1) with (Zpos (digits2_pos m) - 1 + n) by lia.
  rewrite !Z.pow_add_r, Hx by lia. nia.
Qed.

Lemma ofZ_0 : ofZ 0 = S754_zero false.
Proof. reflexivity. Qed.

Lemma ofZ_1 : ofZ 1 = S754_finite false 4503599627370496 (-52).
Proof. reflexivity. Qed.

(** An integer below [2^53] is a double: a 53-bit mantissa and a
    non-positive exponent. *)
Lemma ofZ_small (M : Z) :
  0 < M < 2 ^ 53 ->
  exists (my : positive) (ey : Z),
    ofZ M = S754_finite false my ey /\
    -52 <= ey <= 0 /\
    Zpos my = M * 2 ^ (- ey) /\
    Zpos (digits2_pos my) = 53.
Proof.
  intros [Hpos Hlt]. destruct M as [|m|m]; try lia.
  unfold ofZ, binary_normalize, binary_round, shl_align.
  fold (F (Zpos (digits2_pos m) + 0)). rewrite Z.add_0_r, Z.sub_0_r.
  pose proof (digits2_pos_le m 53 ltac:(lia) Hlt) as Hd.
  set (d := Zpos (digits2_pos m)) in *.
  assert (0 < d) by (unfold d; lia).
  assert (HF : F d = d - 53) by (rewrite F_eq; lia).
  rewrite HF.
  destruct (d - 53) as [|q|q] eqn:Ed; try lia.
  - exists m, 0. rewrite binary_round_aux_noshift.
    + repeat split; lia.
    + fold d. rewrite F_eq. lia.
    + unfold emax, prec. lia.
  - assert (Hx : Zpos (Pos.iter xO m q) = Zpos m * 2 ^ Zpos q) by apply pos_iter_xO.
    pose proof (digits2_pos_shift m _ (Zpos q) ltac:(lia) Hx) as Hdx. fold d in Hdx.
    exists (Pos.iter xO m q), (Zneg q).
    rewrite binary_round_aux_noshift.
    + repeat split; try lia. rewrite Hx. reflexivity.
    + rewrite Hdx, F_eq. lia.
    + unfold emax, prec. lia.
Qed.

Lemma floor_ofZ (M : Z) : 0 <= M < 2 ^ 53 -> floor (ofZ M) = Int M.
Proof.
  intros [H0 Hlt]. destruct (Z.eq_dec M 0) as [-> | Hne]; [reflexivity|].
  destruct (ofZ_small M ltac:(lia)) as (my & ey & -> & Hey & Hmy & _).
  cbn [floor]. f_equal. rewrite Z.shiftl_div_pow2, Hmy by lia.
  apply Z.div_mul. apply Z.pow_nonzero; lia.
Qed.

(** A double of the unit interval is a zero, or a positive mantissa scaled
    down to at most one. *)
Lemma inUnitInterval_cases (p : spec_float) :
  inUnitInterval p = true ->
  (exists s, p = S754_zero s) \/
  (exists m e, p = S754_finite false m e /\ e <= 0 /\ Zpos m <= 2 ^ (- e)).
Proof.
  unfold inUnitInterval. rewrite !andb_true_iff, ofZ_0, ofZ_1.
  unfold leb, SFleb, SFcompare.
  intros [[Hvalid H0] H1].
  destruct p as [s | s | | s m e]; try discriminate.
  - left. now exists s.
  - destruct s; discriminate.
  - destruct s; [discriminate|]. right. exists m, e. split; [reflexivity|].
    destruct (Z.compare_spec e (-52)) as [-> | Hlt | Hgt]; try discriminate.
    + split; [clear; lia|]. change (2 ^ (- -52)) with 4503599627370496.
      rewrite Pos.compare_cont_spec in H1. cbn [Pos.switch_Eq] in H1.
      rewrite Pos2Z.inj_compare in H1.
      destruct (Z.compare_spec (Zpos m) 4503599627370496) as [Hm | Hm | Hm];
        try discriminate; clear - Hm; lia.
    + clear H0 H1. split; [clear - Hlt; lia|].
      unfold valid, valid_binary, bounded, canonical_mantissa in Hvalid.
      apply andb_true_iff in Hvalid as [Hcanon _].
      apply Z.eqb_eq in Hcanon. fold (F (Zpos (digits2_pos m) + e)) in Hcanon.
      rewrite F_eq in Hcanon.
      pose proof (digits2_pos_bounds m) as [_ Hhi].
      assert (2 ^ Zpos (digits2_pos m) <= 2 ^ (- e)) by (apply Z.pow_le_mono_r; lia).
      lia.
Qed.

(** The rounded product of a double of the unit interval and an integer
    [M] has its floor between 0 and [M]. *)
Lemma floor_mul_unit (p : spec_float) (M : Z) :
  inUnitInterval p = true -> 0 <= M < 2 ^ 53 ->
  exists i, floor (mul p (ofZ M)) = Int i /\ 0 <= i <= M.
Proof.
  intros Hp [HM0 HM].
  destruct (Z.eq_dec M 0) as [-> | HMne].
  - rewrite ofZ_0. exists 0. split; [|lia].
    destruct (inUnitInterval_cases p Hp) as [[s ->] | (m & e & -> & _)]; reflexivity.
  - destruct (ofZ_small M ltac:(lia)) as (my & ey & -> & Hey & Hmy & Hdy).
    destruct (inUnitInterval_cases p Hp) as [[s ->] | (mp & ep & -> & Hep & Hmp)].
    + exists 0. split; [reflexivity | lia].
    + unfold mul, SFmul. cbn [xorb].
      assert (Hp1 : 0 < 2 ^ (- ep)) by (apply Z.pow_pos_nonneg; lia).
      assert (Hp2 : 0 < 2 ^ (- ey)) by (apply Z.pow_pos_nonneg; lia).
      assert (Hprod : Zpos (mp * my) <= M * 2 ^ (- (ep + ey))).
      { replace (- (ep + ey)) with (- ep + - ey) by lia.
        rewrite Z.pow_add_r, Pos2Z.inj_mul, Hmy by lia. nia. }
      assert (Hdig : Zpos (digits2_pos (mp * my)) + (ep + ey) <= 53).
      { assert (Zpos (digits2_pos (mp * my)) <= 53 - ep); [|lia].
        apply digits2_pos_le; [lia|].
        pose proof (digits2_pos_bounds my) as [_ Hhi]. rewrite Hdy in Hhi.
        replace (53 - ep) with (- ep + 53) by lia.
        rewrite Z.pow_add_r, Pos2Z.inj_mul by lia. nia. }
      pose proof (binary_round_aux_upper false (mp * my) (ep + ey) M
                    ltac:(lia) HM0 Hprod ltac:(rewrite F_eq; lia)) as Hup.
      destruct (binary_round_aux _ _ _ _ _ _) as [s | s | | s mf ef]; try contradiction.
      * exists 0. split; [reflexivity | lia].
      * destruct Hup as [-> Hle]. eexists. split; [reflexivity|].
        split; [apply Z.shiftl_nonneg; lia | exact Hle].
Qed.

Lemma binary_round_aux_shift_exact (s : bool) (m x : positive) (e n : Z) :
  0 < n -> Zpos x = Zpos m * 2 ^ n ->
  Zpos (digits2_pos m) = 53 -> -1074 <= e <= emax - prec ->
  binary_round_aux prec emax s (Zpos x) (e - n) loc_Exact = S754_finite s m e.
Proof.
  intros Hn Hx Hd He.
  pose proof (digits2_pos_shift m x n ltac:(lia) Hx) as Hdx.
  assert (Hpn : 0 < 2 ^ n) by (apply Z.pow_pos_nonneg; lia).
  unfold binary_round_aux, shr_fexp. cbn [Zdigits2 shr_record_of_loc].
  fold (F (Zpos (digits2_pos x) + (e - n))).
  replace (F (Zpos (digits2_pos x) + (e - n)) - (e - n)) with n
    by (rewrite F_eq; unfold emax, prec in He; lia).
  pose proof (shr_exact_spec (Zpos x) (e - n) n ltac:(lia) Hn) as Hshr.
  destruct (shr _ (e - n) n) as [mrs1 e1] eqn:E1. cbn [fst snd] in Hshr.
  destruct Hshr as (-> & Hm1 & Hi1).
  replace (e - n + n) with e by lia.
  rewrite Hx, Z.div_mul in Hm1 by lia.
  rewrite Hx, Z.mod_mul in Hi1 by lia.
  pose proof (round_nearest_even_bounds mrs1) as [_ Hexact]. cbn zeta in Hexact.
  rewrite Hexact, Hm1.
  - cbn [Zdigits2]. fold (F (Zpos (digits2_pos m) + e)).
    rewrite shr_noshift by (rewrite F_eq; unfold emax, prec in He; lia).
    cbn [shr_m]. now replace (e <=? emax - prec) with true by lia.
  - destruct (inexact mrs1); [|reflexivity]. exfalso. now apply Hi1.
Qed.

(** Multiplying by 1.0 is exact. *)
Lemma mul_1_ofZ (M : Z) : 0 <= M < 2 ^ 53 -> mul (ofZ 1) (ofZ M) = ofZ M.
Proof.
  intros [HM0 HM]. rewrite ofZ_1.
  destruct (Z.eq_dec M 0) as [-> | HMne]; [reflexivity|].
  destruct (ofZ_small M ltac:(lia)) as (my & ey & -> & Hey & Hmy & Hdy).
  unfold mul, SFmul. cbn [xorb].
  replace (-52 + ey) with (ey - 52) by lia.
  apply binary_round_aux_shift_exact; try assumption.
  - lia.
  - rewrite Pos2Z.inj_mul. change (Zpos 4503599627370496) with (2 ^ 52). lia.
  - unfold emax, prec. lia.
Qed.

Lemma mul_0_ofZ (M : Z) : 0 <= M < 2 ^ 53 -> floor (mul (ofZ 0) (ofZ M)) = Int 0.
Proof.
  intros [HM0 HM]. rewrite ofZ_0.
  destruct (Z.eq_dec M 0) as [-> | HMne]; [reflexivity|].
  destruct (ofZ_small M ltac:(lia)) as (my & ey & -> & _). reflexivity.
Qed.

(** *** Quotients and minima are numbers *)

Lemma shr_1_nonneg (mrs : shr_record) : 0 <= shr_m mrs -> 0 <= shr_m (shr_1 mrs).
Proof.
  destruct mrs as [m r s]. cbn [shr_m]. intros Hm.
  destruct m as [|p|p]; [cbn; lia | | lia].
  destruct p; cbn; lia.
Qed.

Lemma iter_shr_1_nonneg (p : positive) :
  forall mrs, 0 <= shr_m mrs -> 0 <= shr_m (iter_pos shr_1 p mrs).
Proof.
  induction p as [p IH | p IH |]; intros mrs Hm; cbn [iter_pos].
  - apply IH, IH, shr_1_nonneg, Hm.
  - apply IH, IH, Hm.
  - apply shr_1_nonneg, Hm.
Qed.

Lemma shr_fexp_nonneg (m e : Z) (l : location) :
  0 <= m -> 0 <= shr_m (fst (shr_fexp prec emax m e l)).
Proof.
  intros Hm. unfold shr_fexp, shr.
  assert (H0 : 0 <= shr_m (shr_record_of_loc m l))
    by (destruct l as [|[]]; exact Hm).
  destruct (fexp prec emax (Zdigits2 m + e) - e); cbn [fst]; try exact H0.
  now apply iter_shr_1_nonneg.
Qed.

Lemma round_nearest_even_nonneg (m : Z) (l : location) :
  0 <= m -> 0 <= round_nearest_even m l.
Proof.
  intros Hm. destruct l as [|[]]; cbn; try destruct (Z.even m); lia.
Qed.

Lemma binary_round_aux_not_nan (s : bool) (m e : Z) (l : location) :
  0 <= m -> isNaN (binary_round_aux prec emax s m e l) = false.
Proof.
  intros Hm. unfold binary_round_aux.
  pose proof (shr_fexp_nonneg m e l Hm) as H1.
  destruct (shr_fexp prec emax m e l) as [mrs1 e1]. cbn [fst] in H1.
  pose proof (shr_fexp_nonneg
                (round_nearest_even (shr_m mrs1) (loc_of_shr_record mrs1)) e1
                loc_Exact (round_nearest_even_nonneg _ _ H1)) as H2.
  destruct (shr_fexp prec emax _ e1 loc_Exact) as [mrs2 e2]. cbn [fst] in H2.
  destruct (shr_m mrs2); [reflexivity | | lia].
  now destruct (e2 <=? emax - prec).
Qed.

Lemma ofZ_not_nan (z : Z) : isNaN (ofZ z) = false.
Proof.
  unfold ofZ, binary_normalize, binary_round.
  destruct z as [|p|p]; [reflexivity | |];
    destruct (shl_align _ _ _) as [mz ez];
    apply binary_round_aux_not_nan; lia.
Qed.

(** A quotient is NaN only for 0/0, for two infinities or for a NaN
    operand: never when the dividend is finite and not zero. *)
Lemma div_finite_not_nan (s : bool) (m : positive) (e : Z) (y : number) :
  isNaN y = false -> isNaN (div (S754_finite s m e) y) = false.
Proof.
  intros Hy. destruct y as [sy | sy | | sy my ey]; try reflexivity;
    [discriminate|].
  unfold div, SFdiv, SFdiv_core_binary.
  set (m' := match _ - _ - _ with Z0 => _ | Zpos _ => _ | Zneg _ => _ end).
  assert (Hm' : 0 <= m').
  { unfold m'. destruct (_ - _ - _); try lia.
    apply Z.shiftl_nonneg. lia. }
  pose proof (Z_div_mod m' (Zpos my) ltac:(lia)) as Hdiv.
  destruct (Z.div_eucl m' (Zpos my)) as [q r].
  apply binary_round_aux_not_nan. nia.
Qed.

Lemma SFcompare_defined (x y : number) :
  isNaN x = false -> isNaN y = false -> exists c, SFcompare x y = Some c.
Proof.
  destruct x, y; try discriminate; intros _ _; cbn; eauto.
Qed.

Lemma min2_cases (x y : number) :
  isNaN x = false -> isNaN y = false ->
  isNaN (min2 x y) = false /\ (min2 x y = x \/ min2 x y = y).
Proof.
  intros Hx Hy. unfold min2.
  destruct (SFcompare_defined x y Hx Hy) as [[] ->]; auto.
  destruct y as [[|] | | |]; auto.
Qed.

(** The minimum with a number that is not -0 is at most that number. *)
Lemma min2_le_r (x y : number) :
  isNaN x = false -> isNaN y = false -> SFleb y y = true ->
  SFleb (min2 x y) y = true.
Proof.
  intros Hx Hy Hyy. unfold min2.
  destruct (SFcompare_defined x y Hx Hy) as [c Hc]. rewrite Hc.
  destruct c.
  - destruct y as [[|] | | |]; try exact Hyy; unfold SFleb; now rewrite Hc.
  - unfold SFleb. now rewrite Hc.
  - exact Hyy.
Qed.

Lemma isOne_eq (x : number) : isOne x = true -> x = ofZ 1.
Proof.
  rewrite ofZ_1. destruct x as [| | | [|] m e]; try discriminate.
  cbn [isOne]. intros H. apply andb_true_iff in H as [Hm He].
  apply Pos.eqb_eq in Hm. apply Z.eqb_eq in He. now subst.
Qed.

Lemma oneOrMore_not_nan (x : number) : oneOrMore x = true -> isNaN x = false.
Proof. destruct x; try reflexivity. discriminate. Qed.

Lemma min2_oneOrMore (x y : number) :
  oneOrMore x = true -> oneOrMore y = true -> oneOrMore (min2 x y) = true.
Proof.
  intros Hx Hy.
  destruct (min2_cases x y (oneOrMore_not_nan x Hx) (oneOrMore_not_nan y Hy))
    as [_ [-> | ->]]; assumption.
Qed.

Lemma min2_one (x : number) : oneOrMore x = true -> min2 x (ofZ 1) = ofZ 1.
Proof.
  unfold oneOrMore, min2. intros Hx.
  destruct (SFcompare x (ofZ 1)) as [[]|]; try discriminate.
  - rewrite ofZ_1. cbn iota. rewrite <- ofZ_1. now apply isOne_eq.
  - reflexivity.
Qed.

(** *** Indexing *)

Lemma item_of_nat {A : Type} (items : list A) (i : nat) :
  item items (Int (Z.of_nat i)) = nth_error items i.
Proof.
  cbn [item]. destruct (Z.ltb_spec (Z.of_nat i) 0); [lia|].
  now rewrite Nat2Z.id.
Qed.

Lemma item_Int {A : Type} (items : list A) (k : Z) :
  0 <= k -> item items (Int k) = nth_error items (Z.to_nat k).
Proof.
  intros Hk. cbn [item]. destruct (Z.ltb_spec k 0); [lia | reflexivity].
Qed.

End NumberFacts.

(* ----------------------------------------------------------------- *)
(** ** The playback controller *)

Module FrameControllerFacts.

Import Number FrameController.

Ltac unfold_methods :=
  unfold cleanup, initialize, stop, togglePlay, timerTick, goToFirstFrame,
    goToLastFrame, skipFrames, previousFrame, nextFrame, setFrameRate,
    setLooping, play, pause, startAnimation, stopAnimation,
    setFrameFromProgress, setFrame, notifyFrameChange, andThen, update,
    skip in *.

Ltac case_if :=
  match goal with
  | |- context [if ?b then _ else _] => destruct b eqn:?
  | H : context [if ?b then _ else _] |- _ => destruct b eqn:?
  end.

Ltac run := unfold_methods; cbn in *; repeat (case_if; cbn in *).

Lemma fst_andThen (p q : method) (c : state) :
  fst ((p ;; q) c) = fst (q (fst (p c))).
Proof.
  unfold andThen. destruct (p c) as [c1 e1]. cbn [fst].
  now destruct (q c1).
Qed.

Lemma setFrame_in_range (i : Z) (c : state) :
  0 <= i < totalFrames c ->
  setFrame (Int i) c =
    (with_currentFrame (Int i) c,
     [OnFrameChange (Int i) (getFrameDataCallback c (Int i))]).
Proof.
  intros Hi. unfold setFrame. cbn [ltZ geZ].
  replace ((i <? 0) || (i >=? totalFrames c)) with false by lia.
  reflexivity.
Qed.


Lemma setFrame_NaN (c : state) :
  setFrame NaN c =
    (with_currentFrame NaN c, [OnFrameChange NaN (getFrameDataCallback c NaN)]).
Proof. reflexivity. Qed.

Lemma pause_isPlaying (c : state) : isPlaying (fst (pause c)) = false.
Proof. run; auto using negb_true_iff. now apply negb_true_iff. Qed.

Lemma pause_keeps_cursor (c : state) :
  currentFrame (fst (pause c)) = currentFrame c /\
  totalFrames (fst (pause c)) = totalFrames c /\
  frameChanges (snd (pause c)) = [].
Proof. run; auto. Qed.

(** C4. [nextFrame] is a no-op on an empty controller; on the last frame it
    keeps the frame and leaves the controller paused when looping is
    disabled, and wraps to frame 0 when looping is enabled; before the last
    frame it advances by one. *)
Theorem nextFrame_spec (c : state) :
  (totalFrames c = 0 -> nextFrame c = (c, [])) /\
  (1 <= totalFrames c -> currentFrame c = Int (totalFrames c - 1) ->
   isLooping c = false ->
   currentFrame (fst (nextFrame c)) = currentFrame c /\
   isPlaying (fst (nextFrame c)) = false) /\
  (1 <= totalFrames c -> currentFrame c = Int (totalFrames c - 1) ->
   isLooping c = true ->
   currentFrame (fst (nextFrame c)) = Int 0) /\
  (forall k,
     1 <= totalFrames c -> currentFrame c = Int k ->
     0 <= k < totalFrames c - 1 ->
     currentFrame (fst (nextFrame c)) = Int (k + 1)).
Proof.
  split; [| split; [| split]].
  - intros H0. unfold nextFrame. rewrite H0. reflexivity.
  - intros Hn Hlast Hloop. unfold nextFrame. rewrite Hlast. cbn [plusZ geZ].
    replace (totalFrames c =? 0) with false by lia.
    replace (totalFrames c - 1 + 1 >=? totalFrames c) with true by lia.
    rewrite Hloop, <- Hlast. split.
    + apply pause_keeps_cursor.
    + apply pause_isPlaying.
  - intros Hn Hlast Hloop. unfold nextFrame. rewrite Hlast. cbn [plusZ geZ].
    replace (totalFrames c =? 0) with false by lia.
    replace (totalFrames c - 1 + 1 >=? totalFrames c) with true by lia.
    rewrite Hloop, setFrame_in_range by lia. reflexivity.
  - intros k Hn Hk Hcur. unfold nextFrame. rewrite Hk. cbn [plusZ geZ].
    replace (totalFrames c =? 0) with false by lia.
    replace (k + 1 >=? totalFrames c) with false by lia.
    rewrite setFrame_in_range by lia. reflexivity.
Qed.

Lemma nextFrame_witness :
  currentFrame (fst (nextFrame (with_isLooping false (onFrame 3 2)))) = Int 2 /\
  isPlaying (fst (nextFrame (with_isLooping false (onFrame 3 2)))) = false.
Proof.
  apply (proj1 (proj2 (nextFrame_spec (with_isLooping false (onFrame 3 2)))));
    cbn; [lia | reflexivity | reflexivity].
Defined.

(** *** The range of the cursor *)



Ltac in_range k :=
  first
    [ exists k; repeat split; first [assumption | reflexivity | lia]
    | eexists; repeat split; first [reflexivity | lia] ].




Lemma setFrame_cursorValid (i : integral) (c : state) :
  cursorValid c -> cursorValid (fst (setFrame i c)).
Proof.
  unfold cursorValid, setFrame. intros Hc.
  destruct i as [j | | |]; cbn [ltZ geZ orb skip fst]; try exact Hc.
  - destruct ((j <? 0) || (j >=? totalFrames c)) eqn:E; [exact Hc|].
    right. exists j. cbn. split; [reflexivity | lia].
  - left. reflexivity.
Qed.

Lemma pause_cursorValid (c : state) :
  cursorValid c -> cursorValid (fst (pause c)).
Proof.
  unfold cursorValid. intros Hc.
  destruct (pause_keeps_cursor c) as (-> & -> & _). exact Hc.
Qed.

Lemma nextFrame_cursorValid (c : state) :
  cursorValid c -> cursorValid (fst (nextFrame c)).
Proof.
  intros Hc. unfold nextFrame.
  destruct (totalFrames c =? 0); [exact Hc|]. cbn zeta.
  destruct (geZ _ _).
  - destruct (isLooping c).
    + now apply setFrame_cursorValid.
    + now apply pause_cursorValid.
  - now apply setFrame_cursorValid.
Qed.

Lemma exec_cursorValid (op : Op) (c : state) :
  cursorValid c -> cursorValid (fst (exec op c)).
Proof.
  intros Hc. destruct op; cbn [exec].
  - right. exists 0. split; [|now left].
    unfold initialize. rewrite !fst_andThen. reflexivity.
  - now apply setFrame_cursorValid.
  - now apply setFrame_cursorValid.
  - now apply nextFrame_cursorValid.
  - unfold previousFrame.
    destruct (totalFrames c =? 0); [exact Hc|].
    now apply setFrame_cursorValid.
  - unfold cursorValid in *. run; exact Hc.
  - now apply pause_cursorValid.
  - unfold stop. rewrite fst_andThen.
    now apply setFrame_cursorValid, pause_cursorValid.
  - unfold togglePlay. destruct (isPlaying c) eqn:E.
    + now apply pause_cursorValid.
    + unfold cursorValid in *. run; exact Hc.
  - unfold cursorValid in *. destruct fps; run; exact Hc.
  - exact Hc.
  - now apply setFrame_cursorValid.
  - now apply setFrame_cursorValid.
  - now apply setFrame_cursorValid.
  - right. exists 0. split; [|now left].
    unfold cleanup. rewrite !fst_andThen. reflexivity.
  - destruct (animationTimer c); [|exact Hc].
    unfold timerTick. destruct (negb (isPlaying c)); [exact Hc|].
    now apply nextFrame_cursorValid.
Qed.

Lemma Reachable_cursorValid (c : state) : Reachable c -> cursorValid c.
Proof.
  induction 1 as [callback | op c _ IH].
  - right. exists 0. split; [reflexivity | now left].
  - now apply exec_cursorValid.
Qed.

Lemma onFrame_Reachable (n k : Z) : 0 <= k < n -> Reachable (onFrame n k).
Proof.
  intros Hk.
  assert (Hset : onFrame n k
                 = fst (exec (SetFrame (Int k))
                          (fst (exec (Initialize n) (new (fun _ => None)))))).
  { cbn [exec]. unfold onFrame.
    rewrite setFrame_in_range by (cbn; lia). reflexivity. }
  rewrite Hset. apply Reachable_exec, Reachable_exec, Reachable_new.
Qed.




(** *** Scrubbing by progress *)

Lemma setFrameFromProgress_unit (c : state) (p : number) :
  1 <= totalFrames c <= 2 ^ 53 -> inUnitInterval p = true ->
  exists i,
    floor (mul p (ofZ (totalFrames c - 1))) = Int i /\
    0 <= i <= totalFrames c - 1 /\
    setFrameFromProgress p c =
      (with_currentFrame (Int i) c,
       [OnFrameChange (Int i) (getFrameDataCallback c (Int i))]).
Proof.
  intros Hn Hp.
  destruct (NumberFacts.floor_mul_unit p (totalFrames c - 1) Hp ltac:(lia))
    as (i & Hfloor & Hi).
  exists i. split; [exact Hfloor|]. split; [exact Hi|].
  unfold setFrameFromProgress. cbn zeta.
  rewrite Z.max_r, Hfloor by lia.
  now rewrite setFrame_in_range by lia.
Qed.

(** C7. For a progress [p] of [0,1] and at least one frame,
    [setFrameFromProgress p] puts the cursor on the floor of the product of
    [p] and [totalFrames - 1]; progress 0.0 gives frame 0 and progress 1.0
    gives the last frame. *)
Theorem setFrameFromProgress_spec (c : state) (p : number) :
  1 <= totalFrames c <= 2 ^ 53 -> inUnitInterval p = true ->
  exists i,
    currentFrame (fst (setFrameFromProgress p c)) = Int i /\
    floor (mul p (ofZ (totalFrames c - 1))) = Int i /\
    0 <= i <= totalFrames c - 1 /\
    (p = ofZ 0 -> i = 0) /\
    (p = ofZ 1 -> i = totalFrames c - 1).
Proof.
  intros Hn Hp.
  destruct (setFrameFromProgress_unit c p Hn Hp) as (i & Hfloor & Hi & Hset).
  exists i. rewrite Hset. cbn [fst currentFrame with_currentFrame].
  split; [reflexivity|]. split; [exact Hfloor|]. split; [exact Hi|]. split.
  - intros ->.
    rewrite NumberFacts.mul_0_ofZ in Hfloor by lia. congruence.
  - intros ->.
    rewrite NumberFacts.mul_1_ofZ, NumberFacts.floor_ofZ in Hfloor by lia.
    congruence.
Qed.

Lemma setFrameFromProgress_witness :
  exists i,
    currentFrame (fst (setFrameFromProgress (div (ofZ 1) (ofZ 2))
                         (onFrame 11 0))) = Int i /\
    floor (mul (div (ofZ 1) (ofZ 2)) (ofZ (totalFrames (onFrame 11 0) - 1)))
      = Int i /\
    0 <= i <= totalFrames (onFrame 11 0) - 1 /\
    (div (ofZ 1) (ofZ 2) = ofZ 0 -> i = 0) /\
    (div (ofZ 1) (ofZ 2) = ofZ 1 -> i = totalFrames (onFrame 11 0) - 1).
Proof.
  apply (setFrameFromProgress_spec (onFrame 11 0) (div (ofZ 1) (ofZ 2))).
  - cbn. lia.
  - vm_compute. reflexivity.
Defined.

(** *** Reading the progress and scrubbing back to it *)

Lemma in_range (lo z : Z) (len : nat) :
  lo <= z < lo + Z.of_nat len -> In z (range lo len).
Proof.
  intros Hz. unfold range. apply in_map_iff.
  exists (Z.to_nat (z - lo)). split; [lia|].
  apply in_seq. lia.
Qed.

Lemma roundTrip_upto_22 :
  forallb (fun n => forallb (roundTrip n) (range 0 (Z.to_nat n))) (range 1 22)
  = true.
Proof. vm_compute. reflexivity. Qed.

Lemma roundTrip_small (n k : Z) :
  1 <= n <= 22 -> 0 <= k <= n - 1 -> roundTrip n k = true.
Proof.
  intros Hn Hk.
  pose proof roundTrip_upto_22 as Hall.
  rewrite forallb_forall in Hall.
  specialize (Hall n (in_range 1 n 22 ltac:(lia))).
  rewrite forallb_forall in Hall.
  apply Hall, in_range. lia.
Qed.

Lemma roundTrip_setFrameFromProgress (c : state) (k : Z) :
  currentFrame c = Int k ->
  0 <= k < totalFrames c ->
  roundTrip (totalFrames c) k = true ->
  setFrameFromProgress (getProgress c) c = (c, [notification c]).
Proof.
  intros Hcur Hk Hrt. unfold roundTrip in Hrt.
  unfold setFrameFromProgress, getProgress, notification. cbn zeta.
  rewrite Hcur. cbn [toNumber].
  destruct (floor _) as [i | | |]; try discriminate.
  apply Z.eqb_eq in Hrt. subst i.
  rewrite setFrame_in_range by lia.
  destruct c; cbn in *; subst; reflexivity.
Qed.

(** At 23 frames the quotient 15/22 times 22 is rounded below 15. *)
Lemma progress_roundtrip_counterexample :
  cursorInRange (onFrame 23 15) /\
  getProgress (onFrame 23 15) = div (ofZ 15) (ofZ 22) /\
  currentFrame (fst (setFrameFromProgress (getProgress (onFrame 23 15))
                       (onFrame 23 15))) = Int 14 /\
  currentFrame (fst (setFrameFromProgress (getProgress (onFrame 23 15))
                       (onFrame 23 15)))
    <> currentFrame (onFrame 23 15).
Proof.
  split; [exists 15; cbn; repeat split; lia|].
  split; [reflexivity|].
  assert (H : currentFrame
                (fst (setFrameFromProgress (getProgress (onFrame 23 15))
                        (onFrame 23 15))) = Int 14)
    by (vm_compute; reflexivity).
  split; [exact H|]. rewrite H. discriminate.
Qed.

(** C10 (amended). [getProgress] is 0 with at most one frame and the double
    quotient of [currentFrame] by [totalFrames - 1] otherwise; scrubbing
    back to it leaves the cursor where it is on frame 0, and on every frame
    of a sequence of at most 22 frames. *)
Theorem getProgress_roundtrip (c : state) (k : Z) :
  currentFrame c = Int k ->
  0 <= k <= totalFrames c - 1 ->
  (totalFrames c <= 1 -> getProgress c = ofZ 0) /\
  (1 < totalFrames c ->
   getProgress c = div (ofZ k) (ofZ (totalFrames c - 1))) /\
  (totalFrames c <= 22 \/ (k = 0 /\ totalFrames c <= 2 ^ 53) ->
   currentFrame (fst (setFrameFromProgress (getProgress c) c)) = Int k).
Proof.
  intros Hcur Hk. split; [|split].
  - intros Hn. unfold getProgress. now replace (totalFrames c <=? 1) with true by lia.
  - intros Hn. unfold getProgress. rewrite Hcur.
    now replace (totalFrames c <=? 1) with false by lia.
  - intros [Hn | [H0 Hn]].
    + rewrite (roundTrip_setFrameFromProgress c k Hcur) by
        (try lia; apply roundTrip_small; lia).
      exact Hcur.
    + assert (Hzero : exists s, getProgress c = S754_zero s).
      { unfold getProgress. destruct (totalFrames c <=? 1) eqn:E.
        - now exists false.
        - rewrite Hcur, H0. cbn [toNumber].
          destruct (NumberFacts.ofZ_small (totalFrames c - 1) ltac:(lia))
            as (my & ey & -> & _).
          now exists false. }
      destruct Hzero as [s Hs]. rewrite Hs.
      assert (Hin : inUnitInterval (S754_zero s) = true) by reflexivity.
      destruct (setFrameFromProgress_unit c (S754_zero s) ltac:(lia) Hin)
        as (i & Hfloor & _ & Hset).
      rewrite Hset. cbn [fst currentFrame with_currentFrame].
      assert (Hmul : floor (mul (S754_zero s) (ofZ (totalFrames c - 1))) = Int 0).
      { destruct (Z.eq_dec (totalFrames c - 1) 0) as [-> | Hne]; [reflexivity|].
        destruct (NumberFacts.ofZ_small (totalFrames c - 1) ltac:(lia))
          as (my & ey & -> & _).
        reflexivity. }
      congruence.
Qed.

Lemma getProgress_roundtrip_witness :
  currentFrame
    (fst (setFrameFromProgress (getProgress (onFrame 22 7)) (onFrame 22 7)))
  = Int 7.
Proof.
  apply (proj2 (proj2 (getProgress_roundtrip (onFrame 22 7) 7 eq_refl
                         ltac:(cbn; lia)))).
  left. cbn. lia.
Defined.

(** *** Frame-change notifications *)




(** *** The timer and the play state *)

#[local] Arguments Number.div : simpl never.
#[local] Arguments Number.ofZ : simpl never.
#[local] Arguments Number.toNumber : simpl never.

Lemma method_timerConsistent (c : state) :
  timerConsistent c ->
  (forall n, timerConsistent (fst (initialize n c))) /\
  (forall i, timerConsistent (fst (setFrame i c))) /\
  timerConsistent (fst (nextFrame c)) /\
  timerConsistent (fst (previousFrame c)) /\
  timerConsistent (fst (play c)) /\
  timerConsistent (fst (pause c)) /\
  timerConsistent (fst (stop c)) /\
  timerConsistent (fst (togglePlay c)) /\
  (forall fps, timerConsistent (fst (setFrameRate fps c))) /\
  (forall b, timerConsistent (fst (setLooping b c))) /\
  timerConsistent (fst (goToFirstFrame c)) /\
  timerConsistent (fst (goToLastFrame c)) /\
  (forall n, timerConsistent (fst (skipFrames n c))) /\
  timerConsistent (fst (cleanup c)) /\
  timerConsistent (fst (timerTick c)).
Proof.
  intros Hc.
  assert (Hstopped : isPlaying c = false -> animationTimer c = None).
  { destruct Hc as (Hplay & _). intros Hp.
    destruct (animationTimer c) eqn:E; [|reflexivity].
    assert (isPlaying c = true) by (apply Hplay; discriminate). congruence. }
  repeat match goal with |- _ /\ _ => split end; intros;
    try match goal with
        | fps : integral |- context [setFrameRate ?fps _] =>
            destruct fps as [j | | |]
        end;
    unfold timerConsistent in *;
    destruct Hc as (Hplay & Hperiod & Hframes & Hrate); run;
    rewrite ?negb_true_iff, ?negb_false_iff, ?orb_true_iff, ?orb_false_iff in *;
    (split; [| split; [| split]]);
    try assumption; try lia;
    try (intros period [= <-]; reflexivity);
    try (intros period [=]);
    try (split; intros; congruence);
    try (split; intros; [discriminate | congruence]);
    try (intros; congruence);
    try (intros; discriminate);
    try (intros; lia);
    try (left; reflexivity);
    try (right; eexists; split; [reflexivity | lia]);
    try (intros;
         assert (animationTimer c = None)
           by (apply Hstopped; first [reflexivity | assumption]);
         congruence).
Qed.

Lemma exec_timerConsistent (op : Op) (c : state) :
  timerConsistent c -> timerConsistent (fst (exec op c)).
Proof.
  intros Hc.
  pose proof (method_timerConsistent c Hc) as
    (Hinit & Hset & Hnext & Hprev & Hplay & Hpause & Hstop & Htoggle & Hrate
     & Hloop & Hfirst & Hlast & Hskip & Hclean & Htick).
  destruct op; cbn [exec]; auto.
  - unfold setFrameFromProgress. cbn zeta. auto.
  - destruct (animationTimer c); auto.
Qed.

Lemma Reachable_timerConsistent (c : state) :
  Reachable c -> timerConsistent c.
Proof.
  induction 1 as [callback | op c _ IH].
  - unfold timerConsistent; cbn. repeat split; try lia; try discriminate.
    + intros H. now contradiction H.
    + right. exists 12. split; [reflexivity | lia].
  - now apply exec_timerConsistent.
Qed.

(** X1. In every state a controller can reach, whatever indices, rates and
    skip counts the operations were given (NaN and the infinities among
    them; the frame counts given to [initialize] are integers), an interval
    is installed exactly while it is playing, its period is
    1000 / frameRate, playing implies at least two frames, and the frame
    rate is an integer within 1 and 60 or NaN. *)
Theorem reachable_timerConsistent (c : state) :
  Reachable c ->
  (isPlaying c = true <-> animationTimer c <> None) /\
  (forall period,
     animationTimer c = Some period ->
     period = div (ofZ 1000) (toNumber (frameRate c))) /\
  (isPlaying c = true -> 2 <= totalFrames c) /\
  (frameRate c = NaN \/ exists fps, frameRate c = Int fps /\ 1 <= fps <= 60).
Proof. exact (Reachable_timerConsistent c). Qed.

Lemma reachable_timerConsistent_witness :
  timerConsistent (fst (exec (SetFrameRate NaN) (fst (exec Play (onFrame 5 2))))).
Proof.
  apply (reachable_timerConsistent
           (fst (exec (SetFrameRate NaN) (fst (exec Play (onFrame 5 2)))))).
  apply Reachable_exec, Reachable_exec, onFrame_Reachable. lia.
Defined.

(** *** Stepping and playing *)

Lemma with_currentFrame_same (c : state) :
  with_currentFrame (currentFrame c) c = c.
Proof. now destruct c. Qed.

Lemma nextFrame_advance (c : state) (k : Z) :
  currentFrame c = Int k ->
  0 <= k < totalFrames c - 1 ->
  nextFrame c =
    (with_currentFrame (Int (k + 1)) c,
     [OnFrameChange (Int (k + 1)) (getFrameDataCallback c (Int (k + 1)))]).
Proof.
  intros Hk H. unfold nextFrame. rewrite Hk. cbn [plusZ geZ].
  replace (totalFrames c =? 0) with false by lia.
  replace (k + 1 >=? totalFrames c) with false by lia.
  now rewrite setFrame_in_range by lia.
Qed.

Lemma nextFrame_wrap (c : state) :
  currentFrame c = Int (totalFrames c - 1) -> 1 <= totalFrames c ->
  isLooping c = true ->
  nextFrame c =
    (with_currentFrame (Int 0) c,
     [OnFrameChange (Int 0) (getFrameDataCallback c (Int 0))]).
Proof.
  intros Hlast Hn Hloop. unfold nextFrame. rewrite Hlast. cbn [plusZ geZ].
  replace (totalFrames c =? 0) with false by lia.
  replace (totalFrames c - 1 + 1 >=? totalFrames c) with true by lia.
  now rewrite Hloop, setFrame_in_range by lia.
Qed.

Lemma nextFrame_looping (c : state) (k : Z) :
  isLooping c = true -> currentFrame c = Int k -> 0 <= k < totalFrames c ->
  fst (nextFrame c) =
    with_currentFrame (Int ((k + 1) mod totalFrames c)) c /\
  List.length (snd (nextFrame c)) = 1%nat.
Proof.
  intros Hloop Hk Hc.
  destruct (Z.eq_dec k (totalFrames c - 1)) as [Hlast | Hnot].
  - rewrite nextFrame_wrap by (try assumption; try lia; congruence).
    cbn [fst snd List.length].
    replace (k + 1) with (totalFrames c) by lia.
    now rewrite Z.mod_same by lia.
  - rewrite (nextFrame_advance c k) by (try assumption; lia).
    cbn [fst snd List.length].
    now rewrite Z.mod_small by lia.
Qed.

(** X2. With looping enabled, [k] steps forward from frame [i] of [n] put
    the cursor on frame [(i + k) mod n], each step firing one notification
    and changing nothing else; [n] steps come back to the frame they
    started from. *)
Theorem looping_steps_cycle (c : state) (i : Z) (k : nat) :
  isLooping c = true -> currentFrame c = Int i -> 0 <= i < totalFrames c ->
  fst (times k nextFrame c) =
    with_currentFrame (Int ((i + Z.of_nat k) mod totalFrames c)) c /\
  List.length (snd (times k nextFrame c)) = k /\
  currentFrame (fst (times (Z.to_nat (totalFrames c)) nextFrame c))
    = currentFrame c.
Proof.
  intros Hloop Hi Hc.
  assert (Hsteps : forall k c i,
    isLooping c = true -> currentFrame c = Int i -> 0 <= i < totalFrames c ->
    fst (times k nextFrame c) =
      with_currentFrame (Int ((i + Z.of_nat k) mod totalFrames c)) c /\
    List.length (snd (times k nextFrame c)) = k).
  { clear. induction k as [|k IH]; intros c i Hloop Hi Hc.
    - cbn [times skip fst snd List.length Z.of_nat].
      rewrite Z.add_0_r, Z.mod_small, <- Hi by lia.
      now rewrite with_currentFrame_same.
    - cbn [times]. unfold andThen.
      destruct (nextFrame_looping c i Hloop Hi Hc) as [Hst Hev].
      destruct (nextFrame c) as [c1 e1]. cbn [fst snd] in Hst, Hev. subst c1.
      set (c1 := with_currentFrame (Int ((i + 1) mod totalFrames c)) c).
      assert (Hc1 : 0 <= (i + 1) mod totalFrames c < totalFrames c1).
      { unfold c1. cbn. apply Z.mod_pos_bound. lia. }
      destruct (IH c1 _ Hloop eq_refl Hc1) as [Hst' Hev'].
      destruct (times k nextFrame c1) as [c2 e2]. cbn [fst snd] in *.
      split.
      + rewrite Hst'. unfold c1. cbn [currentFrame totalFrames with_currentFrame].
        unfold with_currentFrame. cbn. do 2 f_equal.
        rewrite Zplus_mod_idemp_l. f_equal. lia.
      + rewrite length_app. lia. }
  destruct (Hsteps k c i Hloop Hi Hc) as [Hst Hev].
  split; [exact Hst|]. split; [exact Hev|].
  destruct (Hsteps (Z.to_nat (totalFrames c)) c i Hloop Hi Hc) as [Hst' _].
  rewrite Hst', Hi. cbn [currentFrame with_currentFrame].
  rewrite Z2Nat.id by lia. f_equal.
  replace (i + totalFrames c) with (i + 1 * totalFrames c) by lia.
  rewrite Z.mod_add by lia. apply Z.mod_small. lia.
Qed.

Lemma looping_steps_cycle_witness :
  currentFrame (fst (times 7 nextFrame (onFrame 5 3))) = Int 0.
Proof.
  rewrite (proj1 (looping_steps_cycle (onFrame 5 3) 3 7 eq_refl eq_refl
                    ltac:(cbn; lia))).
  reflexivity.
Defined.







(** X4. Stepping back undoes stepping forward, unless the step forward was
    refused on the last frame with looping disabled; with looping enabled,
    stepping forward undoes stepping back. *)
Theorem previousFrame_nextFrame (c : state) (i : Z) :
  currentFrame c = Int i -> 0 <= i < totalFrames c ->
  (isLooping c = true \/ i < totalFrames c - 1 ->
   currentFrame (fst ((nextFrame ;; previousFrame) c)) = currentFrame c) /\
  (isLooping c = true ->
   currentFrame (fst ((previousFrame ;; nextFrame) c)) = currentFrame c).
Proof.
  intros Hi Hc. split.
  - intros Hok. unfold andThen.
    destruct (Z.eq_dec i (totalFrames c - 1)) as [Hlast | Hnot].
    + destruct Hok as [Hloop | Hlt]; [|lia].
      rewrite nextFrame_wrap by (try assumption; try lia; congruence).
      unfold previousFrame. cbn [totalFrames currentFrame with_currentFrame].
      replace (totalFrames c =? 0) with false by lia. cbn [eqZ Z.eqb].
      rewrite setFrame_in_range by (cbn; lia). cbn. congruence.
    + rewrite (nextFrame_advance c i) by (try assumption; lia).
      unfold previousFrame. cbn [totalFrames currentFrame with_currentFrame].
      replace (totalFrames c =? 0) with false by lia. cbn [eqZ plusZ].
      replace (i + 1 =? 0) with false by lia.
      rewrite setFrame_in_range by (cbn; lia). cbn.
      rewrite Hi. f_equal. lia.
  - intros Hloop. unfold andThen, previousFrame.
    replace (totalFrames c =? 0) with false by lia.
    rewrite Hi. cbn [eqZ plusZ].
    destruct (i =? 0) eqn:E0.
    + rewrite setFrame_in_range by lia.
      rewrite nextFrame_wrap by (cbn; try assumption; try lia; reflexivity).
      cbn. f_equal. lia.
    + rewrite setFrame_in_range by lia.
      rewrite (nextFrame_advance _ (i + -1)) by (cbn; try reflexivity; lia).
      cbn. f_equal. lia.
Qed.

Lemma previousFrame_nextFrame_witness :
  currentFrame (fst ((nextFrame ;; previousFrame) (onFrame 5 4))) = Int 4 /\
  currentFrame (fst ((previousFrame ;; nextFrame) (onFrame 5 0))) = Int 0.
Proof.
  split.
  - apply (proj1 (previousFrame_nextFrame (onFrame 5 4) 4 eq_refl
                    ltac:(cbn; lia))).
    left. reflexivity.
  - apply (proj2 (previousFrame_nextFrame (onFrame 5 0) 0 eq_refl
                    ltac:(cbn; lia))).
    reflexivity.
Defined.

Lemma pause_state (c : state) :
  (isPlaying c = true <-> animationTimer c <> None) ->
  fst (pause c) = with_animationTimer None (with_isPlaying false c).
Proof.
  intros Hplay. unfold pause. destruct (isPlaying c) eqn:Ep; cbn [negb].
  - reflexivity.
  - destruct (animationTimer c) eqn:Et.
    + assert (false = true) by (apply Hplay; discriminate). discriminate.
    + destruct c. cbn in *. subst. reflexivity.
Qed.

Lemma stop_state (c : state) :
  (isPlaying c = true <-> animationTimer c <> None) ->
  fst (stop c) =
    with_currentFrame
      (if 1 <=? totalFrames c then Int 0 else currentFrame c)
      (with_animationTimer None (with_isPlaying false c)).
Proof.
  intros Hplay. unfold stop. rewrite fst_andThen, (pause_state c Hplay).
  unfold setFrame. cbn [totalFrames with_animationTimer with_isPlaying ltZ geZ].
  destruct (1 <=? totalFrames c) eqn:E.
  - replace ((0 <? 0) || (0 >=? totalFrames c)) with false by lia.
    reflexivity.
  - replace ((0 <? 0) || (0 >=? totalFrames c)) with true by lia.
    cbn [skip fst]. symmetry.
    exact (with_currentFrame_same
             (with_animationTimer None (with_isPlaying false c))).
Qed.

(** A scrub on an empty controller leaves the cursor on NaN, and [stop]
    does not bring it back to frame 0. *)
Lemma stop_counterexample :
  Reachable (fst (exec (SetFrame NaN) (new (fun _ => None)))) /\
  currentFrame (fst (stop (fst (exec (SetFrame NaN) (new (fun _ => None))))))
    = NaN.
Proof.
  split; [apply Reachable_exec, Reachable_new | reflexivity].
Qed.

(** X5. From any reachable state, [stop] leaves the controller not playing,
    without an interval and with the same frames; it leaves it on frame 0
    when there is at least one frame, and keeps the cursor, which is 0 or
    NaN, when there is none.  [cleanup] leaves the controller as it was
    created, except for the looping flag, which it keeps. *)
Theorem stop_and_cleanup (c : state) :
  Reachable c ->
  (1 <= totalFrames c -> currentFrame (fst (stop c)) = Int 0) /\
  (totalFrames c <= 0 ->
   currentFrame (fst (stop c)) = currentFrame c /\
   (currentFrame c = Int 0 \/ currentFrame c = NaN)) /\
  isPlaying (fst (stop c)) = false /\
  animationTimer (fst (stop c)) = None /\
  totalFrames (fst (stop c)) = totalFrames c /\
  fst (cleanup c) =
    with_isLooping (isLooping c) (new (getFrameDataCallback c)).
Proof.
  intros Hreach.
  pose proof (Reachable_cursorValid c Hreach) as Hvalid.
  pose proof (Reachable_timerConsistent c Hreach) as (Hplay & _).
  pose proof (stop_state c Hplay) as Hstop.
  rewrite Hstop. cbn [currentFrame isPlaying animationTimer totalFrames
                      with_currentFrame].
  repeat match goal with |- _ /\ _ => split end; try reflexivity.
  - intros Hn. now replace (1 <=? totalFrames c) with true by lia.
  - intros Hn. replace (1 <=? totalFrames c) with false by lia.
    split; [reflexivity|].
    destruct Hvalid as [Hnan | (k & Hk & Hrange)]; [now right|].
    left. rewrite Hk. f_equal. lia.
  - unfold cleanup. rewrite !fst_andThen, Hstop. reflexivity.
Qed.

Lemma stop_and_cleanup_witness :
  currentFrame
    (fst (stop (fst (exec Play (fst (exec (SetLooping false) (onFrame 5 2)))))))
  = Int 0.
Proof.
  refine (proj1 (stop_and_cleanup
                   (fst (exec Play (fst (exec (SetLooping false)
                                           (onFrame 5 2))))) _) _).
  - apply Reachable_exec, Reachable_exec, onFrame_Reachable. lia.
  - cbn. lia.
Defined.

(** *** Jumping and toggling *)

Lemma fst_skipFrames (count i : Z) (c : state) :
  currentFrame c = Int i ->
  1 <= totalFrames c ->
  skipFrames (Int count) c =
    setFrame (Int (Z.max 0 (Z.min (totalFrames c - 1) (i + count)))) c /\
  fst (skipFrames (Int count) c) =
    with_currentFrame
      (Int (Z.max 0 (Z.min (totalFrames c - 1) (i + count)))) c.
Proof.
  intros Hi Hn. unfold skipFrames. rewrite Hi. cbn [plus plusZ minZ maxZ].
  replace (count + i) with (i + count) by lia.
  split; [reflexivity|].
  rewrite setFrame_in_range by lia. reflexivity.
Qed.

(** X19. With at least one frame, [skipFrames] moves the cursor by the
    count given, stopping at the first and at the last frame, and fires one
    notification, also when the cursor does not move; two skips in the same
    direction land where one skip by their sum lands.  It never wraps: on
    the last frame a skip by one stays there, where [nextFrame] with
    looping goes to frame 0. *)
Theorem skipFrames_clamps (c : state) (i a b : Z) :
  1 <= totalFrames c ->
  currentFrame c = Int i ->
  0 <= i < totalFrames c ->
  currentFrame (fst (skipFrames (Int a) c)) =
    Int (Z.max 0 (Z.min (totalFrames c - 1) (i + a))) /\
  firesOnce (skipFrames (Int a) c) /\
  (0 <= a * b ->
   currentFrame (fst ((skipFrames (Int a) ;; skipFrames (Int b)) c)) =
   currentFrame (fst (skipFrames (Int (a + b)) c))) /\
  (i = totalFrames c - 1 ->
   currentFrame (fst (skipFrames (Int 1) c)) = Int (totalFrames c - 1) /\
   (isLooping c = true -> 2 <= totalFrames c ->
    currentFrame (fst (nextFrame c)) = Int 0)).
Proof.
  intros Hn Hi Hcur.
  destruct (fst_skipFrames a i c Hi Hn) as [Hskip Hfst].
  split; [now rewrite Hfst|]. split; [|split].
  - unfold firesOnce, notification. rewrite Hskip.
    rewrite setFrame_in_range by lia. reflexivity.
  - intros Hsign. rewrite fst_andThen, Hfst.
    destruct (fst_skipFrames b (Z.max 0 (Z.min (totalFrames c - 1) (i + a)))
                (with_currentFrame
                   (Int (Z.max 0 (Z.min (totalFrames c - 1) (i + a)))) c)
                eq_refl Hn) as [_ ->].
    destruct (fst_skipFrames (a + b) i c Hi Hn) as [_ ->].
    cbn [currentFrame totalFrames with_currentFrame]. f_equal. nia.
  - intros Hlast. split.
    + destruct (fst_skipFrames 1 i c Hi Hn) as [_ ->].
      cbn [currentFrame with_currentFrame]. f_equal. lia.
    + intros Hloop Htwo.
      rewrite nextFrame_wrap by (try assumption; try lia; congruence).
      reflexivity.
Qed.

Lemma skipFrames_clamps_witness :
  currentFrame (fst (skipFrames (Int 7) (onFrame 5 2))) = Int 4 /\
  currentFrame
    (fst ((skipFrames (Int (-1)) ;; skipFrames (Int (-4))) (onFrame 5 2)))
  = Int 0.
Proof.
  destruct (skipFrames_clamps (onFrame 5 2) 2 7 0 ltac:(cbn; lia) eq_refl
              ltac:(cbn; lia)) as (Hskip & _).
  destruct (skipFrames_clamps (onFrame 5 2) 2 (-1) (-4) ltac:(cbn; lia)
              eq_refl ltac:(cbn; lia)) as (_ & _ & Hadd & _).
  split; [exact Hskip | exact (Hadd ltac:(lia))].
Defined.

(** X20. On a controller with at least two frames whose timer agrees with
    its play state, two calls of [togglePlay] leave every field as it was
    and report the two changes of the play state in turn; the interval the
    second call installs when the controller was playing has the period of
    the one the first removed. *)
Theorem togglePlay_twice (c : state) :
  timerConsistent c ->
  2 <= totalFrames c ->
  (togglePlay ;; togglePlay) c =
    (c, [OnPlayStateChange (negb (isPlaying c));
         OnPlayStateChange (isPlaying c)]).
Proof.
  intros (Hplay & Hperiod & _ & _) Hn.
  destruct c as [n cur playing rate timer looping callback].
  cbn [isPlaying animationTimer totalFrames frameRate] in *.
  unfold andThen, togglePlay.
  destruct playing.
  - destruct timer as [period|];
      [|now destruct (proj1 Hplay eq_refl)].
    rewrite (Hperiod period eq_refl).
    unfold pause, play, startAnimation, stopAnimation, andThen, update.
    cbn [isPlaying negb with_isPlaying with_animationTimer totalFrames
         frameRate orb app fst snd].
    replace (n <=? 1) with false by lia. reflexivity.
  - destruct timer as [period|].
    + assert (false = true) by (apply Hplay; discriminate). discriminate.
    + unfold pause, play, startAnimation, stopAnimation, andThen, update.
      cbn [isPlaying negb with_isPlaying with_animationTimer totalFrames
           frameRate orb app fst snd].
      replace (n <=? 1) with false by lia. reflexivity.
Qed.

Lemma togglePlay_twice_witness :
  fst ((togglePlay ;; togglePlay) (onFrame 5 2)) = onFrame 5 2.
Proof.
  assert (H : timerConsistent (onFrame 5 2)).
  { apply Reachable_timerConsistent, onFrame_Reachable. lia. }
  now rewrite (togglePlay_twice (onFrame 5 2) H ltac:(cbn; lia)).
Defined.

End FrameControllerFacts.

(* ----------------------------------------------------------------- *)
(** ** The placement of the sprite *)

Module SpriteRendererFacts.

Import Number SpriteRenderer.

Lemma canvasCenter_new : canvasCenter new = (ofZ 400, ofZ 300).
Proof. reflexivity. Qed.

Lemma setFrame_canvasCenter (i : integral) (r : state) :
  canvasCenter (fst (setFrame i r)) = canvasCenter r /\
  scaleFactor (fst (setFrame i r)) = scaleFactor r.
Proof.
  unfold setFrame. destruct (sprite r) as [sp|]; [|auto].
  destruct (_ || _); [auto|]. cbn [frames with_sprite with_currentFrameIndex].
  destruct (item _ _) as [f|]; [|auto].
  unfold adjustSpritePosition. cbn [sprite with_sprite].
  destruct (spriteSourceSize f), (sourceSize f); auto.
Qed.

Lemma adjustSpritePosition_sprite (f : FrameData) (r : state) (sp : Sprite) :
  sprite r = Some sp ->
  sprite (adjustSpritePosition f r) =
    Some
      match spriteSourceSize f, sourceSize f with
      | Some sss, Some ss =>
          setPosition
            (add (fst (canvasCenter r))
                 (mul (sub (add (ofZ (rect_x sss))
                                (div (ofZ (rect_w sss)) (ofZ 2)))
                           (div (ofZ (size_w ss)) (ofZ 2)))
                      (scaleFactor r)))
            (add (snd (canvasCenter r))
                 (mul (sub (add (ofZ (rect_y sss))
                                (div (ofZ (rect_h sss)) (ofZ 2)))
                           (div (ofZ (size_h ss)) (ofZ 2)))
                      (scaleFactor r)))
            sp
      | _, _ => setPosition (fst (canvasCenter r)) (snd (canvasCenter r)) sp
      end.
Proof.
  intros Hsp. unfold adjustSpritePosition. rewrite Hsp.
  destruct (spriteSourceSize f), (sourceSize f); reflexivity.
Qed.

(** C8. When the renderer shows a frame, a frame with trim data is placed
    at the canvas centre plus the trim offset times the scale factor, the
    offset being [spriteSourceSize.x + spriteSourceSize.w/2 - sourceSize.w/2]
    (and likewise in y); a frame without trim data is placed at the canvas
    centre.  The canvas centre of a renderer is (400, 300). *)
Theorem sprite_position (r : state) (sp : Sprite) (i : nat) (f : FrameData) :
  sprite r = Some sp ->
  nth_error (frames r) i = Some f ->
  canvasCenter new = (ofZ 400, ofZ 300) /\
  exists sp',
    sprite (fst (setFrame (Int (Z.of_nat i)) r)) = Some sp' /\
    sprite_frame sp' = Int (Z.of_nat i) /\
    match spriteSourceSize f, sourceSize f with
    | Some sss, Some ss =>
        sprite_x sp' =
          add (fst (canvasCenter r))
              (mul (sub (add (ofZ (rect_x sss))
                             (div (ofZ (rect_w sss)) (ofZ 2)))
                        (div (ofZ (size_w ss)) (ofZ 2)))
                   (scaleFactor r)) /\
        sprite_y sp' =
          add (snd (canvasCenter r))
              (mul (sub (add (ofZ (rect_y sss))
                             (div (ofZ (rect_h sss)) (ofZ 2)))
                        (div (ofZ (size_h ss)) (ofZ 2)))
                   (scaleFactor r))
    | _, _ =>
        sprite_x sp' = fst (canvasCenter r) /\
        sprite_y sp' = snd (canvasCenter r)
    end.
Proof.
  intros Hsp Hf. split; [reflexivity|].
  assert (Hlen : (i < List.length (frames r))%nat)
    by (apply nth_error_Some; congruence).
  unfold setFrame. rewrite Hsp. cbn [ltZ geZ].
  replace ((Z.of_nat i <? 0) || (Z.of_nat i >=? Z.of_nat (List.length (frames r))))
    with false by lia.
  cbn [frames with_sprite with_currentFrameIndex].
  rewrite NumberFacts.item_of_nat, Hf. cbn [fst].
  erewrite adjustSpritePosition_sprite by reflexivity.
  cbn [canvasCenter scaleFactor with_sprite with_currentFrameIndex].
  eexists. split; [reflexivity|].
  destruct (spriteSourceSize f), (sourceSize f);
    cbn [sprite_frame sprite_x sprite_y setPosition]; auto.
Qed.

(** At half scale the trimmed frame sits 1.5 left of and 3 above the
    centre; the untrimmed frame sits on it. *)
Lemma sprite_position_witness :
  (exists sp',
     sprite (fst (setFrame (Int 0) exampleRenderer)) = Some sp' /\
     sprite_x sp' = div (ofZ 797) (ofZ 2) /\ sprite_y sp' = ofZ 297) /\
  (exists sp',
     sprite (fst (setFrame (Int 1) exampleRenderer)) = Some sp' /\
     sprite_x sp' = ofZ 400 /\ sprite_y sp' = ofZ 300).
Proof.
  split.
  - destruct (sprite_position exampleRenderer
                (mkSprite (Int 0) (ofZ 400) (ofZ 300)) 0 trimmedFrame
                eq_refl eq_refl) as (_ & sp' & Hsp' & _ & Hx & Hy).
    exists sp'. split; [exact Hsp'|]. split.
    + rewrite Hx. vm_compute. reflexivity.
    + rewrite Hy. vm_compute. reflexivity.
  - destruct (sprite_position exampleRenderer
                (mkSprite (Int 0) (ofZ 400) (ofZ 300)) 1 untrimmedFrame
                eq_refl eq_refl) as (_ & sp' & Hsp' & _ & Hx & Hy).
    exists sp'. split; [exact Hsp'|]. split.
    + rewrite Hx. reflexivity.
    + rewrite Hy. reflexivity.
Defined.

End SpriteRendererFacts.

(* ----------------------------------------------------------------- *)
(** ** The natural order and the sort *)

Module NaturalOrderFacts.

Import NaturalOrder.

(** *** The comparison is a total preorder *)

Lemma compareKey_refl (a : N * N) : compareKey a a = Eq.
Proof. unfold compareKey. now rewrite !N.compare_refl. Qed.

Lemma compareKey_eq (a b : N * N) : compareKey a b = Eq -> a = b.
Proof.
  destruct a as [a1 a2], b as [b1 b2]. unfold compareKey. cbn [fst snd].
  destruct (N.compare_spec a1 b1); try discriminate.
  intros H2. apply N.compare_eq in H2. congruence.
Qed.

Lemma compareKey_antisym (a b : N * N) :
  compareKey b a = CompOpp (compareKey a b).
Proof.
  unfold compareKey.
  rewrite (N.compare_antisym (fst a) (fst b)), (N.compare_antisym (snd a) (snd b)).
  destruct (fst a ?= fst b)%N; reflexivity.
Qed.

Lemma compareKey_lt_trans (a b c : N * N) :
  compareKey a b = Lt -> compareKey b c = Lt -> compareKey a c = Lt.
Proof.
  destruct a as [a1 a2], b as [b1 b2], c as [c1 c2].
  unfold compareKey. cbn [fst snd].
  destruct (N.compare_spec a1 b1), (N.compare_spec b1 c1),
    (N.compare_spec a1 c1); try discriminate; try lia; try reflexivity.
  rewrite !N.compare_lt_iff. lia.
Qed.

Lemma compareKeys_refl (a : list (N * N)) : compareKeys a a = Eq.
Proof.
  induction a as [|x a IH]; [reflexivity|].
  cbn [compareKeys]. now rewrite compareKey_refl.
Qed.

Lemma compareKeys_eq (a b : list (N * N)) : compareKeys a b = Eq -> a = b.
Proof.
  revert b. induction a as [|x a IH]; intros [|y b]; cbn [compareKeys];
    try discriminate; [reflexivity|].
  destruct (compareKey x y) eqn:E; try discriminate.
  intros H. apply compareKey_eq in E. apply IH in H. congruence.
Qed.

Lemma compareKeys_antisym (a b : list (N * N)) :
  compareKeys b a = CompOpp (compareKeys a b).
Proof.
  revert b. induction a as [|x a IH]; intros [|y b]; cbn [compareKeys];
    try reflexivity.
  rewrite (compareKey_antisym x y).
  destruct (compareKey x y); cbn [CompOpp]; [apply IH | reflexivity | reflexivity].
Qed.

Lemma compareKeys_lt_trans (a b c : list (N * N)) :
  compareKeys a b = Lt -> compareKeys b c = Lt -> compareKeys a c = Lt.
Proof.
  revert b c. induction a as [|x a IH]; intros [|y b] [|z c];
    cbn [compareKeys]; try discriminate; try reflexivity.
  destruct (compareKey x y) eqn:Exy; try discriminate;
    destruct (compareKey y z) eqn:Eyz; try discriminate; intros Hab Hbc.
  - apply compareKey_eq in Exy, Eyz. subst.
    rewrite compareKey_refl. now apply IH with b.
  - apply compareKey_eq in Exy. subst. now rewrite Eyz.
  - apply compareKey_eq in Eyz. subst. now rewrite Exy.
  - now rewrite (compareKey_lt_trans x y z).
Qed.

Lemma localeCompare_total (col : Collation) (a b : string) :
  localeCompare col a b = Gt -> localeCompare col b a <> Gt.
Proof.
  unfold localeCompare. intros H.
  rewrite compareKeys_antisym, H. discriminate.
Qed.

Lemma localeCompare_trans (col : Collation) (a b c : string) :
  localeCompare col a b <> Gt -> localeCompare col b c <> Gt ->
  localeCompare col a c <> Gt.
Proof.
  unfold localeCompare. intros Hab Hbc.
  destruct (compareKeys (keys col a) (keys col b)) eqn:Eab; try congruence;
    destruct (compareKeys (keys col b) (keys col c)) eqn:Ebc; try congruence.
  - apply compareKeys_eq in Eab, Ebc. rewrite Eab, Ebc, compareKeys_refl.
    discriminate.
  - apply compareKeys_eq in Eab. rewrite Eab, Ebc. discriminate.
  - apply compareKeys_eq in Ebc. rewrite <- Ebc, Eab. discriminate.
  - rewrite (compareKeys_lt_trans _ _ _ Eab Ebc). discriminate.
Qed.

(** *** The sort *)

Section Sort.

Context {A : Type} (cmp : A -> A -> comparison).

Hypothesis cmp_total : forall x y, cmp x y = Gt -> cmp y x <> Gt.
Hypothesis cmp_trans :
  forall x y z, cmp x y <> Gt -> cmp y z <> Gt -> cmp x z <> Gt.

Let le : A -> A -> Prop := notAfter cmp.

Lemma insertBy_Permutation (x : A) (l : list A) :
  Permutation (x :: l) (insertBy cmp x l).
Proof.
  induction l as [|y l IH]; cbn [insertBy]; [reflexivity|].
  destruct (cmp x y); try reflexivity.
  rewrite perm_swap. now apply perm_skip.
Qed.

Lemma sortBy_Permutation (l : list A) : Permutation l (sortBy cmp l).
Proof.
  induction l as [|x l IH]; cbn; [constructor|].
  rewrite <- insertBy_Permutation. now apply perm_skip.
Qed.

Lemma insertBy_StronglySorted (x : A) (l : list A) :
  StronglySorted (notAfter cmp) l ->
  StronglySorted (notAfter cmp) (insertBy cmp x l).
Proof.
  induction 1 as [|y l Hsorted IH Hall]; cbn [insertBy].
  - repeat constructor.
  - destruct (cmp x y) eqn:E.
    + constructor; [now constructor|].
      assert (Hxy : le x y) by (unfold le, notAfter; congruence).
      constructor; [exact Hxy|].
      eapply Forall_impl; [|exact Hall]. intros z Hz. exact (cmp_trans x y z Hxy Hz).
    + constructor; [now constructor|].
      assert (Hxy : le x y) by (unfold le, notAfter; congruence).
      constructor; [exact Hxy|].
      eapply Forall_impl; [|exact Hall]. intros z Hz. exact (cmp_trans x y z Hxy Hz).
    + constructor; [exact IH|].
      apply (Permutation_Forall (insertBy_Permutation x l)).
      constructor; [exact (cmp_total x y E) | exact Hall].
Qed.

Lemma sortBy_StronglySorted (l : list A) :
  StronglySorted (notAfter cmp) (sortBy cmp l).
Proof.
  induction l as [|x l IH]; cbn; [constructor|].
  now apply insertBy_StronglySorted.
Qed.

End Sort.

(** *** Runs of digits compare by value *)

Lemma tokens_app (p rest : list ascii) :
  forall acc,
    endsWithDigit p = false -> (p <> [] \/ acc = None) ->
    tokens acc (p ++ rest) = tokens acc p ++ tokens None rest.
Proof.
  induction p as [|c p IH]; intros acc Hend Hacc.
  - destruct Hacc as [Hp | ->]; [congruence | reflexivity].
  - cbn [app tokens]. destruct p as [|c' p'].
    + cbn [endsWithDigit] in Hend. rewrite Hend. cbn [app tokens flush].
      now rewrite <- app_assoc.
    + destruct (isDigit c).
      * apply IH; [exact Hend | left; discriminate].
      * rewrite IH by (try exact Hend; now right).
        now rewrite <- app_assoc.
Qed.

Lemma tokens_digits (u s : list ascii) :
  forall acc,
    forallb isDigit u = true -> startsWithDigit s = false ->
    tokens acc (u ++ s) =
      flush (fold_left (fun a c => Some (pushDigit a c)) u acc)
        ++ tokens None s.
Proof.
  induction u as [|c u IH]; intros acc Hu Hs.
  - cbn [app fold_left]. destruct s as [|c s]; cbn [tokens].
    + now rewrite app_nil_r.
    + cbn [startsWithDigit] in Hs. rewrite Hs. reflexivity.
  - cbn [forallb] in Hu. apply andb_true_iff in Hu as [Hc Hu].
    cbn [app tokens fold_left]. rewrite Hc. now apply IH.
Qed.

Lemma fold_pushDigit (u : list ascii) (n : N) :
  fold_left (fun a c => Some (pushDigit a c)) u (Some n) =
  Some (fold_left (fun n c => (10 * n + digitValue c)%N) u n).
Proof.
  revert n. induction u as [|c u IH]; intros n; [reflexivity|].
  cbn [fold_left pushDigit]. apply IH.
Qed.

Lemma tokens_numeral (u s : list ascii) :
  numeral u = true -> startsWithDigit s = false ->
  tokens None (u ++ s) = TNum (decimal u) :: tokens None s.
Proof.
  intros Hu Hs. destruct u as [|c u]; [discriminate|].
  cbn [numeral] in Hu. rewrite tokens_digits by assumption.
  cbn [fold_left pushDigit]. rewrite fold_pushDigit.
  unfold decimal. cbn [fold_left flush app].
  now rewrite N.mul_0_r, N.add_0_l.
Qed.

Lemma list_ascii_of_string_app (a b : string) :
  list_ascii_of_string (a ++ b) =
  list_ascii_of_string a ++ list_ascii_of_string b.
Proof.
  induction a as [|c a IH]; [reflexivity|].
  cbn. now rewrite IH.
Qed.

Lemma compareKeys_app (k a b : list (N * N)) :
  compareKeys (k ++ a) (k ++ b) = compareKeys a b.
Proof.
  induction k as [|x k IH]; [reflexivity|].
  cbn [app compareKeys]. now rewrite compareKey_refl.
Qed.

(** Two names that differ in one embedded integer, and in whatever follows
    it, are in the order of the integers, whatever the count of digits. *)
Lemma localeCompare_embedded_integer (col : Collation) (p u v s s' : string) :
  endsWithDigit (list_ascii_of_string p) = false ->
  numeral (list_ascii_of_string u) = true ->
  numeral (list_ascii_of_string v) = true ->
  startsWithDigit (list_ascii_of_string s) = false ->
  startsWithDigit (list_ascii_of_string s') = false ->
  (decimal (list_ascii_of_string u) < decimal (list_ascii_of_string v))%N ->
  localeCompare col (p ++ u ++ s) (p ++ v ++ s') = Lt.
Proof.
  intros Hp Hu Hv Hs Hs' Hlt.
  unfold localeCompare, keys.
  rewrite !list_ascii_of_string_app.
  rewrite !(tokens_app _ _ None Hp) by now right.
  rewrite !tokens_numeral by assumption.
  rewrite !map_app, compareKeys_app.
  cbn [map key compareKeys]. unfold compareKey. cbn [fst snd].
  rewrite N.compare_refl.
  apply N.compare_lt_iff in Hlt. now rewrite Hlt.
Qed.

(** Names without digits compare as text: character by character, by
    primary weight. *)
Lemma localeCompare_text (col : Collation) (a b : string) :
  forallb (fun c => negb (isDigit c)) (list_ascii_of_string a) = true ->
  forallb (fun c => negb (isDigit c)) (list_ascii_of_string b) = true ->
  localeCompare col a b =
  compareKeys
    (map (fun c => (primaryWeight col c, 0%N)) (list_ascii_of_string a))
    (map (fun c => (primaryWeight col c, 0%N)) (list_ascii_of_string b)).
Proof.
  assert (Htext : forall l,
    forallb (fun c => negb (isDigit c)) l = true ->
    map (key col) (tokens None l) = map (fun c => (primaryWeight col c, 0%N)) l).
  { induction l as [|c l IH]; [reflexivity|].
    cbn [forallb]. intros H. apply andb_true_iff in H as [Hc Hl].
    apply negb_true_iff in Hc. cbn [tokens]. rewrite Hc.
    cbn [flush app map key]. now rewrite IH. }
  intros Ha Hb. unfold localeCompare, keys. now rewrite !Htext.
Qed.

Lemma localeCompare_frame_9_10 (col : Collation) :
  localeCompare col "frame_9" "frame_10" = Lt.
Proof.
  apply (localeCompare_embedded_integer col "frame_" "9" "10" "" "");
    reflexivity.
Qed.

End NaturalOrderFacts.

(* ----------------------------------------------------------------- *)
(** ** The loader *)

Module AtlasLoaderFacts.

Import JS NaturalOrder AtlasLoader.

Local Open Scope string_scope.

(** *** The bounds of the frames *)

Lemma checkBounds_fit (fs : list FrameData) (width height : Z) :
  forall i,
    (forall f, In f fs -> exceeds f width height = false) ->
    checkBounds fs i width height = ret tt.
Proof.
  induction fs as [|f fs IH]; intros i Hfit; [reflexivity|].
  cbn [checkBounds]. rewrite (Hfit f) by now left.
  apply IH. intros g Hg. apply Hfit. now right.
Qed.

Lemma checkBounds_first (pre post : list FrameData) (f : FrameData)
  (width height : Z) :
  forall i,
    (forall g, In g pre -> exceeds g width height = false) ->
    exceeds f width height = true ->
    checkBounds (pre ++ f :: post)%list i width height =
      throw (FrameOutOfBounds (i + List.length pre) (filename f)
               (rect_x (frame f) + rect_w (frame f))
               (rect_y (frame f) + rect_h (frame f)) width height).
Proof.
  induction pre as [|g pre IH]; intros i Hpre Hf.
  - cbn [app checkBounds List.length]. rewrite Hf, Nat.add_0_r. reflexivity.
  - cbn [app checkBounds List.length]. rewrite (Hpre g) by now left.
    rewrite IH; [| intros g' Hg'; apply Hpre; now right | exact Hf].
    now rewrite Nat.add_succ_r.
Qed.

Lemma checkBounds_throws (fs : list FrameData) (width height : Z) :
  forall i e,
    checkBounds fs i width height = inl e ->
    exists pre f post,
      fs = (pre ++ f :: post)%list /\
      (forall g, In g pre -> exceeds g width height = false) /\
      exceeds f width height = true.
Proof.
  induction fs as [|f fs IH]; intros i e H; [discriminate|].
  cbn [checkBounds] in H. destruct (exceeds f width height) eqn:E.
  - exists [], f, fs. repeat split; [intros g [] | exact E].
  - destruct (IH _ _ H) as (pre & f' & post & -> & Hpre & Hf').
    exists (f :: pre), f', post. repeat split; [|exact Hf'].
    intros g [<- | Hg]; [exact E | now apply Hpre].
Qed.

(** *** The image against the manifest *)

Lemma validateTextureImage_decoded (tex : TextureFile) (t : TextureData)
  (width height : Z) (w : World) :
  decoded tex = Some (width, height) ->
  validateTextureImage tex (mkAtlasData [t]) w =
    (checkBounds (frames t) 0 width height,
     revokeObjectURL (nextURL w)
       (if sizeMismatch (Some (size t)) width height
        then warn (TextureSizeMismatch (Some (size t)) width height)
                  (snd (createObjectURL w))
        else snd (createObjectURL w))).
Proof.
  intros Hdec. unfold validateTextureImage. cbn [createObjectURL].
  rewrite Hdec. reflexivity.
Qed.

Lemma validateTextureImage_console (tex : TextureFile) (t : TextureData)
  (width height : Z) (w : World) :
  decoded tex = Some (width, height) ->
  console (snd (validateTextureImage tex (mkAtlasData [t]) w)) =
    (console w ++
     if sizeMismatch (Some (size t)) width height
     then [TextureSizeMismatch (Some (size t)) width height]
     else [])%list.
Proof.
  intros Hdec. rewrite (validateTextureImage_decoded _ _ _ _ _ Hdec).
  cbn [snd]. destruct (sizeMismatch _ _ _); cbn; [reflexivity|].
  now rewrite app_nil_r.
Qed.

Lemma loadAtlas_parsed (col : Collation) (tex : TextureFile) (file : AtlasFile)
  (raw : JValue) (t : TextureData) (s : state) (w : World) :
  parseAtlasJSON file = ret raw ->
  asAtlasData raw = Some (mkAtlasData [t]) ->
  loadAtlas col tex file s w =
    let url := nextURL w in
    let w1 := snd (createObjectURL w) in
    match validateTextureImage tex (mkAtlasData [t]) w1 with
    | (inl error, w2) =>
        Some (throw error, fst (cleanup s w2), snd (cleanup s w2))
    | (inr _, w2) =>
        let sortedFrames := sortBy (compareFrames col) (frames t) in
        let atlas :=
          mkLoadedAtlas raw url (List.length sortedFrames) sortedFrames in
        Some (ret atlas, mkState (Some atlas), w2)
    end.
Proof.
  intros Hparse Htyped. unfold loadAtlas. rewrite Hparse.
  unfold ret, createObjectURL. cbn iota beta zeta. rewrite Htyped.
  cbn [snd hd_error textures].
  destruct (validateTextureImage _ _ _) as [[error | u] w2]; [|reflexivity].
  now destruct (cleanup s w2).
Qed.

(** An image of 64 by 64 against two frames that both reach beyond it: the
    error names the first, and not the second. *)
Lemma bounds_error_counterexample :
  exceeds (mkFrameData "b.png" (Some (mkSize 200 10)) None (mkRect 0 0 200 10))
          64 64 = true /\
  exists s w,
    loadAtlas asciiBase (imageFile 64 64)
      (manifestFile 64 64
         [frameValue "a.png" 0 0 100 10; frameValue "b.png" 0 0 200 10])
      fresh emptyWorld
    = Some (throw (FrameOutOfBounds 0 "a.png" 100 10 64 64), s, w) /\
    FrameOutOfBounds 0 "a.png" 100 10 64 64
      <> FrameOutOfBounds 1 "b.png" 200 10 64 64.
Proof.
  split; [reflexivity|].
  eexists _, _. split; [vm_compute; reflexivity | discriminate].
Qed.

(** C3 (amended). Once the image is decoded, a frame that reaches beyond it
    makes the load fail with an error naming the index and the filename of
    the first such frame; when no frame does, the load succeeds whatever the
    declared size of the sheet, a size that differs from the image adding
    one warning to the console and nothing else. *)
Theorem size_mismatch_and_bounds (col : Collation) (tex : TextureFile)
  (file : AtlasFile) (raw : JValue) (t : TextureData) (width height : Z)
  (s : state) (w : World) :
  parseAtlasJSON file = ret raw ->
  asAtlasData raw = Some (mkAtlasData [t]) ->
  decoded tex = Some (width, height) ->
  ((forall f, In f (frames t) -> exceeds f width height = false) ->
   exists atlas s' w',
     loadAtlas col tex file s w = Some (ret atlas, s', w') /\
     console w' =
       (console w ++
        if sizeMismatch (Some (size t)) width height
        then [TextureSizeMismatch (Some (size t)) width height]
        else [])%list) /\
  (forall pre f post,
     frames t = (pre ++ f :: post)%list ->
     (forall g, In g pre -> exceeds g width height = false) ->
     exceeds f width height = true ->
     exists s' w',
       loadAtlas col tex file s w =
         Some (throw (FrameOutOfBounds (List.length pre) (filename f)
                        (rect_x (frame f) + rect_w (frame f))
                        (rect_y (frame f) + rect_h (frame f)) width height),
               s', w')).
Proof.
  intros Hparse Htyped Hdec.
  rewrite (loadAtlas_parsed col tex file raw t s w Hparse Htyped). cbn zeta.
  pose proof (validateTextureImage_console tex t width height
                (snd (createObjectURL w)) Hdec) as Hconsole.
  rewrite (validateTextureImage_decoded _ _ _ _ _ Hdec) in *.
  cbn [snd] in Hconsole. split.
  - intros Hfit. rewrite (checkBounds_fit _ _ _ 0%nat Hfit).
    eexists _, _, _. split; [reflexivity|]. exact Hconsole.
  - intros pre f post Hfs Hpre Hf.
    rewrite Hfs, (checkBounds_first pre post f width height 0%nat Hpre Hf).
    eexists _, _. reflexivity.
Qed.

Lemma size_mismatch_and_bounds_witness :
  (exists atlas s' w',
     loadAtlas asciiBase (imageFile 128 128)
       (manifestFile 64 64 [frameValue "a.png" 0 0 100 10]) fresh emptyWorld
     = Some (ret atlas, s', w') /\
     console w' =
       [TextureSizeMismatch (Some (mkSize 64 64)) 128 128]) /\
  (exists s' w',
     loadAtlas asciiBase (imageFile 64 64)
       (manifestFile 64 64
          [frameValue "a.png" 0 0 10 10; frameValue "b.png" 0 60 10 10])
       fresh emptyWorld
     = Some (throw (FrameOutOfBounds 1 "b.png" 10 70 64 64), s', w')).
Proof.
  split.
  - apply (proj1 (size_mismatch_and_bounds asciiBase (imageFile 128 128)
                    (manifestFile 64 64 [frameValue "a.png" 0 0 100 10])
                    _ _ 128 128 fresh emptyWorld eq_refl eq_refl eq_refl)).
    intros f [<- | []]. reflexivity.
  - apply (proj2 (size_mismatch_and_bounds asciiBase (imageFile 64 64)
                    (manifestFile 64 64
                       [frameValue "a.png" 0 0 10 10;
                        frameValue "b.png" 0 60 10 10])
                    _ _ 64 64 fresh emptyWorld eq_refl eq_refl eq_refl)
             [mkFrameData "a.png" (Some (mkSize 10 10)) None (mkRect 0 0 10 10)]
             (mkFrameData "b.png" (Some (mkSize 10 10)) None (mkRect 0 60 10 10))
             [] eq_refl).
    + intros g [<- | []]. reflexivity.
    + reflexivity.
Defined.

(** *** The order of the frames *)

Lemma compareFrames_total (col : Collation) (a b : FrameData) :
  compareFrames col a b = Gt -> compareFrames col b a <> Gt.
Proof. apply NaturalOrderFacts.localeCompare_total. Qed.

Lemma compareFrames_trans (col : Collation) (a b c : FrameData) :
  compareFrames col a b <> Gt -> compareFrames col b c <> Gt ->
  compareFrames col a c <> Gt.
Proof. apply NaturalOrderFacts.localeCompare_trans. Qed.

(** C1. A valid manifest loads to the frames of its first texture sheet
    sorted by filename under the natural comparison: a permutation of them
    in which no frame comes after a later one.  In that comparison two names
    that differ in an embedded run of digits are in the order of the
    integers, and names without digits compare as text; ["a_02.png"],
    ["a_10.png"], ["a_1.png"] load in the order ["a_1.png"], ["a_02.png"],
    ["a_10.png"], and ["frame_9"] sorts before ["frame_10"]. *)
Theorem loadAtlas_natural_order (col : Collation) (tex : TextureFile)
  (file : AtlasFile) (raw : JValue) (t : TextureData) (width height : Z)
  (s : state) (w : World) :
  parseAtlasJSON file = ret raw ->
  asAtlasData raw = Some (mkAtlasData [t]) ->
  decoded tex = Some (width, height) ->
  (forall f, In f (frames t) -> exceeds f width height = false) ->
  (exists atlas s' w',
     loadAtlas col tex file s w = Some (ret atlas, s', w') /\
     loadedAtlas s' = Some atlas /\
     loadedFrames atlas = sortBy (compareFrames col) (frames t) /\
     totalFrames atlas = List.length (frames t) /\
     Permutation (frames t) (loadedFrames atlas) /\
     StronglySorted
       (fun a b => localeCompare col (filename a) (filename b) <> Gt)
       (loadedFrames atlas)) /\
  (forall p u v r r' : string,
     endsWithDigit (list_ascii_of_string p) = false ->
     numeral (list_ascii_of_string u) = true ->
     numeral (list_ascii_of_string v) = true ->
     startsWithDigit (list_ascii_of_string r) = false ->
     startsWithDigit (list_ascii_of_string r') = false ->
     (decimal (list_ascii_of_string u) < decimal (list_ascii_of_string v))%N ->
     localeCompare col (p ++ u ++ r) (p ++ v ++ r') = Lt) /\
  (forall a b : string,
     forallb (fun c => negb (isDigit c)) (list_ascii_of_string a) = true ->
     forallb (fun c => negb (isDigit c)) (list_ascii_of_string b) = true ->
     localeCompare col a b =
       compareKeys
         (map (fun c => (primaryWeight col c, 0%N)) (list_ascii_of_string a))
         (map (fun c => (primaryWeight col c, 0%N)) (list_ascii_of_string b))) /\
  (forall fa fb fc,
     filename fa = "a_02.png" -> filename fb = "a_10.png" ->
     filename fc = "a_1.png" ->
     sortBy (compareFrames col) [fa; fb; fc] = [fc; fa; fb]) /\
  localeCompare col "frame_9" "frame_10" = Lt.
Proof.
  intros Hparse Htyped Hdec Hfit.
  split; [| split; [| split; [| split]]].
  - rewrite (loadAtlas_parsed col tex file raw t s w Hparse Htyped). cbn zeta.
    rewrite (validateTextureImage_decoded _ _ _ _ _ Hdec).
    rewrite (checkBounds_fit _ _ _ 0%nat Hfit).
    eexists _, _, _. split; [reflexivity|].
    cbn [loadedAtlas loadedFrames totalFrames].
    split; [reflexivity|]. split; [reflexivity|]. split; [|split].
    + symmetry. apply Permutation_length.
      apply NaturalOrderFacts.sortBy_Permutation.
    + apply NaturalOrderFacts.sortBy_Permutation.
    + apply (NaturalOrderFacts.sortBy_StronglySorted (compareFrames col)
               (compareFrames_total col) (compareFrames_trans col)).
  - intros p u v r r'. apply NaturalOrderFacts.localeCompare_embedded_integer.
  - intros a b. apply NaturalOrderFacts.localeCompare_text.
  - intros fa fb fc Ha Hb Hc.
    assert (Hcb : compareFrames col fc fb = Lt).
    { unfold compareFrames. rewrite Hc, Hb.
      apply (NaturalOrderFacts.localeCompare_embedded_integer
               col "a_" "1" "10" ".png" ".png"); reflexivity. }
    assert (Hca : compareFrames col fc fa = Lt).
    { unfold compareFrames. rewrite Hc, Ha.
      apply (NaturalOrderFacts.localeCompare_embedded_integer
               col "a_" "1" "02" ".png" ".png"); reflexivity. }
    assert (Hab : compareFrames col fa fb = Lt).
    { unfold compareFrames. rewrite Ha, Hb.
      apply (NaturalOrderFacts.localeCompare_embedded_integer
               col "a_" "02" "10" ".png" ".png"); reflexivity. }
    assert (Hbc : compareFrames col fb fc = Gt).
    { unfold compareFrames, localeCompare in *.
      rewrite NaturalOrderFacts.compareKeys_antisym, Hcb. reflexivity. }
    assert (Hac : compareFrames col fa fc = Gt).
    { unfold compareFrames, localeCompare in *.
      rewrite NaturalOrderFacts.compareKeys_antisym, Hca. reflexivity. }
    unfold sortBy. cbn [fold_right insertBy].
    rewrite Hbc. cbn [insertBy]. rewrite Hac, Hab. reflexivity.
  - apply NaturalOrderFacts.localeCompare_frame_9_10.
Qed.

Lemma loadAtlas_natural_order_witness :
  exists atlas s' w',
    loadAtlas asciiBase (imageFile 64 64)
      (manifestFile 64 64
         [frameValue "a_02.png" 0 0 8 8; frameValue "a_10.png" 8 0 8 8;
          frameValue "a_1.png" 16 0 8 8])
      fresh emptyWorld
    = Some (ret atlas, s', w') /\
    map filename (loadedFrames atlas) = ["a_1.png"; "a_02.png"; "a_10.png"].
Proof.
  destruct (proj1 (loadAtlas_natural_order asciiBase (imageFile 64 64)
              (manifestFile 64 64
                 [frameValue "a_02.png" 0 0 8 8; frameValue "a_10.png" 8 0 8 8;
                  frameValue "a_1.png" 16 0 8 8])
              _ _ 64 64 fresh emptyWorld eq_refl eq_refl eq_refl
              ltac:(intros f [<- | [<- | [<- | []]]]; reflexivity)))
    as (atlas & s' & w' & Hload & _ & Hframes & _).
  exists atlas, s', w'. split; [exact Hload|].
  rewrite Hframes. reflexivity.
Defined.

(** *** The object URL of a rejected load *)

(** C2 (the code departs from it). A load rejected for a frame out of
    bounds, or for an image that does not decode, ends with the object URL
    that [loadAtlas] created (URL 0) still registered: [cleanup] revokes the
    URL of the atlas loaded before, and the new one is not yet stored.  The
    URL that [validateTextureImage] created (URL 1) is revoked. *)
Theorem rejected_load_keeps_object_url :
  loadAtlas asciiBase (imageFile 64 64)
    (manifestFile 64 64 [frameValue "hero.png" 0 0 128 64]) fresh emptyWorld
  = Some (throw (FrameOutOfBounds 0 "hero.png" 128 64 64 64), fresh,
          mkWorld [0%nat] 2 []) /\
  loadAtlas asciiBase (mkTextureFile None)
    (manifestFile 64 64 [frameValue "hero.png" 0 0 32 32]) fresh emptyWorld
  = Some (throw ImageLoadFailed, fresh, mkWorld [0%nat] 2 []).
Proof. split; reflexivity. Qed.

(** *** The rectangle of a frame record *)


Lemma requireFields_present (missing : string -> LoadError)
  (fields : list (string * JValue)) (required : list string) :
  (forall k, In k required -> lookup k fields <> None) ->
  requireFields missing (JObj fields) required = ret tt.
Proof.
  induction required as [|k required IH]; intros H; [reflexivity|].
  cbn [requireFields hasField].
  destruct (lookup k fields) eqn:E; [|now destruct (H k (or_introl eq_refl))].
  cbn [bind ret]. apply IH. intros k' Hk'. apply H. now right.
Qed.


Lemma validHeader_validate (root : JValue) (items : list JValue) :
  validHeader root items ->
  validateAtlasStructure root =
    match items with
    | [] => throw NoFrames
    | _ => validateFrames items 0
    end.
Proof.
  intros (rootFields & others & textureFields & sizeV & sw & sh & -> & Htex
          & Himage & Hsize & Hw & Hnw & Hh & Hnh & Hframes).
  unfold validateAtlasStructure. cbn [truthy isObjectType andb get].
  rewrite Htex. cbn [bind ret].
  unfold validateTextureStructure.
  rewrite requireFields_present.
  2:{ intros k [<- | [<- | [<- | []]]]; congruence. }
  cbn [bind ret get]. rewrite Hsize. cbn [bind ret].
  rewrite Hw, Hh. cbn [bind ret truthy isNumber].
  replace (sw =? 0)%Z with false by lia.
  replace (sh =? 0)%Z with false by lia.
  cbn [negb orb]. rewrite Hframes. cbn [bind ret].
  now destruct items.
Qed.


(** A frame record whose rectangle is null, and one whose width is a
    string: the first fails with the exception of the language, which names
    no index; the second passes the validation. *)
Lemma frame_null_counterexample :
  validateFrameStructure
    (JObj [("filename", JStr "hero.png"); ("frame", JNull);
           ("sourceSize", sizeValue 8 8)]) 3
  = throw TypeError /\
  validateFrameStructure
    (JObj [("filename", JStr "hero.png");
           ("frame", JObj [("x", JNum 0); ("y", JNum 0); ("w", JStr "wide");
                           ("h", JBool true)]);
           ("sourceSize", sizeValue 8 8)]) 3
  = ret tt.
Proof. split; reflexivity. Qed.





End AtlasLoaderFacts.

(* ----------------------------------------------------------------- *)
(** ** The scale and the steps of the renderer *)

Module SpriteRendererSteps.

Import Number SpriteRenderer.

Lemma maxSourceSize_total (fs : list FrameData) :
  forall maxWidth maxHeight,
    (forall f, In f fs -> sourceSize f <> None) ->
    0 <= maxWidth -> 0 <= maxHeight ->
    exists w h,
      maxSourceSize fs maxWidth maxHeight = Some (w, h) /\
      maxWidth <= w /\ maxHeight <= h /\
      (forall f ss, In f fs -> sourceSize f = Some ss ->
                    size_w ss <= w /\ size_h ss <= h) /\
      ((forall f ss, In f fs -> sourceSize f = Some ss ->
                     size_w ss <= maxWidth) -> w = maxWidth) /\
      ((forall f ss, In f fs -> sourceSize f = Some ss ->
                     size_h ss <= maxHeight) -> h = maxHeight).
Proof.
  induction fs as [|f fs IH]; intros mw mh Hall Hw Hh.
  - exists mw, mh. cbn. repeat split; try lia; intros ? ? [].
  - cbn [maxSourceSize].
    destruct (sourceSize f) as [ss|] eqn:Ess;
      [| now destruct (Hall f (or_introl eq_refl))].
    destruct (IH (Z.max mw (size_w ss)) (Z.max mh (size_h ss)))
      as (w & h & Hmax & Hlw & Hlh & Hbound & Hweq & Hheq);
      [intros g Hg; apply Hall; now right | lia | lia |].
    exists w, h. split; [exact Hmax|]. split; [lia|]. split; [lia|].
    split; [| split].
    + intros g sg [<- | Hg] Hsg.
      * rewrite Ess in Hsg. injection Hsg as <-. lia.
      * exact (Hbound g sg Hg Hsg).
    + intros Hsmall.
      pose proof (Hsmall f ss (or_introl eq_refl) Ess).
      rewrite Hweq; [lia|].
      intros g sg Hg Hsg. pose proof (Hsmall g sg (or_intror Hg) Hsg). lia.
    + intros Hsmall.
      pose proof (Hsmall f ss (or_introl eq_refl) Ess).
      rewrite Hheq; [lia|].
      intros g sg Hg Hsg. pose proof (Hsmall g sg (or_intror Hg) Hsg). lia.
Qed.

Lemma scaleFor_at_most_1 (maxWidth maxHeight : Z) :
  leb (scaleFor maxWidth maxHeight) (ofZ 1) = true.
Proof.
  unfold scaleFor, leb.
  assert (Hx : isNaN (div (ofZ (800 - 40)) (ofZ maxWidth)) = false)
    by (apply (NumberFacts.div_finite_not_nan false 6685030696878080 (-43)),
          NumberFacts.ofZ_not_nan).
  assert (Hy : isNaN (div (ofZ (600 - 40)) (ofZ maxHeight)) = false)
    by (apply (NumberFacts.div_finite_not_nan false 4925812092436480 (-43)),
          NumberFacts.ofZ_not_nan).
  apply NumberFacts.min2_le_r; [| reflexivity | reflexivity].
  now apply NumberFacts.min2_cases.
Qed.

(** X6. Once a sprite exists and every frame has a [sourceSize] of
    integers, [calculateScaling] records the largest width and the largest
    height in [originalSpriteSize] and sets a scale factor that is a number
    and is at most 1, whatever these integers are; the sprite, the frames,
    the current index and the canvas centre stay as they were. *)
Theorem calculateScaling_at_most_1 (r : state) (sp : Sprite) :
  sprite r = Some sp -> frames r <> [] ->
  (forall f, In f (frames r) -> sourceSize f <> None) ->
  exists k size,
    calculateScaling r =
      Some (with_scaleFactor k (with_originalSpriteSize size r)) /\
    maxSourceSize (frames r) 0 0 = Some size /\
    (forall f ss, In f (frames r) -> sourceSize f = Some ss ->
                  size_w ss <= fst size /\ size_h ss <= snd size) /\
    leb k (ofZ 1) = true /\ isNaN k = false.
Proof.
  intros Hsp Hfs Hall. unfold calculateScaling. rewrite Hsp.
  destruct (maxSourceSize_total (frames r) 0 0 Hall ltac:(lia) ltac:(lia))
    as (w & h & Hmax & _ & _ & Hbound & _).
  destruct (frames r) as [|f fs] eqn:E; [congruence|].
  rewrite Hmax. exists (scaleFor w h), (w, h).
  split; [reflexivity|]. split; [reflexivity|]. split; [exact Hbound|].
  pose proof (scaleFor_at_most_1 w h) as Hle. split; [exact Hle|].
  destruct (scaleFor w h); try reflexivity. discriminate.
Qed.

Lemma calculateScaling_at_most_1_witness :
  exists k size,
    calculateScaling exampleRenderer =
      Some (with_scaleFactor k (with_originalSpriteSize size exampleRenderer)) /\
    maxSourceSize (frames exampleRenderer) 0 0 = Some size /\
    (forall f ss, In f (frames exampleRenderer) -> sourceSize f = Some ss ->
                  size_w ss <= fst size /\ size_h ss <= snd size) /\
    leb k (ofZ 1) = true /\ isNaN k = false.
Proof.
  apply (calculateScaling_at_most_1 exampleRenderer
           (mkSprite (Int 0) (ofZ 400) (ofZ 300)) eq_refl).
  - discriminate.
  - intros f [<- | [<- | []]]; discriminate.
Defined.

Lemma scaleX_fits :
  forallb (fun w => oneOrMore (div (ofZ (800 - 40)) (ofZ w)))
          (FrameController.range 0 761) = true.
Proof. vm_compute. reflexivity. Qed.

Lemma scaleY_fits :
  forallb (fun h => oneOrMore (div (ofZ (600 - 40)) (ofZ h)))
          (FrameController.range 0 561) = true.
Proof. vm_compute. reflexivity. Qed.

(** X7. When no frame is larger than the canvas less its padding (760 by
    560), the scale factor is exactly 1: frames that fit are shown at their
    native size.  The largest source size is recorded in
    [originalSpriteSize]. *)
Theorem calculateScaling_native (r : state) (sp : Sprite) :
  sprite r = Some sp -> frames r <> [] ->
  (forall f, In f (frames r) ->
     exists ss, sourceSize f = Some ss /\
                size_w ss <= 760 /\ size_h ss <= 560) ->
  exists size,
    maxSourceSize (frames r) 0 0 = Some size /\
    calculateScaling r =
      Some (with_scaleFactor (ofZ 1) (with_originalSpriteSize size r)).
Proof.
  intros Hsp Hfs Hfit. unfold calculateScaling. rewrite Hsp.
  assert (Hall : forall f, In f (frames r) -> sourceSize f <> None).
  { intros f Hf. destruct (Hfit f Hf) as (ss & -> & _). discriminate. }
  destruct (maxSourceSize_total (frames r) 0 0 Hall ltac:(lia) ltac:(lia))
    as (w & h & Hmax & Hw0 & Hh0 & Hbound & _).
  assert (Hw : w <= 760 /\ h <= 560).
  { clear Hbound.
    assert (Hgen : forall fs mw mh w h,
      (forall f, In f fs ->
         exists ss, sourceSize f = Some ss /\
                    size_w ss <= 760 /\ size_h ss <= 560) ->
      mw <= 760 -> mh <= 560 ->
      maxSourceSize fs mw mh = Some (w, h) -> w <= 760 /\ h <= 560).
    { clear. induction fs as [|f fs IH]; intros mw mh w h Hfit Hmw Hmh Hmax.
      - cbn in Hmax. injection Hmax as <- <-. lia.
      - cbn [maxSourceSize] in Hmax.
        destruct (Hfit f (or_introl eq_refl)) as (ss & Hss & Hsw & Hsh).
        rewrite Hss in Hmax.
        apply (IH _ _ _ _ (fun g Hg => Hfit g (or_intror Hg))) in Hmax; lia. }
    apply (Hgen (frames r) 0 0 w h Hfit); [lia | lia | exact Hmax]. }
  exists (w, h). split; [exact Hmax|].
  destruct (frames r) as [|f fs] eqn:E; [congruence|].
  rewrite Hmax. do 2 f_equal. unfold scaleFor.
  apply NumberFacts.min2_one, NumberFacts.min2_oneOrMore.
  - pose proof scaleX_fits as Hx. rewrite forallb_forall in Hx.
    apply (Hx w), FrameControllerFacts.in_range. lia.
  - pose proof scaleY_fits as Hy. rewrite forallb_forall in Hy.
    apply (Hy h), FrameControllerFacts.in_range. lia.
Qed.

Lemma calculateScaling_native_witness :
  exists size,
    maxSourceSize (frames exampleRenderer) 0 0 = Some size /\
    calculateScaling exampleRenderer =
      Some (with_scaleFactor (ofZ 1)
              (with_originalSpriteSize size exampleRenderer)).
Proof.
  apply (calculateScaling_native exampleRenderer
           (mkSprite (Int 0) (ofZ 400) (ofZ 300)) eq_refl).
  - discriminate.
  - intros f [<- | [<- | []]]; eexists; (split; [reflexivity|]); cbn; lia.
Defined.

(** *** Showing frames *)

Lemma setFrame_shown (r : state) (sp : Sprite) (i : Z) :
  sprite r = Some sp -> 0 <= i < Z.of_nat (List.length (frames r)) ->
  exists f,
    nth_error (frames r) (Z.to_nat i) = Some f /\
    setFrame (Int i) r =
      (adjustSpritePosition f
         (with_sprite (Some (mkSprite (Int i) (sprite_x sp) (sprite_y sp)))
            (with_currentFrameIndex (Int i) r)),
       [OnFrameChanged (Int i) f]).
Proof.
  intros Hsp Hi.
  destruct (nth_error (frames r) (Z.to_nat i)) as [f|] eqn:Ef.
  - exists f. split; [reflexivity|]. unfold setFrame. rewrite Hsp.
    cbn [ltZ geZ].
    replace ((i <? 0) || (i >=? Z.of_nat (List.length (frames r))))
      with false by lia.
    cbn [frames with_sprite with_currentFrameIndex].
    now rewrite NumberFacts.item_Int, Ef by lia.
  - apply nth_error_None in Ef. lia.
Qed.

Lemma setFrame_fields (r : state) (sp : Sprite) (i : Z) :
  sprite r = Some sp -> 0 <= i < Z.of_nat (List.length (frames r)) ->
  currentFrameIndex (fst (setFrame (Int i) r)) = Int i /\
  frames (fst (setFrame (Int i) r)) = frames r /\
  (exists sp', sprite (fst (setFrame (Int i) r)) = Some sp' /\
               sprite_frame sp' = Int i).
Proof.
  intros Hsp Hi.
  destruct (setFrame_shown r sp i Hsp Hi) as (f & _ & ->). cbn [fst].
  unfold adjustSpritePosition. cbn [sprite with_sprite].
  destruct (spriteSourceSize f), (sourceSize f); cbn; eauto.
Qed.

(** X8. Showing the frame that is already shown changes nothing: the
    position of the sprite depends on the frame, the scale factor and the
    canvas centre only. *)
Theorem setFrame_idempotent (r : state) (i : integral) :
  setFrame i (fst (setFrame i r)) = setFrame i r.
Proof.
  destruct (sprite r) as [sp|] eqn:Hsp.
  2:{ unfold setFrame. rewrite Hsp. cbn [fst]. now rewrite Hsp. }
  destruct (ltZ i 0 || geZ i (Z.of_nat (List.length (frames r)))) eqn:Hguard.
  { unfold setFrame. rewrite Hsp, Hguard. cbn [fst]. now rewrite Hsp, Hguard. }
  destruct i as [k | | |]; try discriminate Hguard.
  2:{ unfold setFrame. rewrite Hsp. reflexivity. }
  cbn [ltZ geZ] in Hguard.
  assert (Hi : 0 <= k < Z.of_nat (List.length (frames r))) by lia.
  destruct (setFrame_shown r sp k Hsp Hi) as (f & Hf & Hset).
  destruct (setFrame_fields r sp k Hsp Hi) as (_ & Hframes & sp' & Hsp' & _).
  destruct (setFrame_shown (fst (setFrame (Int k) r)) sp' k Hsp'
              ltac:(rewrite Hframes; exact Hi)) as (f' & Hf' & Hset').
  rewrite Hframes, Hf in Hf'. injection Hf' as <-.
  rewrite Hset'. rewrite Hset in Hsp' |- *. cbn [fst] in *.
  f_equal. unfold adjustSpritePosition in *.
  cbn [sprite with_sprite with_currentFrameIndex canvasCenter scaleFactor
       frames currentFrameIndex originalSpriteSize] in *.
  destruct (spriteSourceSize f), (sourceSize f);
    cbn [sprite with_sprite] in Hsp'; injection Hsp' as <-; reflexivity.
Qed.

(** X9. With a sprite on a frame of the list, [nextFrame] moves to the
    following frame and wraps from the last to the first, [previousFrame]
    does the reverse, and each undoes the other. *)
Theorem renderer_steps (r : state) (sp : Sprite) (k : Z) :
  sprite r = Some sp ->
  currentFrameIndex r = Int k ->
  0 <= k < Z.of_nat (List.length (frames r)) ->
  currentFrameIndex (fst (nextFrame r)) =
    Int ((k + 1) mod Z.of_nat (List.length (frames r))) /\
  currentFrameIndex (fst (previousFrame r)) =
    Int ((k - 1) mod Z.of_nat (List.length (frames r))) /\
  currentFrameIndex (fst (previousFrame (fst (nextFrame r))))
    = currentFrameIndex r /\
  currentFrameIndex (fst (nextFrame (fst (previousFrame r))))
    = currentFrameIndex r.
Proof.
  intros Hsp Hk Hi.
  set (n := Z.of_nat (List.length (frames r))) in *.
  assert (Hnext : forall r sp k,
    sprite r = Some sp -> currentFrameIndex r = Int k ->
    0 <= k < Z.of_nat (List.length (frames r)) ->
    nextFrame r =
      setFrame (Int ((k + 1) mod Z.of_nat (List.length (frames r)))) r).
  { clear. intros r sp k Hsp Hk Hi. unfold nextFrame.
    destruct (frames r) eqn:E; [cbn in Hi; lia|]. rewrite <- E in *.
    rewrite Hk. cbn [plusZ remZ].
    replace (Z.of_nat (List.length (frames r)) =? 0) with false by lia.
    now rewrite Z.rem_mod_nonneg by lia. }
  assert (Hprev : forall r sp k,
    sprite r = Some sp -> currentFrameIndex r = Int k ->
    0 <= k < Z.of_nat (List.length (frames r)) ->
    previousFrame r =
      setFrame (Int ((k - 1) mod Z.of_nat (List.length (frames r)))) r).
  { clear. intros r sp k Hsp Hk Hi. unfold previousFrame.
    destruct (frames r) eqn:E; [cbn in Hi; lia|]. rewrite <- E in *.
    rewrite Hk. cbn [eqZ plusZ].
    destruct (Z.eqb_spec k 0) as [H0 | H0].
    - rewrite H0. do 2 f_equal. apply Z.mod_unique with (-1); lia.
    - do 2 f_equal. rewrite Z.mod_small by lia. lia. }
  assert (Hmod1 : 0 <= (k + 1) mod n < n)
    by (apply Z.mod_pos_bound; lia).
  assert (Hmod2 : 0 <= (k - 1) mod n < n)
    by (apply Z.mod_pos_bound; lia).
  rewrite (Hnext r sp k Hsp Hk Hi), (Hprev r sp k Hsp Hk Hi). fold n.
  destruct (setFrame_fields r sp _ Hsp Hmod1) as (Hi1 & Hf1 & sp1 & Hsp1 & _).
  destruct (setFrame_fields r sp _ Hsp Hmod2) as (Hi2 & Hf2 & sp2 & Hsp2 & _).
  split; [exact Hi1|]. split; [exact Hi2|]. split.
  - rewrite (Hprev _ sp1 _ Hsp1 Hi1) by (rewrite Hf1; exact Hmod1).
    rewrite Hf1. fold n.
    destruct (setFrame_fields (fst (setFrame (Int ((k + 1) mod n)) r))
                sp1 (((k + 1) mod n - 1) mod n) Hsp1)
      as (-> & _); [rewrite Hf1; apply Z.mod_pos_bound; lia|].
    rewrite Hk. f_equal.
    rewrite Zminus_mod_idemp_l.
    replace (k + 1 - 1) with k by lia.
    apply Z.mod_small. lia.
  - rewrite (Hnext _ sp2 _ Hsp2 Hi2) by (rewrite Hf2; exact Hmod2).
    rewrite Hf2. fold n.
    destruct (setFrame_fields (fst (setFrame (Int ((k - 1) mod n)) r))
                sp2 (((k - 1) mod n + 1) mod n) Hsp2)
      as (-> & _); [rewrite Hf2; apply Z.mod_pos_bound; lia|].
    rewrite Hk. f_equal.
    rewrite Zplus_mod_idemp_l.
    replace (k - 1 + 1) with k by lia.
    apply Z.mod_small. lia.
Qed.

Lemma renderer_steps_witness :
  currentFrameIndex (fst (nextFrame (fst (setFrame (Int 1) exampleRenderer))))
  = Int 0 /\
  currentFrameIndex
    (fst (previousFrame
            (fst (nextFrame (fst (setFrame (Int 1) exampleRenderer))))))
  = Int 1.
Proof.
  assert (Hk : currentFrameIndex (fst (setFrame (Int 1) exampleRenderer))
               = Int 1) by (vm_compute; reflexivity).
  assert (Hi : 0 <= 1
                 < Z.of_nat (List.length
                               (frames (fst (setFrame (Int 1) exampleRenderer)))))
    by (vm_compute; split; [discriminate | reflexivity]).
  destruct (sprite (fst (setFrame (Int 1) exampleRenderer))) as [sp|] eqn:Hsp;
    [|vm_compute in Hsp; discriminate Hsp].
  destruct (renderer_steps (fst (setFrame (Int 1) exampleRenderer)) sp 1
              Hsp Hk Hi)
    as (Hnext & _ & Hback & _).
  split; [exact Hnext | rewrite Hback; exact Hk].
Defined.

End SpriteRendererSteps.

(* ----------------------------------------------------------------- *)
(** ** The loader over time *)

Module AtlasLoaderSteps.

Import JS NaturalOrder AtlasLoader.

Local Open Scope string_scope.

(** *** What the validation accepts *)

Lemma requireFields_object (missing : string -> LoadError) (v : JValue)
  (k : string) (rest : list string) :
  requireFields missing v (k :: rest) = ret tt ->
  exists fields, v = JObj fields.
Proof.
  destruct v; cbn [requireFields hasField bind throw ret];
    try discriminate; eauto.
Qed.

Lemma requireFields_lookup (missing : string -> LoadError)
  (fields : list (string * JValue)) (required : list string) :
  requireFields missing (JObj fields) required = ret tt ->
  forall k, In k required -> lookup k fields <> None.
Proof.
  induction required as [|k required IH]; intros H k' Hk'; [destruct Hk'|].
  cbn [requireFields hasField] in H.
  destruct (lookup k fields) eqn:E; cbn [bind ret] in H; [|discriminate].
  destruct Hk' as [<- | Hk']; [congruence | now apply IH].
Qed.

Lemma numericSize (w h : JValue) :
  negb (negb (truthy w) || negb (truthy h) ||
        negb (isNumber w) || negb (isNumber h)) = true ->
  exists sw sh, w = JNum sw /\ h = JNum sh /\ sw <> 0%Z /\ sh <> 0%Z.
Proof.
  destruct w as [| | | sw | | |], h as [| | | sh | | |];
    cbn [truthy isNumber negb orb]; rewrite ?orb_true_r;
    try discriminate.
  destruct (Z.eqb_spec sw 0), (Z.eqb_spec sh 0); try discriminate.
  intros _. now exists sw, sh.
Qed.

Lemma accepted_header (data : JValue) :
  validateAtlasStructure data = ret tt ->
  exists items,
    validHeader data items /\ items <> [] /\ validateFrames items 0 = ret tt.
Proof.
  unfold validateAtlasStructure.
  destruct data as [| | b | n | s | rootItems | rootFields];
    cbn [truthy isObjectType andb get bind ret]; try discriminate.
  - now destruct b.
  - now destruct (negb (n =? 0)%Z).
  - now destruct (negb (String.eqb s "")).
  - destruct (lookup "textures" rootFields) as [tx|] eqn:Htex;
      cbn [bind ret]; [|discriminate].
    destruct tx as [| | | | | [|texture others] |]; try discriminate.
    unfold validateTextureStructure.
    destruct (requireFields TextureMissingField texture
                ["image"; "size"; "frames"]) as [e | []] eqn:Hreq;
      cbn [bind]; [discriminate|].
    destruct (requireFields_object _ _ _ _ Hreq) as (textureFields & ->).
    pose proof (requireFields_lookup _ _ _ Hreq) as Hfields.
    cbn [get].
    destruct (lookup "size" textureFields) as [sizeV|] eqn:Hsize;
      [|now destruct (Hfields "size"); [right; left|]].
    destruct (lookup "frames" textureFields) as [framesV|] eqn:Hframes;
      [|now destruct (Hfields "frames"); [right; right; left|]].
    cbn [bind ret].
    destruct (get sizeV "w") as [e | w] eqn:Hw; cbn [bind]; [discriminate|].
    destruct (get sizeV "h") as [e | h] eqn:Hh; cbn [bind]; [discriminate|].
    destruct (negb _) eqn:Hcheck; [|discriminate].
    destruct (numericSize _ _ Hcheck) as (sw & sh & -> & -> & Hsw & Hsh).
    intros Hok.
    destruct framesV as [| | | | | [|item items] |]; try discriminate.
    exists (item :: items). split; [|split; [discriminate | exact Hok]].
    exists rootFields, others, textureFields, sizeV, sw, sh.
    repeat split; try assumption.
    apply Hfields. now left.
Qed.

(** X10. The structural validation accepts exactly the manifests whose root
    is an object, whose [textures] is an array with a first element that is
    an object with the fields [image], [size] and [frames], whose size has
    a width and a height that are numbers other than zero, and whose frames
    are a non-empty array of records that each pass the validation of a
    frame.  The texture sheets after the first are not looked at. *)
Theorem validateAtlasStructure_accepts (data : JValue) :
  validateAtlasStructure data = ret tt <->
  exists items,
    validHeader data items /\ items <> [] /\ validateFrames items 0 = ret tt.
Proof.
  split.
  - apply accepted_header.
  - intros (items & Hheader & Hne & Hframes).
    rewrite (AtlasLoaderFacts.validHeader_validate _ _ Hheader).
    destruct items; [contradiction | exact Hframes].
Qed.

(** *** The registry of object URLs *)

Lemma asAtlasData_single (raw : JValue) (d : AtlasData) :
  asAtlasData raw = Some d -> exists t, d = mkAtlasData [t].
Proof.
  unfold asAtlasData.
  destruct (field raw "textures") as [| | | | | [|texture ?] |];
    try discriminate.
  destruct (asTextureData texture); [|discriminate].
  intros [= <-]. eauto.
Qed.

Lemma filter_fresh (url : nat) (l : list nat) :
  Forall (fun u => (u < url)%nat) l ->
  filter (fun u => negb (Nat.eqb u url)) l = l.
Proof.
  induction 1 as [|u l Hu _ IH]; cbn [filter]; [reflexivity|].
  rewrite (proj2 (Nat.eqb_neq u url)) by lia. cbn [negb]. now f_equal.
Qed.

Lemma wellFormed_create (w : World) :
  wellFormed w -> wellFormed (snd (createObjectURL w)).
Proof.
  unfold wellFormed. cbn [createObjectURL snd objectURLs nextURL].
  intros H. constructor; [lia|].
  eapply Forall_impl; [|exact H]. cbn. intros; lia.
Qed.

Lemma wellFormed_revoke (url : nat) (w : World) :
  wellFormed w -> wellFormed (revokeObjectURL url w).
Proof.
  unfold wellFormed. cbn [revokeObjectURL objectURLs nextURL].
  intros H. apply Forall_forall. intros u Hu.
  apply filter_In in Hu. destruct Hu as [Hu _].
  revert u Hu. now apply Forall_forall.
Qed.

Lemma validateTextureImage_world (tex : TextureFile) (d : AtlasData)
  (w : World) :
  wellFormed w ->
  objectURLs (snd (validateTextureImage tex d w)) = objectURLs w /\
  nextURL (snd (validateTextureImage tex d w)) = S (nextURL w).
Proof.
  intros Hw. unfold validateTextureImage. cbn [createObjectURL].
  assert (Hfilter :
    filter (fun u => negb (Nat.eqb u (nextURL w))) (nextURL w :: objectURLs w)
    = objectURLs w).
  { cbn [filter]. rewrite Nat.eqb_refl. cbn [negb]. now apply filter_fresh. }
  destruct (decoded tex) as [[width height]|].
  - destruct (sizeMismatch _ width height);
      cbn [snd revokeObjectURL warn objectURLs nextURL]; now split.
  - cbn [snd revokeObjectURL objectURLs nextURL]. now split.
Qed.

Lemma cleanup_state (s : state) (w : World) :
  loadedAtlas (fst (cleanup s w)) = None.
Proof.
  unfold cleanup. destruct (loadedAtlas s) eqn:E; [reflexivity | exact E].
Qed.

Lemma cleanup_world (s : state) (w : World) :
  snd (cleanup s w) =
    match loadedAtlas s with
    | Some atlas => revokeObjectURL (textureURL atlas) w
    | None => w
    end.
Proof. unfold cleanup. now destruct (loadedAtlas s). Qed.

Lemma wellFormed_cleanup (s : state) (w : World) :
  wellFormed w -> wellFormed (snd (cleanup s w)).
Proof.
  rewrite cleanup_world. destruct (loadedAtlas s); [|easy].
  apply wellFormed_revoke.
Qed.

(** The three ways a load ends. *)
Lemma loadAtlas_cases (col : Collation) (tex : TextureFile) (file : AtlasFile)
  (s : state) (w : World) (result : Exc LoadedAtlas) (s' : state) (w' : World) :
  loadAtlas col tex file s w = Some (result, s', w') ->
  (exists e,
     parseAtlasJSON file = throw e /\ result = throw e /\
     s' = fst (cleanup s w) /\ w' = snd (cleanup s w)) \/
  (exists raw t,
     parseAtlasJSON file = ret raw /\
     asAtlasData raw = Some (mkAtlasData [t]) /\
     let v := validateTextureImage tex (mkAtlasData [t])
                (snd (createObjectURL w)) in
     (exists e,
        fst v = throw e /\ result = throw e /\
        s' = fst (cleanup s (snd v)) /\ w' = snd (cleanup s (snd v))) \/
     (let sortedFrames := sortBy (compareFrames col) (frames t) in
      let atlas :=
        mkLoadedAtlas raw (nextURL w) (List.length sortedFrames)
                      sortedFrames in
      fst v = ret tt /\ result = ret atlas /\
      s' = mkState (Some atlas) /\ w' = snd v)).
Proof.
  destruct (parseAtlasJSON file) as [e | raw] eqn:Hparse.
  - unfold loadAtlas. rewrite Hparse. destruct (cleanup s w) as [s1 w1].
    intros [= <- <- <-]. left. now exists e.
  - destruct (asAtlasData raw) as [d|] eqn:Htyped.
    2:{ unfold loadAtlas. rewrite Hparse. cbn [createObjectURL].
        now rewrite Htyped. }
    destruct (asAtlasData_single _ _ Htyped) as (t & ->).
    rewrite (AtlasLoaderFacts.loadAtlas_parsed col tex file raw t s w
               Hparse Htyped).
    cbn zeta. intros H. right. exists raw, t.
    split; [reflexivity|]. split; [exact Htyped|]. cbn zeta.
    destruct (validateTextureImage tex (mkAtlasData [t])
                (snd (createObjectURL w))) as [[e | []] w2].
    + left. exists e. injection H as <- <- <-. now cbn [fst snd].
    + right. injection H as <- <- <-. now cbn [fst snd].
Qed.

Lemma parseAtlasJSON_valid (file : AtlasFile) (raw : JValue) :
  parseAtlasJSON file = ret raw -> validateAtlasStructure raw = ret tt.
Proof.
  unfold parseAtlasJSON. destruct (parsed file) as [data|]; [|discriminate].
  destruct (validateAtlasStructure data) as [e | []] eqn:E; cbn [bind];
    [discriminate|].
  now intros [= <-].
Qed.

Lemma asFrames_length (items : list JValue) :
  forall fs, asFrames items = Some fs -> List.length fs = List.length items.
Proof.
  induction items as [|v items IH]; intros fs; cbn [asFrames].
  - now intros [= <-].
  - destruct (asFrameData v); [|discriminate].
    destruct (asFrames items) as [fs'|]; [|discriminate].
    intros [= <-]. cbn [List.length]. f_equal. now apply IH.
Qed.

Lemma typed_frames_length (raw : JValue) (items : list JValue)
  (t : TextureData) :
  validHeader raw items ->
  asAtlasData raw = Some (mkAtlasData [t]) ->
  List.length (frames t) = List.length items.
Proof.
  intros (rootFields & others & textureFields & sizeV & sw & sh & -> & Htex
          & _ & _ & _ & _ & _ & _ & Hframes).
  unfold asAtlasData. cbn [field]. rewrite Htex.
  unfold asTextureData. cbn [field]. rewrite Hframes.
  destruct (asSize _); [|discriminate].
  destruct (asFrames items) as [fs|] eqn:E; [|discriminate].
  intros [= <-]. cbn [frames]. now apply asFrames_length.
Qed.

Lemma sortBy_length {A : Type} (cmp : A -> A -> comparison) (l : list A) :
  List.length (sortBy cmp l) = List.length l.
Proof.
  symmetry. apply Permutation_length.
  induction l as [|x l IH]; [constructor|].
  cbn [sortBy fold_right]. fold (sortBy cmp l).
  transitivity (x :: sortBy cmp l); [now constructor|].
  generalize (sortBy cmp l). clear. intros l.
  induction l as [|y l IH]; cbn [insertBy]; [reflexivity|].
  destruct (cmp x y); try reflexivity.
  transitivity (y :: x :: l); [constructor | now constructor].
Qed.

Lemma Reachable_inv (col : Collation) (s : state) (w : World) :
  Reachable col s w ->
  wellFormed w /\
  forall atlas,
    loadedAtlas s = Some atlas ->
    In (textureURL atlas) (objectURLs w) /\
    totalFrames atlas = List.length (loadedFrames atlas) /\
    (1 <= totalFrames atlas)%nat /\
    validateAtlasStructure (data atlas) = ret tt.
Proof.
  induction 1 as [| tex file s w result s' w' _ [IHw IHs] Hload
                  | s w _ [IHw IHs]].
  - split; [constructor | discriminate].
  - apply loadAtlas_cases in Hload.
    destruct Hload as [(e & _ & _ & -> & ->) | (raw & t & Hparse & Htyped & Hv)].
    + split; [now apply wellFormed_cleanup|].
      now rewrite cleanup_state.
    + cbn zeta in Hv.
      pose proof (wellFormed_create w IHw) as Hw1.
      destruct (validateTextureImage_world tex (mkAtlasData [t]) _ Hw1)
        as [Hurls Hnext].
      assert (Hw2 : wellFormed
                (snd (validateTextureImage tex (mkAtlasData [t])
                        (snd (createObjectURL w))))).
      { unfold wellFormed. rewrite Hurls, Hnext.
        eapply Forall_impl; [|exact Hw1]. cbn. intros; lia. }
      destruct Hv as [(e & _ & _ & -> & ->) | (_ & _ & -> & ->)].
      * split; [now apply wellFormed_cleanup|].
        now rewrite cleanup_state.
      * split; [exact Hw2|].
        cbn [loadedAtlas]. intros atlas [= <-].
        cbn [textureURL totalFrames loadedFrames data].
        rewrite Hurls. cbn [createObjectURL snd objectURLs].
        split; [now left|]. split; [reflexivity|].
        pose proof (parseAtlasJSON_valid _ _ Hparse) as Hvalid.
        split; [|exact Hvalid].
        destruct (accepted_header _ Hvalid) as (items & Hheader & Hne & _).
        rewrite sortBy_length, (typed_frames_length _ _ _ Hheader Htyped).
        destruct items; [contradiction | cbn; lia].
  - split; [now apply wellFormed_cleanup|].
    now rewrite cleanup_state.
Qed.

Lemma getFrameData_nth (index : Z) (s : state) (atlas : LoadedAtlas) :
  loadedAtlas s = Some atlas ->
  totalFrames atlas = List.length (loadedFrames atlas) ->
  getFrameData (Number.Int index) s =
    if ((0 <=? index) && (index <? Z.of_nat (List.length (loadedFrames atlas))))%Z
    then nth_error (loadedFrames atlas) (Z.to_nat index)
    else None.
Proof.
  intros Hs Hlen. unfold getFrameData. rewrite Hs, Hlen.
  cbn [Number.ltZ Number.geZ Number.item].
  destruct (Z.ltb_spec index 0), (Z.leb_spec 0 index); try lia;
    cbn [orb andb]; [reflexivity|].
  unfold Z.geb.
  destruct (Z.ltb_spec index (Z.of_nat (List.length (loadedFrames atlas))));
    destruct (Z.compare_spec index
                (Z.of_nat (List.length (loadedFrames atlas))));
    try lia; reflexivity.
Qed.

(** X11. After any sequence of loads and cleanups, the atlas the loader
    holds, if any, has an object URL that is still registered with the
    host, at least one frame, as many frames as [totalFrames] says, and a
    frame at every index from 0 to [totalFrames - 1]. *)
Theorem reachable_loader (col : Collation) (s : state) (w : World) :
  Reachable col s w ->
  forall atlas,
    loadedAtlas s = Some atlas ->
    In (textureURL atlas) (objectURLs w) /\
    (1 <= totalFrames atlas)%nat /\
    totalFrames atlas = List.length (loadedFrames atlas) /\
    forall index,
      0 <= index < Z.of_nat (totalFrames atlas) ->
      exists f, getFrameData (Number.Int index) s = Some f /\
                In f (loadedFrames atlas).
Proof.
  intros Hreach atlas Hs.
  destruct (Reachable_inv col s w Hreach) as [_ Hinv].
  destruct (Hinv atlas Hs) as (Hurl & Hlen & Hpos & _).
  split; [exact Hurl|]. split; [exact Hpos|]. split; [exact Hlen|].
  intros index Hindex.
  rewrite (getFrameData_nth index s atlas Hs Hlen).
  rewrite Hlen in Hindex.
  rewrite (proj2 (Z.leb_le 0 index)), (proj2 (Z.ltb_lt _ _)) by lia.
  cbn [andb].
  destruct (nth_error (loadedFrames atlas) (Z.to_nat index)) as [f|] eqn:E.
  - exists f. split; [reflexivity|]. eapply nth_error_In, E.
  - apply nth_error_None in E. lia.
Qed.

Lemma reachable_loader_witness :
  exists atlas s' w',
    loadAtlas asciiBase (imageFile 64 64)
      (manifestFile 64 64 [frameValue "hero.png" 0 0 32 32]) fresh emptyWorld
    = Some (ret atlas, s', w') /\
    In (textureURL atlas) (objectURLs w') /\
    (1 <= totalFrames atlas)%nat.
Proof.
  eexists _, _, _. split; [vm_compute; reflexivity|].
  pose proof (reachable_loader asciiBase _ _
                (Reachable_load asciiBase (imageFile 64 64)
                   (manifestFile 64 64 [frameValue "hero.png" 0 0 32 32])
                   fresh emptyWorld _ _ _ (Reachable_fresh asciiBase) eq_refl)
                _ eq_refl) as (Hurl & Hpos & _).
  split; [exact Hurl | exact Hpos].
Defined.

Lemma successful_load_fields (col : Collation) (tex : TextureFile)
  (file : AtlasFile) (s : state) (w : World) (atlas : LoadedAtlas)
  (s' : state) (w' : World) :
  wellFormed w ->
  loadAtlas col tex file s w = Some (inr atlas, s', w') ->
  loadedAtlas s' = Some atlas /\
  ~ In (textureURL atlas) (objectURLs w) /\
  objectURLs w' = textureURL atlas :: objectURLs w.
Proof.
  intros Hw Hload. apply loadAtlas_cases in Hload.
  destruct Hload as [(e & _ & [=] & _) | (raw & t & _ & _ & Hv)].
  cbn zeta in Hv.
  destruct Hv as [(e & _ & [=] & _) | (_ & [= ->] & -> & ->)].
  destruct (validateTextureImage_world tex (mkAtlasData [t]) _
              (wellFormed_create w Hw)) as [Hurls _].
  rewrite Hurls. cbn [loadedAtlas textureURL createObjectURL snd objectURLs].
  split; [reflexivity|]. split; [|reflexivity].
  intros Hin. unfold wellFormed in Hw.
  rewrite Forall_forall in Hw. specialize (Hw _ Hin). lia.
Qed.

(** X12. A load that succeeds registers one object URL, that of the atlas
    it returns, and revokes none of those registered before: the URL of
    the atlas the loader held before the load stays registered, and the
    loader holds the new atlas in its place. *)
Theorem successful_load_registry (col : Collation) (tex : TextureFile)
  (file : AtlasFile) (s : state) (w : World) (atlas : LoadedAtlas)
  (s' : state) (w' : World) :
  wellFormed w ->
  loadAtlas col tex file s w = Some (ret atlas, s', w') ->
  loadedAtlas s' = Some atlas /\
  ~ In (textureURL atlas) (objectURLs w) /\
  objectURLs w' = textureURL atlas :: objectURLs w /\
  forall old,
    loadedAtlas s = Some old ->
    In (textureURL old) (objectURLs w) ->
    In (textureURL old) (objectURLs w') /\ textureURL old <> textureURL atlas.
Proof.
  intros Hw Hload. apply loadAtlas_cases in Hload.
  destruct Hload as [(e & _ & [=] & _) | (raw & t & _ & _ & Hv)].
  cbn zeta in Hv.
  destruct Hv as [(e & _ & [=] & _) | (_ & [= ->] & -> & ->)].
  destruct (validateTextureImage_world tex (mkAtlasData [t]) _
              (wellFormed_create w Hw)) as [Hurls _].
  rewrite Hurls. cbn [loadedAtlas textureURL createObjectURL snd objectURLs].
  assert (Hfresh : ~ In (nextURL w) (objectURLs w)).
  { intros Hin. unfold wellFormed in Hw.
    rewrite Forall_forall in Hw. specialize (Hw _ Hin). lia. }
  split; [reflexivity|]. split; [exact Hfresh|]. split; [reflexivity|].
  intros old _ Hold. split; [now right|].
  intros Heq. apply Hfresh. now rewrite <- Heq.
Qed.

Lemma successful_load_registry_witness :
  exists atlas s' w',
    loadAtlas asciiBase (imageFile 64 64)
      (manifestFile 64 64 [frameValue "hero.png" 0 0 32 32])
      (mkState (Some (mkLoadedAtlas JNull 0 0 []))) (mkWorld [0%nat] 1 [])
    = Some (ret atlas, s', w') /\
    objectURLs w' = [1%nat; 0%nat].
Proof.
  eexists _, _, _. split; [vm_compute; reflexivity|].
  assert (Hw : wellFormed (mkWorld [0%nat] 1 []))
    by (repeat constructor).
  destruct (successful_load_registry asciiBase (imageFile 64 64)
              (manifestFile 64 64 [frameValue "hero.png" 0 0 32 32])
              (mkState (Some (mkLoadedAtlas JNull 0 0 [])))
              (mkWorld [0%nat] 1 []) _ _ _ Hw eq_refl)
    as (_ & _ & Hurls & _).
  exact Hurls.
Defined.

(** X13. A load that is rejected, for whatever reason, leaves the loader
    without an atlas: the atlas it held before is dropped and its object
    URL revoked, and [getFrameData] returns nothing at every index. *)
Theorem rejected_load_drops_atlas (col : Collation) (tex : TextureFile)
  (file : AtlasFile) (s : state) (w : World) (e : LoadError)
  (s' : state) (w' : World) :
  loadAtlas col tex file s w = Some (throw e, s', w') ->
  loadedAtlas s' = None /\
  (forall index, getFrameData index s' = None) /\
  forall old,
    loadedAtlas s = Some old -> ~ In (textureURL old) (objectURLs w').
Proof.
  intros Hload. apply loadAtlas_cases in Hload.
  assert (Hcleanup : forall w0,
    s' = fst (cleanup s w0) -> w' = snd (cleanup s w0) ->
    loadedAtlas s' = None /\
    (forall index, getFrameData index s' = None) /\
    forall old,
      loadedAtlas s = Some old -> ~ In (textureURL old) (objectURLs w')).
  { intros w0 -> ->. split; [apply cleanup_state|]. split.
    - intros index. unfold getFrameData. now rewrite cleanup_state.
    - intros old Hold. rewrite cleanup_world, Hold.
      cbn [revokeObjectURL objectURLs]. intros Hin.
      apply filter_In in Hin. destruct Hin as [_ Hne].
      now rewrite Nat.eqb_refl in Hne. }
  destruct Hload as [(e' & _ & _ & Hs & Hw) | (raw & t & _ & _ & Hv)].
  - exact (Hcleanup _ Hs Hw).
  - cbn zeta in Hv.
    destruct Hv as [(e' & _ & _ & Hs & Hw) | (_ & [=] & _)].
    exact (Hcleanup _ Hs Hw).
Qed.

Lemma rejected_load_drops_atlas_witness :
  exists s' w',
    loadAtlas asciiBase (mkTextureFile None)
      (manifestFile 64 64 [frameValue "hero.png" 0 0 32 32])
      (mkState (Some (mkLoadedAtlas JNull 0 0 []))) (mkWorld [0%nat] 1 [])
    = Some (throw ImageLoadFailed, s', w') /\
    loadedAtlas s' = None /\ ~ In 0%nat (objectURLs w').
Proof.
  eexists _, _. split; [vm_compute; reflexivity|].
  destruct (rejected_load_drops_atlas asciiBase (mkTextureFile None)
              (manifestFile 64 64 [frameValue "hero.png" 0 0 32 32])
              (mkState (Some (mkLoadedAtlas JNull 0 0 [])))
              (mkWorld [0%nat] 1 []) _ _ _ eq_refl)
    as (Hnone & _ & Hold).
  split; [exact Hnone | exact (Hold _ eq_refl)].
Defined.

(** X14. When the manifest has passed the validation and the load is then
    rejected (the image does not decode, or a frame reaches beyond it), the
    object URL the load created for the texture stays registered, and the
    loader, which holds no atlas, has no record of it: a later [cleanup]
    leaves it registered. *)
Theorem rejected_load_leaks_url (col : Collation) (tex : TextureFile)
  (file : AtlasFile) (raw : JValue) (s : state) (w : World) (e : LoadError)
  (s' : state) (w' : World) :
  Reachable col s w ->
  parseAtlasJSON file = ret raw ->
  loadAtlas col tex file s w = Some (throw e, s', w') ->
  ~ In (nextURL w) (objectURLs w) /\
  In (nextURL w) (objectURLs w') /\
  In (nextURL w) (objectURLs (snd (cleanup s' w'))).
Proof.
  intros Hreach Hparse Hload.
  destruct (Reachable_inv col s w Hreach) as [Hw Hinv].
  assert (Hfresh : forall u, In u (objectURLs w) -> u <> nextURL w).
  { intros u Hin. unfold wellFormed in Hw.
    rewrite Forall_forall in Hw. specialize (Hw _ Hin). lia. }
  split; [intros Hin; now apply (Hfresh _ Hin)|].
  apply loadAtlas_cases in Hload.
  destruct Hload as [(e' & Hfail & _) | (raw' & t & _ & _ & Hv)];
    [unfold ret, throw in *; congruence|].
  cbn zeta in Hv.
  destruct Hv as [(e' & _ & _ & -> & ->) | (_ & [=] & _)].
  destruct (validateTextureImage_world tex (mkAtlasData [t]) _
              (wellFormed_create w Hw)) as [Hurls _].
  assert (Hin : In (nextURL w)
                  (objectURLs (snd (cleanup s
                     (snd (validateTextureImage tex (mkAtlasData [t])
                             (snd (createObjectURL w)))))))).
  { rewrite cleanup_world. destruct (loadedAtlas s) as [old|] eqn:Hold.
    - cbn [revokeObjectURL objectURLs]. rewrite Hurls.
      cbn [createObjectURL snd objectURLs].
      apply filter_In. split; [now left|].
      destruct (Hinv old eq_refl) as (Hreg & _).
      apply negb_true_iff, Nat.eqb_neq. intros Heq.
      apply (Hfresh _ Hreg). now symmetry.
    - rewrite Hurls. now left. }
  split; [exact Hin|].
  rewrite (cleanup_world (fst _)), cleanup_state. exact Hin.
Qed.

Lemma rejected_load_leaks_url_witness :
  exists s' w',
    loadAtlas asciiBase (mkTextureFile None)
      (manifestFile 64 64 [frameValue "hero.png" 0 0 32 32]) fresh emptyWorld
    = Some (throw ImageLoadFailed, s', w') /\
    In 0%nat (objectURLs (snd (cleanup s' w'))).
Proof.
  eexists _, _. split; [vm_compute; reflexivity|].
  destruct (rejected_load_leaks_url asciiBase (mkTextureFile None)
              (manifestFile 64 64 [frameValue "hero.png" 0 0 32 32])
              _ fresh emptyWorld _ _ _
              (Reachable_fresh asciiBase) eq_refl eq_refl)
    as (_ & _ & Hleak).
  exact Hleak.
Defined.

(** *** The frames of a loaded atlas *)

(** X15. After a load that succeeds, [getFrameData] returns the frames of
    the first texture sheet of the manifest and no other: each of them at
    some index, a frame at every index from 0 to their number less one,
    and nothing at any other index, whatever the loader held before. *)
Theorem getFrameData_after_load (col : Collation) (tex : TextureFile)
  (file : AtlasFile) (raw : JValue) (t : TextureData) (s : state) (w : World)
  (atlas : LoadedAtlas) (s' : state) (w' : World) :
  parseAtlasJSON file = ret raw ->
  asAtlasData raw = Some (mkAtlasData [t]) ->
  loadAtlas col tex file s w = Some (ret atlas, s', w') ->
  (forall f,
     In f (frames t) <->
     exists index, getFrameData (Number.Int index) s' = Some f) /\
  (forall index,
     getFrameData (Number.Int index) s' = None <->
     index < 0 \/ Z.of_nat (List.length (frames t)) <= index).
Proof.
  intros Hparse Htyped Hload. apply loadAtlas_cases in Hload.
  destruct Hload as [(e & _ & [=] & _) | (raw' & t' & Hparse' & Htyped' & Hv)].
  assert (raw' = raw) as -> by (unfold ret in *; congruence).
  assert (t' = t) as -> by congruence.
  cbn zeta in Hv.
  destruct Hv as [(e & _ & [=] & _) | (_ & _ & -> & _)].
  set (sorted := sortBy (compareFrames col) (frames t)).
  assert (Hperm : Permutation (frames t) sorted)
    by apply NaturalOrderFacts.sortBy_Permutation.
  assert (Hget : forall index,
    getFrameData (Number.Int index)
      (mkState (Some (mkLoadedAtlas raw (nextURL w)
                                         (List.length sorted) sorted))) =
    if ((0 <=? index) && (index <? Z.of_nat (List.length sorted)))%Z
    then nth_error sorted (Z.to_nat index) else None).
  { intros index.
    exact (getFrameData_nth index
             (mkState (Some (mkLoadedAtlas raw (nextURL w)
                               (List.length sorted) sorted)))
             (mkLoadedAtlas raw (nextURL w) (List.length sorted) sorted)
             eq_refl eq_refl). }
  split.
  - intros f. split.
    + intros Hin. apply (Permutation_in _ Hperm) in Hin.
      apply In_nth_error in Hin. destruct Hin as [n Hn].
      exists (Z.of_nat n). rewrite Hget, Nat2Z.id, Hn.
      assert (n < List.length sorted)%nat
        by (apply nth_error_Some; congruence).
      rewrite (proj2 (Z.leb_le 0 _)), (proj2 (Z.ltb_lt _ _)) by lia.
      reflexivity.
    + intros [index Hindex]. rewrite Hget in Hindex.
      destruct (_ && _)%bool; [|discriminate].
      apply (Permutation_in _ (Permutation_sym Hperm)).
      eapply nth_error_In, Hindex.
  - intros index. rewrite Hget, (Permutation_length Hperm).
    destruct (Z.leb_spec 0 index), (Z.ltb_spec index
                                      (Z.of_nat (List.length sorted)));
      cbn [andb]; try (split; [lia | reflexivity]);
      try (split; [reflexivity | lia]).
    split; [|lia]. intros Hnone. apply nth_error_None in Hnone. lia.
Qed.

Lemma getFrameData_after_load_witness :
  exists atlas s' w',
    loadAtlas asciiBase (imageFile 64 64)
      (manifestFile 64 64
         [frameValue "b.png" 0 0 8 8; frameValue "a.png" 8 0 8 8])
      fresh emptyWorld
    = Some (ret atlas, s', w') /\
    getFrameData (Number.Int 2) s' = None.
Proof.
  eexists _, _, _. split; [vm_compute; reflexivity|].
  apply (proj2 (getFrameData_after_load asciiBase (imageFile 64 64)
                  (manifestFile 64 64
                     [frameValue "b.png" 0 0 8 8; frameValue "a.png" 8 0 8 8])
                  _ _ fresh emptyWorld _ _ _ eq_refl eq_refl eq_refl) 2).
  right. cbn. lia.
Defined.

(** X16. [cleanup] leaves the loader without an atlas, so that
    [getFrameData] and [getFrameNames] return nothing; it revokes the
    object URL of the atlas the loader held and no other, registers none,
    and a second [cleanup] changes nothing. *)
Theorem cleanup_releases (s : state) (w : World) :
  loadedAtlas (fst (cleanup s w)) = None /\
  (forall index, getFrameData index (fst (cleanup s w)) = None) /\
  getFrameNames (fst (cleanup s w)) = [] /\
  (forall atlas,
     loadedAtlas s = Some atlas ->
     ~ In (textureURL atlas) (objectURLs (snd (cleanup s w)))) /\
  (forall url,
     In url (objectURLs (snd (cleanup s w))) <->
     In url (objectURLs w) /\
     forall atlas, loadedAtlas s = Some atlas -> url <> textureURL atlas) /\
  cleanup (fst (cleanup s w)) (snd (cleanup s w)) = cleanup s w.
Proof.
  split; [apply cleanup_state|]. split; [|split; [|split; [|split]]].
  - intros index. unfold getFrameData. now rewrite cleanup_state.
  - unfold getFrameNames. now rewrite cleanup_state.
  - intros atlas Hs. rewrite cleanup_world, Hs.
    cbn [revokeObjectURL objectURLs]. intros Hin.
    apply filter_In in Hin. destruct Hin as [_ Hne].
    now rewrite Nat.eqb_refl in Hne.
  - intros url. rewrite cleanup_world.
    destruct (loadedAtlas s) as [atlas|].
    + cbn [revokeObjectURL objectURLs]. rewrite filter_In.
      rewrite negb_true_iff, Nat.eqb_neq. split.
      * intros [Hin Hne]. split; [exact Hin|]. now intros ? [= <-].
      * intros [Hin Hne]. split; [exact Hin | now apply Hne].
    + split; [intros Hin; split; [exact Hin | discriminate] | now intros []].
  - unfold cleanup at 1. rewrite cleanup_state.
    now destruct (cleanup s w).
Qed.

(** *** The order of the manifest *)

Section Unique.

Context {A : Type} (cmp : A -> A -> comparison).

Lemma sorted_unique (l1 : list A) :
  forall l2,
    StronglySorted (notAfter cmp) l1 -> StronglySorted (notAfter cmp) l2 ->
    Permutation l1 l2 ->
    (forall a b,
       In a l1 -> In b l1 -> notAfter cmp a b -> notAfter cmp b a -> a = b) ->
    l1 = l2.
Proof.
  induction l1 as [|x l1 IH]; intros l2 H1 H2 Hperm Hties.
  - now apply Permutation_nil in Hperm.
  - destruct l2 as [|y l2];
      [now apply Permutation_sym, Permutation_nil in Hperm|].
    apply StronglySorted_inv in H1. destruct H1 as [H1 Hx].
    apply StronglySorted_inv in H2. destruct H2 as [H2 Hy].
    rewrite Forall_forall in Hx, Hy.
    assert (Hinx : In x (y :: l2))
      by (apply (Permutation_in _ Hperm); now left).
    assert (Hiny : In y (x :: l1))
      by (apply (Permutation_in _ (Permutation_sym Hperm)); now left).
    assert (x = y) as <-.
    { destruct Hinx as [-> | Hinx]; [reflexivity|].
      destruct Hiny as [-> | Hiny]; [reflexivity|].
      apply Hties; [now left | now right | now apply Hx | now apply Hy]. }
    f_equal. apply IH; [exact H1 | exact H2 | |].
    + now apply Permutation_cons_inv in Hperm.
    + intros a b Ha Hb. apply Hties; now right.
Qed.

End Unique.

Lemma compareFrames_antisym (col : Collation) (a b : FrameData) :
  compareFrames col a b <> Gt -> compareFrames col b a <> Gt ->
  compareFrames col a b = Eq.
Proof.
  unfold compareFrames, localeCompare.
  rewrite (NaturalOrderFacts.compareKeys_antisym
             (keys col (filename a)) (keys col (filename b))).
  destruct (compareKeys _ _); cbn [CompOpp]; congruence.
Qed.

(** X17. The order of the frames in the manifest does not show in what is
    loaded, as long as no two frames have names that compare equal: two
    manifests with the same frames in two orders load to the same list of
    frames, and [getFrameData] returns the same frame at every index. *)
Theorem load_order_independent (col : Collation)
  (tex1 tex2 : TextureFile) (file1 file2 : AtlasFile) (raw1 raw2 : JValue)
  (t1 t2 : TextureData) (s1 s2 : state) (w1 w2 : World)
  (atlas1 atlas2 : LoadedAtlas) (s1' s2' : state) (w1' w2' : World) :
  parseAtlasJSON file1 = ret raw1 ->
  asAtlasData raw1 = Some (mkAtlasData [t1]) ->
  parseAtlasJSON file2 = ret raw2 ->
  asAtlasData raw2 = Some (mkAtlasData [t2]) ->
  Permutation (frames t1) (frames t2) ->
  (forall a b,
     In a (frames t1) -> In b (frames t1) ->
     compareFrames col a b = Eq -> a = b) ->
  loadAtlas col tex1 file1 s1 w1 = Some (ret atlas1, s1', w1') ->
  loadAtlas col tex2 file2 s2 w2 = Some (ret atlas2, s2', w2') ->
  loadedFrames atlas1 = loadedFrames atlas2 /\
  totalFrames atlas1 = totalFrames atlas2 /\
  forall index, getFrameData index s1' = getFrameData index s2'.
Proof.
  intros Hparse1 Htyped1 Hparse2 Htyped2 Hperm Hties Hload1 Hload2.
  assert (Hsorted :
    sortBy (compareFrames col) (frames t1)
    = sortBy (compareFrames col) (frames t2)).
  { apply (sorted_unique (compareFrames col)).
    - apply (NaturalOrderFacts.sortBy_StronglySorted (compareFrames col)
               (AtlasLoaderFacts.compareFrames_total col)
               (AtlasLoaderFacts.compareFrames_trans col)).
    - apply (NaturalOrderFacts.sortBy_StronglySorted (compareFrames col)
               (AtlasLoaderFacts.compareFrames_total col)
               (AtlasLoaderFacts.compareFrames_trans col)).
    - transitivity (frames t1);
        [apply Permutation_sym, NaturalOrderFacts.sortBy_Permutation|].
      transitivity (frames t2);
        [exact Hperm | apply NaturalOrderFacts.sortBy_Permutation].
    - intros a b Ha Hb Hab Hba.
      apply Hties.
      + apply (Permutation_in _
                 (Permutation_sym
                    (NaturalOrderFacts.sortBy_Permutation
                       (compareFrames col) (frames t1)))).
        exact Ha.
      + apply (Permutation_in _
                 (Permutation_sym
                    (NaturalOrderFacts.sortBy_Permutation
                       (compareFrames col) (frames t1)))).
        exact Hb.
      + now apply compareFrames_antisym. }
  apply loadAtlas_cases in Hload1, Hload2.
  destruct Hload1 as [(e & _ & [=] & _) | (raw & t & Hp & Ht & Hv1)].
  assert (raw = raw1) as -> by (unfold ret in *; congruence).
  assert (t = t1) as -> by congruence.
  destruct Hload2 as [(e & _ & [=] & _) | (raw & t & Hp' & Ht' & Hv2)].
  assert (raw = raw2) as -> by (unfold ret in *; congruence).
  assert (t = t2) as -> by congruence.
  cbn zeta in Hv1, Hv2.
  destruct Hv1 as [(e & _ & [=] & _) | (_ & [= ->] & -> & _)].
  destruct Hv2 as [(e & _ & [=] & _) | (_ & [= ->] & -> & _)].
  cbn [loadedFrames totalFrames]. rewrite Hsorted.
  split; [reflexivity|]. split; [reflexivity|].
  reflexivity.
Qed.

Lemma load_order_independent_witness :
  exists atlas1 atlas2 s1 s2 w1 w2,
    loadAtlas asciiBase (imageFile 64 64)
      (manifestFile 64 64
         [frameValue "walk_10.png" 0 0 8 8; frameValue "walk_2.png" 8 0 8 8])
      fresh emptyWorld
    = Some (ret atlas1, s1, w1) /\
    loadAtlas asciiBase (imageFile 64 64)
      (manifestFile 64 64
         [frameValue "walk_2.png" 8 0 8 8; frameValue "walk_10.png" 0 0 8 8])
      fresh emptyWorld
    = Some (ret atlas2, s2, w2) /\
    loadedFrames atlas1 = loadedFrames atlas2.
Proof.
  eexists _, _, _, _, _, _.
  split; [vm_compute; reflexivity|]. split; [vm_compute; reflexivity|].
  refine (proj1 (load_order_independent asciiBase
                   (imageFile 64 64) (imageFile 64 64)
                   (manifestFile 64 64
                      [frameValue "walk_10.png" 0 0 8 8;
                       frameValue "walk_2.png" 8 0 8 8])
                   (manifestFile 64 64
                      [frameValue "walk_2.png" 8 0 8 8;
                       frameValue "walk_10.png" 0 0 8 8])
                   _ _ _ _ fresh fresh emptyWorld emptyWorld _ _ _ _ _ _
                   eq_refl eq_refl eq_refl eq_refl _ _ eq_refl eq_refl)).
  - cbn [frames]. apply perm_swap.
  - cbn [frames].
    intros a b [<- | [<- | []]] [<- | [<- | []]]; vm_compute;
      (reflexivity || discriminate).
Defined.

(** *** Looking a frame up by name *)

Lemma prefix_refl (a : string) : String.prefix a a = true.
Proof.
  induction a as [|c a IH]; [reflexivity|].
  cbn [String.prefix]. now destruct (Ascii.ascii_dec c c).
Qed.

Lemma includes_refl (a : string) : includes a a = true.
Proof.
  unfold includes. destruct a as [|c a]; [reflexivity|].
  cbn [String.index]. now rewrite prefix_refl.
Qed.

Lemma findIndex_spec {A : Type} (p : A -> bool) (items : list A) :
  forall i,
    0 <= i ->
    (findIndex p items i = -1 /\ forall x, In x items -> p x = false) \/
    (exists n x,
       findIndex p items i = i + Z.of_nat n /\
       nth_error items n = Some x /\ p x = true /\
       forall m y, (m < n)%nat -> nth_error items m = Some y -> p y = false).
Proof.
  induction items as [|x items IH]; intros i Hi.
  - left. split; [reflexivity | intros x []].
  - cbn [findIndex]. destruct (p x) eqn:Hpx.
    + right. exists 0%nat, x. split; [cbn; lia|].
      split; [reflexivity|]. split; [exact Hpx|]. intros m y Hm. lia.
    + destruct (IH (i + 1) ltac:(lia))
        as [[Hnone Hall] | (n & y & Hfound & Hnth & Hpy & Hbefore)].
      * left. split; [exact Hnone|].
        intros z [<- | Hz]; [exact Hpx | now apply Hall].
      * right. exists (S n), y. split; [lia|]. split; [exact Hnth|].
        split; [exact Hpy|].
        intros [|m] z Hm Hz; [now injection Hz as <-|].
        apply (Hbefore m z); [lia | exact Hz].
Qed.

(** X18. On a loader reached by loads and cleanups, [findFrameByName]
    returns the first frame, in the loaded order, whose filename contains
    the name, with the index at which [getFrameData] returns that frame;
    it returns nothing exactly when no frame [getFrameData] returns has
    such a filename.  The comparison for equality in it changes nothing: a
    filename equal to the name contains it. *)
Theorem findFrameByName_first (col : Collation) (s : state) (w : World)
  (name : string) :
  Reachable col s w ->
  match findFrameByName name s with
  | Some (index, found) =>
      exists f,
        found = Some f /\ getFrameData (Number.Int index) s = Some f /\
        includes name (filename f) = true /\
        forall j g,
          0 <= j < index -> getFrameData (Number.Int j) s = Some g ->
          includes name (filename g) = false
  | None =>
      forall index f,
        getFrameData (Number.Int index) s = Some f ->
        includes name (filename f) = false
  end.
Proof.
  intros Hreach. destruct (Reachable_inv col s w Hreach) as [_ Hinv].
  unfold findFrameByName.
  destruct (loadedAtlas s) as [atlas|] eqn:Hs.
  2:{ intros index f. unfold getFrameData. now rewrite Hs. }
  destruct (Hinv atlas eq_refl) as (_ & Hlen & _).
  pose proof (fun index => getFrameData_nth index s atlas Hs Hlen) as Hget.
  set (p := fun frame : FrameData =>
              (String.eqb (filename frame) name
               || includes name (filename frame))%bool).
  assert (Hp : forall f, p f = includes name (filename f)).
  { intros f. unfold p. destruct (String.eqb_spec (filename f) name) as [->|];
      [now rewrite includes_refl | reflexivity]. }
  cbn zeta.
  destruct (findIndex_spec p (loadedFrames atlas) 0 ltac:(lia))
    as [[Hnone Hall] | (n & x & Hfound & Hnth & Hpx & Hbefore)].
  - rewrite Hnone. cbn [Z.eqb Pos.eqb].
    intros index f. rewrite Hget.
    destruct (_ && _)%bool; [|discriminate].
    intros Hf. rewrite <- Hp. apply Hall. eapply nth_error_In, Hf.
  - rewrite Hfound. cbn [Z.add].
    destruct (Z.eqb_spec (Z.of_nat n) (-1)) as [|_]; [lia|].
    rewrite NumberFacts.item_of_nat, Hnth.
    assert (n < List.length (loadedFrames atlas))%nat
      by (apply nth_error_Some; congruence).
    exists x. split; [reflexivity|]. split; [|split].
    + rewrite Hget, Nat2Z.id, Hnth.
      rewrite (proj2 (Z.leb_le 0 _)), (proj2 (Z.ltb_lt _ _)) by lia.
      reflexivity.
    + now rewrite <- Hp.
    + intros j g Hj. rewrite Hget.
      destruct (_ && _)%bool; [|discriminate].
      intros Hg. rewrite <- Hp.
      apply (Hbefore (Z.to_nat j) g); [lia | exact Hg].
Qed.

Lemma findFrameByName_first_witness :
  exists atlas s' w',
    loadAtlas asciiBase (imageFile 64 64)
      (manifestFile 64 64
         [frameValue "run_1.png" 0 0 8 8; frameValue "a_run_1.png" 8 0 8 8])
      fresh emptyWorld
    = Some (ret atlas, s', w') /\
    exists f,
      getFrameData (Number.Int 0) s' = Some f /\ filename f = "a_run_1.png" /\
      includes "run_1.png" (filename f) = true.
Proof.
  eexists _, _, _. split; [vm_compute; reflexivity|].
  pose proof (findFrameByName_first asciiBase _ _ "run_1.png"
                (Reachable_load asciiBase (imageFile 64 64)
                   (manifestFile 64 64
                      [frameValue "run_1.png" 0 0 8 8;
                       frameValue "a_run_1.png" 8 0 8 8])
                   fresh emptyWorld _ _ _ (Reachable_fresh asciiBase)
                   eq_refl)) as H.
  cbv in H. destruct H as (f & [= <-] & Hget & Hincl & _).
  eexists. split; [exact Hget|]. split; [reflexivity | exact Hincl].
Defined.

(** *** What a load leaves *)

Lemma asFrames_sourceSize (items : list JValue) :
  forall fs,
    asFrames items = Some fs ->
    forall f, In f fs -> sourceSize f <> None.
Proof.
  induction items as [|v items IH]; intros fs; cbn [asFrames].
  - intros [= <-] f [].
  - destruct (asFrameData v) as [g|] eqn:Eg; [|discriminate].
    destruct (asFrames items) as [fs'|]; [|discriminate].
    intros [= <-] f [<- | Hf]; [|now apply (IH fs')].
    unfold asFrameData in Eg.
    destruct (field v "filename"); try discriminate.
    destruct (asRect (field v "frame")); try discriminate.
    destruct (asSize (field v "sourceSize")); try discriminate.
    destruct (field v "spriteSourceSize"); try discriminate;
      try (injection Eg as <-; discriminate);
      destruct (asRect _); try discriminate;
      injection Eg as <-; discriminate.
Qed.

Lemma typed_sourceSize (raw : JValue) (t : TextureData) :
  asAtlasData raw = Some (mkAtlasData [t]) ->
  forall f, In f (frames t) -> sourceSize f <> None.
Proof.
  unfold asAtlasData.
  destruct (field raw "textures") as [| | | | | [|texture ?] |];
    try discriminate.
  unfold asTextureData.
  destruct (asSize _); [|discriminate].
  destruct (field texture "frames"); try discriminate.
  destruct (asFrames items) as [fs|] eqn:E; [|discriminate].
  intros [= <-]. cbn [frames]. now apply (asFrames_sourceSize items).
Qed.

Lemma loadAtlas_success (col : Collation) (tex : TextureFile)
  (file : AtlasFile) (s : state) (w : World) (atlas : LoadedAtlas)
  (s' : state) (w' : World) :
  loadAtlas col tex file s w = Some (ret atlas, s', w') ->
  s' = mkState (Some atlas) /\
  totalFrames atlas = List.length (loadedFrames atlas) /\
  (1 <= totalFrames atlas)%nat /\
  forall f, In f (loadedFrames atlas) -> sourceSize f <> None.
Proof.
  intros Hload. apply loadAtlas_cases in Hload.
  destruct Hload as [(e & _ & [=] & _) | (raw & t & Hparse & Htyped & Hv)].
  cbn zeta in Hv.
  destruct Hv as [(e & _ & [=] & _) | (_ & [= ->] & -> & _)].
  cbn [totalFrames loadedFrames].
  split; [reflexivity|]. split; [reflexivity|]. split.
  - pose proof (parseAtlasJSON_valid _ _ Hparse) as Hvalid.
    destruct (accepted_header _ Hvalid) as (items & Hheader & Hne & _).
    rewrite sortBy_length, (typed_frames_length _ _ _ Hheader Htyped).
    destruct items; [contradiction | cbn; lia].
  - intros f Hf. apply (typed_sourceSize raw t Htyped).
    apply (Permutation_in _
             (Permutation_sym
                (NaturalOrderFacts.sortBy_Permutation
                   (compareFrames col) (frames t)))).
    exact Hf.
Qed.

Lemma loadAtlas_rejected (col : Collation) (tex : TextureFile)
  (file : AtlasFile) (s : state) (w : World) (e : LoadError)
  (s' : state) (w' : World) :
  loadAtlas col tex file s w = Some (throw e, s', w') ->
  loadedAtlas s' = None.
Proof.
  intros Hload. apply loadAtlas_cases in Hload.
  destruct Hload as [(e' & _ & _ & -> & _) | (raw & t & _ & _ & Hv)];
    [apply cleanup_state|].
  cbn zeta in Hv.
  destruct Hv as [(e' & _ & _ & -> & _) | (_ & [=] & _)].
  apply cleanup_state.
Qed.

Lemma revoke_keeps (url other : nat) (w : World) :
  In url (objectURLs w) -> other <> url ->
  In url (objectURLs (revokeObjectURL other w)).
Proof.
  intros Hin Hne. cbn [revokeObjectURL objectURLs].
  apply filter_In. split; [exact Hin|].
  apply negb_true_iff, Nat.eqb_neq. congruence.
Qed.

Lemma cleanup_keeps (url : nat) (s : state) (w : World) :
  In url (objectURLs w) ->
  (forall atlas, loadedAtlas s = Some atlas -> textureURL atlas <> url) ->
  In url (objectURLs (snd (cleanup s w))).
Proof.
  intros Hin Hheld. rewrite cleanup_world.
  destruct (loadedAtlas s) as [atlas|]; [|exact Hin].
  apply revoke_keeps; [exact Hin | now apply Hheld].
Qed.

(** A load, resolved or rejected, revokes no object URL but the one of the
    atlas the loader held, and holds afterwards no URL that was registered
    before. *)
Lemma loadAtlas_keeps (col : Collation) (tex : TextureFile) (file : AtlasFile)
  (s : state) (w : World) (result : Exc LoadedAtlas) (s' : state) (w' : World)
  (url : nat) :
  wellFormed w ->
  In url (objectURLs w) ->
  (forall atlas, loadedAtlas s = Some atlas -> textureURL atlas <> url) ->
  loadAtlas col tex file s w = Some (result, s', w') ->
  In url (objectURLs w') /\
  forall atlas, loadedAtlas s' = Some atlas -> textureURL atlas <> url.
Proof.
  intros Hw Hin Hheld Hload.
  assert (Hfresh : nextURL w <> url).
  { unfold wellFormed in Hw. rewrite Forall_forall in Hw.
    specialize (Hw _ Hin). lia. }
  apply loadAtlas_cases in Hload.
  destruct Hload as [(e & _ & _ & -> & ->) | (raw & t & _ & _ & Hv)].
  - split; [now apply cleanup_keeps|].
    intros atlas. now rewrite cleanup_state.
  - cbn zeta in Hv.
    destruct (validateTextureImage_world tex (mkAtlasData [t]) _
                (wellFormed_create w Hw)) as [Hurls _].
    assert (Hin2 : In url (objectURLs
                     (snd (validateTextureImage tex (mkAtlasData [t])
                             (snd (createObjectURL w)))))).
    { rewrite Hurls. cbn [createObjectURL snd objectURLs]. now right. }
    destruct Hv as [(e & _ & _ & -> & ->) | (_ & _ & -> & ->)].
    + split; [now apply cleanup_keeps|].
      intros atlas. now rewrite cleanup_state.
    + split; [exact Hin2|].
      cbn [loadedAtlas]. intros atlas [= <-]. exact Hfresh.
Qed.

End AtlasLoaderSteps.

(* ----------------------------------------------------------------- *)
(** ** The viewer *)

Module AppFacts.

Import Number App.

#[local] Arguments Number.div : simpl never.
#[local] Arguments Number.ofZ : simpl never.
#[local] Arguments Number.toNumber : simpl never.

(** *** What the controller reports *)

Ltac events :=
  repeat match goal with
         | |- Forall _ [] => apply Forall_nil
         | |- Forall _ (_ :: _) => apply Forall_cons
         | |- frameInRange _ _ => cbn [frameInRange]
         | |- True => exact I
         | |- NaN = NaN \/ _ => left; reflexivity
         | |- Int _ = NaN \/ _ => right; eexists; split; [reflexivity | lia]
         end.

Ltac report :=
  unfold reported, replay, FrameController.tick;
  FrameControllerFacts.run;
  repeat match goal with |- _ /\ _ => split end;
  try reflexivity; events; try lia; try congruence.

Ltac report_on c :=
  let cur := fresh "cur" in
  destruct c as [? cur ? ? ? ? ?]; destruct cur; report.

Lemma reported_setFrame (i : integral) (c : FrameController.state) :
  reported c (FrameController.setFrame i c).
Proof. destruct i; report. Qed.

Lemma reported_play (c : FrameController.state) :
  reported c (FrameController.play c).
Proof. report. Qed.

Lemma reported_pause (c : FrameController.state) :
  reported c (FrameController.pause c).
Proof. report. Qed.

Lemma reported_stop (c : FrameController.state) :
  reported c (FrameController.stop c).
Proof. report. Qed.

Lemma reported_setFrameRate (fps : integral) (c : FrameController.state) :
  reported c (FrameController.setFrameRate fps c).
Proof. destruct fps; report. Qed.

Lemma reported_nextFrame (c : FrameController.state) :
  reported c (FrameController.nextFrame c).
Proof. report_on c. Qed.

Lemma reported_previousFrame (c : FrameController.state) :
  reported c (FrameController.previousFrame c).
Proof. report_on c. Qed.

Lemma reported_goToFirstFrame (c : FrameController.state) :
  reported c (FrameController.goToFirstFrame c).
Proof. report. Qed.

Lemma reported_goToLastFrame (c : FrameController.state) :
  reported c (FrameController.goToLastFrame c).
Proof. report. Qed.

Lemma reported_setLooping (b : bool) (c : FrameController.state) :
  reported c (FrameController.setLooping b c).
Proof. report. Qed.

Lemma reported_tick (c : FrameController.state) :
  reported c (FrameController.tick c).
Proof.
  unfold FrameController.tick. destruct (FrameController.animationTimer c).
  - unfold FrameController.timerTick.
    destruct (negb (FrameController.isPlaying c));
      [report | apply reported_nextFrame].
  - report.
Qed.

Lemma reported_setFrameFromProgress (p : number) (c : FrameController.state) :
  reported c (FrameController.setFrameFromProgress p c).
Proof.
  unfold FrameController.setFrameFromProgress. cbn zeta.
  apply reported_setFrame.
Qed.

(** *** The renderer follows the controller *)

Lemma shows_setFrame (n : Z) (cur : integral) (i : Z)
  (r : SpriteRenderer.state) :
  shows n cur r -> 0 <= i < n ->
  exists f,
    nth_error (SpriteRenderer.frames r) (Z.to_nat i) = Some f /\
    snd (SpriteRenderer.setFrame (Int i) r)
      = [SpriteRenderer.OnFrameChanged (Int i) f] /\
    shows n (Int i) (fst (SpriteRenderer.setFrame (Int i) r)) /\
    SpriteRenderer.frames (fst (SpriteRenderer.setFrame (Int i) r))
      = SpriteRenderer.frames r.
Proof.
  intros (Hlen & Hsprite) Hi.
  destruct (Hsprite ltac:(lia)) as (_ & sp & Hsp & _).
  rewrite <- Hlen in Hi.
  destruct (SpriteRendererSteps.setFrame_shown r sp i Hsp Hi)
    as (f & Hf & Hset).
  destruct (SpriteRendererSteps.setFrame_fields r sp i Hsp Hi)
    as (Hindex & Hframes & Hsp').
  exists f. split; [exact Hf|]. split; [now rewrite Hset|].
  split; [|exact Hframes].
  unfold shows. rewrite Hframes.
  split; [exact Hlen|]. intros _. split; [exact Hindex | exact Hsp'].
Qed.

Lemma shows_setFrame_NaN (n : Z) (cur : integral) (r : SpriteRenderer.state) :
  shows n cur r ->
  snd (SpriteRenderer.setFrame NaN r) = [] /\
  shows n NaN (fst (SpriteRenderer.setFrame NaN r)) /\
  SpriteRenderer.frames (fst (SpriteRenderer.setFrame NaN r))
    = SpriteRenderer.frames r.
Proof.
  intros (Hlen & Hsprite). unfold SpriteRenderer.setFrame.
  destruct (SpriteRenderer.sprite r) as [sp|] eqn:Hsp.
  - cbn. split; [reflexivity|]. split; [|reflexivity].
    split; [exact Hlen|]. intros _. split; [reflexivity|].
    eexists. split; reflexivity.
  - cbn [fst snd]. split; [reflexivity|]. split; [|reflexivity].
    split; [exact Hlen|]. intros Hn.
    destruct (Hsprite Hn) as (_ & sp & Hsome & _). congruence.
Qed.

Lemma onControllerEvent_follows (a : state) (cur : integral)
  (e : FrameController.Event) :
  follows a cur ->
  frameInRange (totalFrames a) e ->
  follows (onControllerEvent a e)
          (fst (fst (replay1 (cur, isPlaying a, frameRate a) e))) /\
  totalFrames (onControllerEvent a e) = totalFrames a /\
  atlasLoader (onControllerEvent a e) = atlasLoader a /\
  host (onControllerEvent a e) = host a /\
  frameController (onControllerEvent a e) = frameController a /\
  SpriteRenderer.frames (spriteRenderer (onControllerEvent a e))
    = SpriteRenderer.frames (spriteRenderer a) /\
  (fst (fst (replay1 (cur, isPlaying a, frameRate a) e)),
   isPlaying (onControllerEvent a e), frameRate (onControllerEvent a e))
  = replay1 (cur, isPlaying a, frameRate a) e.
Proof.
  intros (Hshows & Hvalid & Hcur) He. destruct e as [i d | playing | fps].
  - cbn [frameInRange] in He. cbn [onControllerEvent replay1 fst snd].
    unfold render. destruct He as [-> | (k & -> & Hk)].
    + destruct (shows_setFrame_NaN _ _ _ Hshows)
        as (Hevents & Hshows' & Hframes).
      destruct (SpriteRenderer.setFrame NaN (spriteRenderer a)) as [r events].
      cbn [fst snd] in *. subst events. cbn [fold_left].
      unfold follows.
      cbn [with_spriteRenderer currentFrame totalFrames isPlaying frameRate
           atlasLoader spriteRenderer frameController host].
      repeat match goal with |- _ /\ _ => split end;
        try reflexivity; try assumption.
      now left.
    + destruct (shows_setFrame _ _ k _ Hshows Hk)
        as (f & _ & Hevents & Hshows' & Hframes).
      destruct (SpriteRenderer.setFrame (Int k) (spriteRenderer a))
        as [r events].
      cbn [fst snd] in *. subst events. cbn [fold_left onRendererEvent].
      unfold follows.
      cbn [with_currentFrame with_spriteRenderer currentFrame totalFrames
           isPlaying frameRate atlasLoader spriteRenderer frameController host].
      repeat match goal with |- _ /\ _ => split end;
        try reflexivity; try assumption.
      * exists k. split; [reflexivity | now left].
      * now right.
  - unfold follows. cbn. repeat match goal with |- _ /\ _ => split end;
      try reflexivity; assumption.
  - unfold follows. cbn. repeat match goal with |- _ /\ _ => split end;
      try reflexivity; assumption.
Qed.

Lemma fold_follows (events : list FrameController.Event) :
  forall a cur,
    follows a cur ->
    Forall (frameInRange (totalFrames a)) events ->
    follows (fold_left onControllerEvent events a)
            (fst (fst (replay events (cur, isPlaying a, frameRate a)))) /\
    totalFrames (fold_left onControllerEvent events a) = totalFrames a /\
    atlasLoader (fold_left onControllerEvent events a) = atlasLoader a /\
    host (fold_left onControllerEvent events a) = host a /\
    frameController (fold_left onControllerEvent events a)
      = frameController a /\
    SpriteRenderer.frames
      (spriteRenderer (fold_left onControllerEvent events a))
      = SpriteRenderer.frames (spriteRenderer a) /\
    (fst (fst (replay events (cur, isPlaying a, frameRate a))),
     isPlaying (fold_left onControllerEvent events a),
     frameRate (fold_left onControllerEvent events a))
    = replay events (cur, isPlaying a, frameRate a).
Proof.
  induction events as [|e events IH]; intros a cur Hfollows Hall.
  - cbn. repeat match goal with |- _ /\ _ => split end;
      try reflexivity; assumption.
  - apply Forall_cons_iff in Hall. destruct Hall as [He Hall].
    destruct (onControllerEvent_follows a cur e Hfollows He)
      as (Hfollows1 & Htotal1 & Hloader1 & Hhost1 & Hctl1 & Hframes1
          & Hview1).
    cbn [fold_left]. unfold replay. cbn [fold_left]. fold (replay events).
    rewrite <- Htotal1 in Hall.
    destruct (IH (onControllerEvent a e) _ Hfollows1 Hall)
      as (Hfollows2 & Htotal2 & Hloader2 & Hhost2 & Hctl2 & Hframes2
          & Hview2).
    rewrite Hview1 in Hfollows2, Hview2.
    repeat match goal with |- _ /\ _ => split end;
      try assumption; congruence.
Qed.

(** A call of the controller that reports what it changed leaves the
    viewer in step. *)
Lemma dispatch_synced (a : state)
  (result : FrameController.state * list FrameController.Event) :
  synced a ->
  reported (frameController a) result ->
  synced (dispatch result a) /\
  totalFrames (dispatch result a) = totalFrames a /\
  atlasLoader (dispatch result a) = atlasLoader a /\
  host (dispatch result a) = host a /\
  frameController (dispatch result a) = fst result /\
  SpriteRenderer.frames (spriteRenderer (dispatch result a))
    = SpriteRenderer.frames (spriteRenderer a).
Proof.
  intros (Htotal & Hplaying & Hrate & Hshows & Hvalid & Hcur)
         (Htotal' & _ & Hreplay & Hall).
  unfold dispatch. rewrite Htotal in Hall.
  destruct (fold_follows (snd result) (with_frameController (fst result) a)
              (FrameController.currentFrame (frameController a))
              (conj Hshows (conj Hvalid Hcur)) Hall)
    as ((Hshows2 & Hvalid2 & Hcur2) & Htotal2 & Hloader2 & Hhost2 & Hctl2
        & Hframes2 & Hview2).
  cbn [with_frameController currentFrame totalFrames isPlaying frameRate
       atlasLoader spriteRenderer frameController host] in *.
  rewrite <- Hplaying, <- Hrate, Hreplay in Hshows2, Hcur2, Hview2.
  cbn [fst snd] in Hshows2, Hcur2, Hview2.
  injection Hview2 as Hp Hr.
  unfold synced. rewrite Hctl2, Htotal2.
  repeat match goal with |- _ /\ _ => split end;
    try reflexivity; try assumption; congruence.
Qed.

Lemma dispatch_coherent (a : state)
  (result : FrameController.state * list FrameController.Event) :
  synced a -> coherent a ->
  reported (frameController a) result ->
  coherent (dispatch result a).
Proof.
  intros Hsynced (Hlookup & Hatlas) Hreported.
  destruct (dispatch_synced a result Hsynced Hreported)
    as (_ & Htotal & Hloader & _ & Hctl & Hframes).
  destruct Hreported as (_ & Hcallback & _).
  unfold coherent. rewrite Hctl, Hloader, Htotal, Hframes, Hcallback.
  split; [exact Hlookup | exact Hatlas].
Qed.

Lemma control_invariant (m : FrameController.method) (a : state) :
  synced a -> coherent a ->
  reported (frameController a) (m (frameController a)) ->
  synced (control m a) /\ coherent (control m a).
Proof.
  intros Hsynced Hcoherent Hreported. unfold control.
  split; [now apply dispatch_synced | now apply dispatch_coherent].
Qed.

Lemma setCurrentFrame_invariant (i : integral) (a : state) :
  synced a -> coherent a ->
  synced (setCurrentFrame i a) /\ coherent (setCurrentFrame i a).
Proof.
  intros Hsynced Hcoherent. unfold setCurrentFrame.
  destruct (ltZ i 0 || geZ i (totalFrames a)); [now split|].
  apply control_invariant; [assumption | assumption |].
  apply reported_setFrame.
Qed.

Lemma updateFrameFromPosition_invariant (position : number) (a : state) :
  synced a -> coherent a ->
  synced (updateFrameFromPosition position a) /\
  coherent (updateFrameFromPosition position a).
Proof.
  intros Hsynced Hcoherent. unfold updateFrameFromPosition.
  destruct (totalFrames a =? 0); [now split|]. cbn zeta.
  now apply setCurrentFrame_invariant.
Qed.

(** *** Loading an atlas into the viewer *)

Lemma calculateScaling_total (r : SpriteRenderer.state) :
  (forall f, In f (SpriteRenderer.frames r) -> sourceSize f <> None) ->
  exists r',
    SpriteRenderer.calculateScaling r = Some r' /\
    SpriteRenderer.sprite r' = SpriteRenderer.sprite r /\
    SpriteRenderer.frames r' = SpriteRenderer.frames r /\
    SpriteRenderer.currentFrameIndex r' = SpriteRenderer.currentFrameIndex r.
Proof.
  intros Hall. unfold SpriteRenderer.calculateScaling.
  destruct (SpriteRenderer.sprite r) as [sp|] eqn:Hsp; [|now exists r].
  destruct (SpriteRenderer.frames r) as [|f fs] eqn:Hfs; [now exists r|].
  destruct (SpriteRendererSteps.maxSourceSize_total (f :: fs) 0 0 Hall
              ltac:(lia) ltac:(lia)) as (w & h & -> & _).
  eexists. split; [reflexivity|].
  cbn [SpriteRenderer.with_scaleFactor SpriteRenderer.with_originalSpriteSize
       SpriteRenderer.sprite SpriteRenderer.frames
       SpriteRenderer.currentFrameIndex].
  now rewrite Hsp, Hfs.
Qed.

Lemma loadAtlasTexture_shows (fs : list FrameData) (r : SpriteRenderer.state) :
  fs <> [] ->
  (forall f, In f fs -> sourceSize f <> None) ->
  exists r' f,
    SpriteRenderer.loadAtlasTexture fs SpriteRenderer.Complete r
      = (r', [SpriteRenderer.OnFrameChanged (Int 0) f], true) /\
    SpriteRenderer.frames r' = fs /\
    shows (Z.of_nat (List.length fs)) (Int 0) r'.
Proof.
  intros Hne Hall. unfold SpriteRenderer.loadAtlasTexture. cbn zeta.
  set (r2 := SpriteRenderer.with_sprite _ (SpriteRenderer.with_frames fs r)).
  destruct (calculateScaling_total r2 Hall)
    as (r3 & -> & Hsprite & Hframes & _).
  assert (Hlen : 0 <= 0 < Z.of_nat (List.length (SpriteRenderer.frames r3))).
  { rewrite Hframes. cbn. destruct fs; [contradiction | cbn; lia]. }
  destruct (SpriteRendererSteps.setFrame_shown r3 _ 0 Hsprite Hlen)
    as (f & _ & Hset).
  destruct (SpriteRendererSteps.setFrame_fields r3 _ 0 Hsprite Hlen)
    as (Hindex & Hframes' & Hsp').
  rewrite Hset in *. cbn [fst] in *.
  eexists _, f. split; [reflexivity|].
  rewrite Hframes', Hframes. split; [reflexivity|].
  unfold shows. rewrite Hframes', Hframes.
  split; [reflexivity|]. intros _. split; [exact Hindex | exact Hsp'].
Qed.

Lemma initialize_reports (n : Z) (c : FrameController.state)
  (cur : integral) :
  1 <= n ->
  FrameController.totalFrames (fst (FrameController.initialize n c)) = n /\
  FrameController.currentFrame (fst (FrameController.initialize n c))
    = Int 0 /\
  FrameController.isPlaying (fst (FrameController.initialize n c)) = false /\
  FrameController.frameRate (fst (FrameController.initialize n c))
    = FrameController.frameRate c /\
  FrameController.getFrameDataCallback (fst (FrameController.initialize n c))
    = FrameController.getFrameDataCallback c /\
  Forall (frameInRange n) (snd (FrameController.initialize n c)) /\
  replay (snd (FrameController.initialize n c))
    (cur, FrameController.isPlaying c, FrameController.frameRate c)
  = (Int 0, false, FrameController.frameRate c).
Proof.
  intros Hn. unfold replay. FrameControllerFacts.run;
    repeat match goal with |- _ /\ _ => split end;
    try reflexivity; events; try lia;
    try (apply negb_true_iff; assumption); try congruence;
    match goal with
    | H : negb ?b = true |- _ => apply negb_true_iff in H; now rewrite H
    end.
Qed.

Lemma handleFilesReady_loaded (col : NaturalOrder.Collation)
  (tex : AtlasLoader.TextureFile) (file : AtlasLoader.AtlasFile) (a : state)
  (atlas : AtlasLoader.LoadedAtlas) (l : AtlasLoader.state)
  (w : AtlasLoader.World) :
  synced a ->
  AtlasLoader.loadAtlas col tex file (atlasLoader a) (host a)
    = Some (ret atlas, l, w) ->
  exists a',
    handleFilesReady col tex file SpriteRenderer.Complete a = Some a' /\
    synced a' /\ coherent a' /\
    atlasLoader a' = l /\ host a' = w /\
    AtlasLoader.loadedAtlas l = Some atlas /\
    totalFrames a' = Z.of_nat (AtlasLoader.totalFrames atlas) /\
    currentFrame a' = Int 0 /\
    FrameController.currentFrame (frameController a') = Int 0 /\
    isPlaying a' = false /\
    frameRate a' = frameRate a.
Proof.
  intros (_ & Hplaying & Hrate & _) Hload.
  destruct (AtlasLoaderSteps.loadAtlas_success _ _ _ _ _ _ _ _ Hload)
    as (-> & Hlen & Hpos & Hsizes).
  unfold handleFilesReady. unfold ret in Hload. rewrite Hload. cbn zeta.
  cbn [with_currentFrame with_totalFrames with_atlasLoader spriteRenderer].
  assert (Hne : AtlasLoader.loadedFrames atlas <> []).
  { intros E. rewrite E in Hlen. cbn in Hlen. lia. }
  destruct (loadAtlasTexture_shows (AtlasLoader.loadedFrames atlas)
              (spriteRenderer a) Hne Hsizes)
    as (r' & f & -> & Hframes & Hshows).
  rewrite <- Hlen in Hshows.
  cbn [fold_left onRendererEvent with_currentFrame with_spriteRenderer
       currentFrame totalFrames isPlaying frameRate atlasLoader spriteRenderer
       frameController host].
  set (n := Z.of_nat (AtlasLoader.totalFrames atlas)) in *.
  assert (Hn : 1 <= n) by lia.
  set (c := rewire (AtlasLoader.mkState (Some atlas)) (frameController a)).
  destruct (initialize_reports n c (Int 0) Hn)
    as (Htotal' & Hcur' & Hplaying' & Hrate' & Hcallback' & Hall & Hreplay).
  unfold control, dispatch.
  cbn [frameController with_frameController].
  fold c.
  match goal with
  | |- exists a', Some (fold_left _ _ ?a0) = Some a' /\ _ =>
      destruct (fold_follows (snd (FrameController.initialize n c)) a0
                  (Int 0))
        as ((Hshows2 & Hvalid2 & Hcur2) & Htotal2 & Hloader2 & Hhost2 & Hctl2
            & Hframes2 & Hview2);
      [ split; [exact Hshows|];
        split; [exists 0; split; [reflexivity | left; cbn; lia]
               | right; reflexivity]
      | exact Hall |];
      exists (fold_left onControllerEvent
                (snd (FrameController.initialize n c)) a0)
  end.
  cbn [currentFrame totalFrames isPlaying frameRate atlasLoader spriteRenderer
       frameController host with_currentFrame with_totalFrames
       with_atlasLoader with_spriteRenderer with_frameController] in *.
  fold c in Hshows2, Hvalid2, Hcur2, Htotal2, Hloader2, Hhost2, Hctl2,
    Hframes2, Hview2 |- *.
  assert (Hc : FrameController.isPlaying c = isPlaying a /\
               FrameController.frameRate c = frameRate a).
  { subst c. cbn. now split. }
  destruct Hc as [Hcp Hcr].
  rewrite <- Hcp, <- Hcr, Hreplay in Hshows2, Hcur2, Hview2.
  cbn [fst snd] in Hshows2, Hcur2, Hview2.
  injection Hview2 as Hv2 Hv3.
  destruct Hcur2 as [Hnan | Hcur2]; [discriminate Hnan|].
  rewrite Htotal2 in Hshows2, Hvalid2.
  split; [reflexivity|].
  split.
  { unfold synced. rewrite Hctl2, Htotal2, Hv2, Hv3.
    split; [exact Htotal'|].
    split; [exact Hplaying'|]. split; [exact Hrate'|].
    rewrite Hcur'.
    split; [exact Hshows2|]. split; [exact Hvalid2 | now right]. }
  split.
  { unfold coherent. rewrite Hctl2, Hloader2, Htotal2, Hframes2, Hcallback'.
    split; [reflexivity|].
    intros atlas' [= <-]. now repeat split. }
  rewrite Hloader2, Hhost2, Htotal2, Hctl2, Hv2, Hv3, <- Hcur2.
  repeat match goal with |- _ /\ _ => split end; try reflexivity.
  - exact Hcur'.
  - now rewrite <- Hcr.
Qed.

Lemma handleFilesReady_rejected (col : NaturalOrder.Collation)
  (tex : AtlasLoader.TextureFile) (file : AtlasLoader.AtlasFile)
  (loading : SpriteRenderer.Loading) (a : state)
  (e : LoadError) (l : AtlasLoader.state) (w : AtlasLoader.World) :
  AtlasLoader.loadAtlas col tex file (atlasLoader a) (host a)
    = Some (throw e, l, w) ->
  handleFilesReady col tex file loading a = Some (with_atlasLoader l w a) /\
  AtlasLoader.loadedAtlas l = None.
Proof.
  intros Hload. split.
  - unfold handleFilesReady. unfold throw in Hload. now rewrite Hload.
  - exact (AtlasLoaderSteps.loadAtlas_rejected _ _ _ _ _ _ _ _ Hload).
Qed.

Lemma with_atlasLoader_invariant (l : AtlasLoader.state)
  (w : AtlasLoader.World) (a : state) :
  synced a -> AtlasLoader.loadedAtlas l = None ->
  synced (with_atlasLoader l w a) /\ coherent (with_atlasLoader l w a).
Proof.
  intros Hsynced Hnone. split; [exact Hsynced|].
  unfold coherent. cbn. split; [reflexivity|].
  intros atlas. rewrite Hnone. discriminate.
Qed.

Lemma handleFilesReady_invariant (col : NaturalOrder.Collation)
  (tex : AtlasLoader.TextureFile) (file : AtlasLoader.AtlasFile)
  (a a' : state) :
  synced a ->
  handleFilesReady col tex file SpriteRenderer.Complete a = Some a' ->
  synced a' /\ coherent a'.
Proof.
  intros Hsynced Hready.
  destruct (AtlasLoader.loadAtlas col tex file (atlasLoader a) (host a))
    as [[[[e | atlas] l] w]|] eqn:Hload.
  - destruct (handleFilesReady_rejected col tex file SpriteRenderer.Complete
                a e l w Hload)
      as [Heq Hnone].
    rewrite Heq in Hready. injection Hready as <-.
    now apply with_atlasLoader_invariant.
  - destruct (handleFilesReady_loaded col tex file a atlas l w Hsynced Hload)
      as (a0 & Heq & Hs & Hc & _).
    rewrite Heq in Hready. injection Hready as <-. now split.
  - unfold handleFilesReady in Hready. now rewrite Hload in Hready.
Qed.

Lemma exec_invariant (col : NaturalOrder.Collation) (op : Op) (a a' : state) :
  synced a -> coherent a ->
  completes op = true ->
  exec col op a = Some a' ->
  synced a' /\ coherent a'.
Proof.
  intros Hsynced Hcoherent Hcompletes.
  destruct op; cbn [exec];
    try (intros [= <-]; apply control_invariant;
         [assumption | assumption |]).
  - apply reported_play.
  - apply reported_pause.
  - apply reported_stop.
  - apply reported_setFrameRate.
  - intros [= <-]. now apply setCurrentFrame_invariant.
  - apply reported_nextFrame.
  - apply reported_previousFrame.
  - apply reported_goToFirstFrame.
  - apply reported_goToLastFrame.
  - apply reported_setLooping.
  - apply reported_setFrameFromProgress.
  - intros [= <-]. now apply updateFrameFromPosition_invariant.
  - destruct (updateFrameFromPosition_invariant position a Hsynced Hcoherent)
      as [Hs1 Hc1].
    cbn zeta.
    destruct (FrameController.isPlaying
                (frameController (updateFrameFromPosition position a)));
      intros [= <-]; [|now split].
    apply control_invariant; [assumption | assumption |].
    apply reported_pause.
  - apply reported_tick.
  - destruct loading; [|discriminate Hcompletes].
    now apply handleFilesReady_invariant.
Qed.

Lemma new_invariant : synced new /\ coherent new.
Proof.
  split.
  - unfold synced, shows, validIndex. cbn.
    repeat match goal with |- _ /\ _ => split end; try reflexivity; try lia.
    + exists 0. split; [reflexivity | now right].
    + now right.
  - unfold coherent. cbn. split; [reflexivity | discriminate].
Qed.

Lemma run_invariant (col : NaturalOrder.Collation) (ops : list Op) :
  forall a a',
    synced a -> coherent a ->
    forallb completes ops = true ->
    run col ops a = Some a' ->
    synced a' /\ coherent a'.
Proof.
  induction ops as [|op ops IH]; intros a a' Hs Hc; cbn [run forallb].
  - intros _ [= <-]. now split.
  - intros Hall. apply andb_true_iff in Hall. destruct Hall as [Hop Hall].
    destruct (exec col op a) as [a1|] eqn:E; [|discriminate].
    destruct (exec_invariant col op a a1 Hs Hc Hop E) as [Hs1 Hc1].
    now apply IH.
Qed.

Lemma frame_data_agrees (a : state) (atlas : AtlasLoader.LoadedAtlas) :
  synced a -> coherent a ->
  AtlasLoader.loadedAtlas (atlasLoader a) = Some atlas ->
  exists k f,
    currentFrame a = Int k /\
    nth_error (AtlasLoader.loadedFrames atlas) (Z.to_nat k) = Some f /\
    getCurrentFrameData a = Some f /\
    SpriteRenderer.getFrameData (currentFrame a) (spriteRenderer a) = Some f /\
    SpriteRenderer.currentFrameIndex (spriteRenderer a)
      = FrameController.currentFrame (frameController a) /\
    (FrameController.currentFrame (frameController a) = currentFrame a /\
     FrameController.getCurrentFrameData (frameController a) = Some f
     \/
     FrameController.currentFrame (frameController a) = NaN /\
     FrameController.getCurrentFrameData (frameController a) = None).
Proof.
  intros (_ & _ & _ & (_ & Hsprite) & (k & Hk & Hrange) & Hcur)
         (Hlookup & Hatlas) Hloaded.
  destruct (Hatlas atlas Hloaded) as (Hframes & Htotal & Hlen & Hpos).
  assert (Hin : 0 <= k
                < Z.of_nat (List.length (AtlasLoader.loadedFrames atlas)))
    by lia.
  destruct (nth_error (AtlasLoader.loadedFrames atlas) (Z.to_nat k))
    as [f|] eqn:Ef.
  2:{ apply nth_error_None in Ef. lia. }
  exists k, f. split; [exact Hk|]. split; [exact Ef|].
  assert (Hget : AtlasLoader.getFrameData (Int k) (atlasLoader a) = Some f).
  { rewrite (AtlasLoaderSteps.getFrameData_nth _ _ atlas Hloaded Hlen).
    rewrite (proj2 (Z.leb_le 0 _)), (proj2 (Z.ltb_lt _ _)) by lia.
    exact Ef. }
  split; [unfold getCurrentFrameData; now rewrite Hk|]. split.
  { unfold SpriteRenderer.getFrameData. rewrite Hframes, Hk. cbn [ltZ geZ].
    replace ((k <? 0)
             || (k >=? Z.of_nat (List.length (AtlasLoader.loadedFrames atlas))))
      with false by lia.
    now rewrite NumberFacts.item_Int by lia. }
  split; [exact (proj1 (Hsprite ltac:(lia)))|].
  unfold FrameController.getCurrentFrameData. rewrite Hlookup.
  destruct Hcur as [Hnan | Hsame].
  - right. split; [exact Hnan|]. rewrite Hnan.
    unfold lookup, AtlasLoader.getFrameData. now rewrite Hloaded.
  - left. split; [exact Hsame|]. rewrite Hsame, Hk. exact Hget.
Qed.

Lemma run_Reachable (col : NaturalOrder.Collation) (ops : list Op) :
  forall a a',
    Reachable col a -> run col ops a = Some a' -> Reachable col a'.
Proof.
  induction ops as [|op ops IH]; intros a a' Ha; cbn [run].
  - now intros [= <-].
  - destruct (exec col op a) as [a1|] eqn:E; [|discriminate].
    apply IH. exact (Reachable_exec col op a a1 Ha E).
Qed.

(** *** The viewer over time *)

(** After an atlas of two frames, an atlas of three whose image fails to
    load: the viewer holds the new number of frames, the controller the old
    one. *)
Lemma loaderror_out_of_step :
  exists a,
    run NaturalOrder.asciiBase
      [OnFilesReady (AtlasLoader.imageFile 64 64)
         (AtlasLoader.manifestFile 64 64
            [AtlasLoader.frameValue "b.png" 0 0 8 8;
             AtlasLoader.frameValue "a.png" 8 0 8 8])
         SpriteRenderer.Complete;
       OnFilesReady (AtlasLoader.imageFile 64 64)
         (AtlasLoader.manifestFile 64 64
            [AtlasLoader.frameValue "c.png" 0 0 8 8;
             AtlasLoader.frameValue "d.png" 8 0 8 8;
             AtlasLoader.frameValue "e.png" 16 0 8 8])
         SpriteRenderer.LoadError]
      new = Some a /\
    totalFrames a = 3 /\
    FrameController.totalFrames (frameController a) = 2 /\
    ~ synced a.
Proof.
  eexists. split; [vm_compute; reflexivity|].
  split; [reflexivity|]. split; [reflexivity|].
  intros (Htotal & _). vm_compute in Htotal. discriminate Htotal.
Qed.

(** X21. Whatever the page asks of the viewer, in whatever order (the
    controls, the scrub bar, the ticks of the timer, files that load and
    files that the loader rejects; indices, rates and positions that are
    not numbers among them), as long as the image of every texture the
    renderer asks for loads, the state of the viewer, the controller and
    the renderer agree when the handler returns: on the number of frames,
    which is the number the renderer holds, on the play state and on the
    frame rate; the sprite shows the frame of the controller; the frame of
    the viewer is a valid index, or 0 while there are no frames, and it is
    the frame of the controller unless that one is NaN.  The renderer shows
    the frames of the atlas the loader holds. *)
Theorem viewer_synced (col : NaturalOrder.Collation) (ops : list Op)
  (a : state) :
  forallb completes ops = true ->
  run col ops new = Some a ->
  synced a /\ coherent a.
Proof.
  intros Hall Hrun.
  exact (run_invariant col ops new a (proj1 new_invariant)
           (proj2 new_invariant) Hall Hrun).
Qed.

Lemma viewer_synced_witness :
  exists a,
    run NaturalOrder.asciiBase
      [OnFilesReady (AtlasLoader.imageFile 64 64)
         (AtlasLoader.manifestFile 64 64
            [AtlasLoader.frameValue "b.png" 0 0 8 8;
             AtlasLoader.frameValue "a.png" 8 0 8 8])
         SpriteRenderer.Complete;
       OnPlay; OnTick; OnFrameJump NaN]
      new = Some a /\
    currentFrame a = Int 1 /\
    FrameController.currentFrame (frameController a) = NaN /\
    synced a.
Proof.
  eexists. split; [vm_compute; reflexivity|].
  split; [reflexivity|]. split; [reflexivity|].
  refine (proj1 (viewer_synced NaturalOrder.asciiBase
                   [OnFilesReady (AtlasLoader.imageFile 64 64)
                      (AtlasLoader.manifestFile 64 64
                         [AtlasLoader.frameValue "b.png" 0 0 8 8;
                          AtlasLoader.frameValue "a.png" 8 0 8 8])
                      SpriteRenderer.Complete;
                    OnPlay; OnTick; OnFrameJump NaN]
                   _ eq_refl _)).
  vm_compute. reflexivity.
Defined.

(** X22. After page events whose textures load, while the loader holds an
    atlas, the frame data the viewer reads for its display and the frame
    the renderer holds at the index of the viewer are one and the same
    frame of the loaded list, the one at the current index; the renderer is
    on the cursor of the controller.  Unless that cursor is NaN, it is the
    index of the viewer and the lookup of the controller returns the same
    frame for it; when it is NaN, the lookup returns nothing. *)
Theorem viewer_frame_data (col : NaturalOrder.Collation) (ops : list Op)
  (a : state) (atlas : AtlasLoader.LoadedAtlas) :
  forallb completes ops = true ->
  run col ops new = Some a ->
  AtlasLoader.loadedAtlas (atlasLoader a) = Some atlas ->
  exists k f,
    currentFrame a = Int k /\
    nth_error (AtlasLoader.loadedFrames atlas) (Z.to_nat k) = Some f /\
    getCurrentFrameData a = Some f /\
    SpriteRenderer.getFrameData (currentFrame a) (spriteRenderer a) = Some f /\
    SpriteRenderer.currentFrameIndex (spriteRenderer a)
      = FrameController.currentFrame (frameController a) /\
    (FrameController.currentFrame (frameController a) = currentFrame a /\
     FrameController.getCurrentFrameData (frameController a) = Some f
     \/
     FrameController.currentFrame (frameController a) = NaN /\
     FrameController.getCurrentFrameData (frameController a) = None).
Proof.
  intros Hall Hrun Hloaded.
  destruct (run_invariant col ops new a (proj1 new_invariant)
              (proj2 new_invariant) Hall Hrun) as [Hsynced Hcoherent].
  exact (frame_data_agrees a atlas Hsynced Hcoherent Hloaded).
Qed.

Lemma viewer_frame_data_witness :
  exists a f,
    run NaturalOrder.asciiBase
      [OnFilesReady (AtlasLoader.imageFile 64 64)
         (AtlasLoader.manifestFile 64 64
            [AtlasLoader.frameValue "b.png" 0 0 8 8;
             AtlasLoader.frameValue "a.png" 8 0 8 8])
         SpriteRenderer.Complete;
       OnGoToLast]
      new = Some a /\
    getCurrentFrameData a = Some f /\ filename f = "b.png"%string.
Proof.
  eexists. eexists. split; [vm_compute; reflexivity|].
  match goal with
  | |- getCurrentFrameData ?a = _ /\ _ =>
      destruct (viewer_frame_data NaturalOrder.asciiBase
                  [OnFilesReady (AtlasLoader.imageFile 64 64)
                     (AtlasLoader.manifestFile 64 64
                        [AtlasLoader.frameValue "b.png" 0 0 8 8;
                         AtlasLoader.frameValue "a.png" 8 0 8 8])
                     SpriteRenderer.Complete;
                   OnGoToLast]
                  a _ eq_refl eq_refl eq_refl)
        as (k & f & Hk & Hnth & Hget & _)
  end.
  injection Hk as <-. cbn in Hnth. injection Hnth as <-.
  split; [exact Hget | reflexivity].
Defined.

(** X23. After page events whose textures load, a load that the loader
    rejects while the viewer shows an atlas leaves the viewer showing it,
    on the same frame of the same number of frames, playing if it was
    playing, with the three components still in step; but the loader has
    dropped the atlas, so that the frame data the viewer reads for its
    display and the frame data the controller passes with its
    notifications are gone, where they were the frame shown. *)
Theorem rejected_reload_loses_frame_data (col : NaturalOrder.Collation)
  (ops : list Op)
  (tex : AtlasLoader.TextureFile) (file : AtlasLoader.AtlasFile)
  (loading : SpriteRenderer.Loading) (a : state)
  (atlas : AtlasLoader.LoadedAtlas) (e : LoadError) (l : AtlasLoader.state)
  (w : AtlasLoader.World) :
  forallb completes ops = true ->
  run col ops new = Some a ->
  AtlasLoader.loadedAtlas (atlasLoader a) = Some atlas ->
  AtlasLoader.loadAtlas col tex file (atlasLoader a) (host a)
    = Some (throw e, l, w) ->
  exists a' f,
    exec col (OnFilesReady tex file loading) a = Some a' /\
    synced a' /\
    currentFrame a' = currentFrame a /\
    totalFrames a' = totalFrames a /\
    isPlaying a' = isPlaying a /\
    spriteRenderer a' = spriteRenderer a /\
    getCurrentFrameData a = Some f /\
    SpriteRenderer.getFrameData (currentFrame a') (spriteRenderer a') = Some f /\
    getCurrentFrameData a' = None /\
    (forall index,
       FrameController.getFrameDataCallback (frameController a') index = None).
Proof.
  intros Hall Hrun Hloaded Hload.
  destruct (run_invariant col ops new a (proj1 new_invariant)
              (proj2 new_invariant) Hall Hrun) as [Hsynced Hcoherent].
  destruct (frame_data_agrees a atlas Hsynced Hcoherent Hloaded)
    as (k & f & _ & _ & Hget & Hshown & _).
  destruct (handleFilesReady_rejected col tex file loading a e l w Hload)
    as [Hready Hnone].
  exists (with_atlasLoader l w a), f.
  split; [exact Hready|].
  split; [exact (proj1 (with_atlasLoader_invariant l w a Hsynced Hnone))|].
  cbn [with_atlasLoader currentFrame totalFrames isPlaying spriteRenderer
       frameController].
  repeat match goal with |- _ /\ _ => split end;
    try reflexivity; try assumption.
  - unfold getCurrentFrameData, AtlasLoader.getFrameData.
    cbn [with_atlasLoader atlasLoader]. now rewrite Hnone.
  - intros index. cbn [rewire FrameController.getFrameDataCallback].
    unfold lookup, AtlasLoader.getFrameData. now rewrite Hnone.
Qed.

Lemma rejected_reload_loses_frame_data_witness :
  exists a,
    run NaturalOrder.asciiBase
      [OnFilesReady (AtlasLoader.imageFile 64 64)
         (AtlasLoader.manifestFile 64 64
            [AtlasLoader.frameValue "b.png" 0 0 8 8;
             AtlasLoader.frameValue "a.png" 8 0 8 8])
         SpriteRenderer.Complete;
       OnPlay]
      new = Some a /\
    exists a',
      exec NaturalOrder.asciiBase
        (OnFilesReady (AtlasLoader.mkTextureFile None)
           (AtlasLoader.manifestFile 64 64
              [AtlasLoader.frameValue "c.png" 0 0 8 8])
           SpriteRenderer.Complete)
        a = Some a' /\
      isPlaying a' = true /\ totalFrames a' = 2 /\
      getCurrentFrameData a' = None.
Proof.
  eexists. split; [vm_compute; reflexivity|].
  match goal with
  | |- exists a', exec _ _ ?a = _ /\ _ =>
      destruct (AtlasLoader.loadAtlas NaturalOrder.asciiBase
                  (AtlasLoader.mkTextureFile None)
                  (AtlasLoader.manifestFile 64 64
                     [AtlasLoader.frameValue "c.png" 0 0 8 8])
                  (atlasLoader a) (host a))
        as [[[[e | loaded] l] w]|] eqn:Hload;
        [| vm_compute in Hload; discriminate Hload
         | vm_compute in Hload; discriminate Hload];
      destruct (AtlasLoader.loadedAtlas (atlasLoader a)) as [atlas|] eqn:Hatlas;
        [| discriminate Hatlas];
      destruct (rejected_reload_loses_frame_data NaturalOrder.asciiBase
                  [OnFilesReady (AtlasLoader.imageFile 64 64)
                     (AtlasLoader.manifestFile 64 64
                        [AtlasLoader.frameValue "b.png" 0 0 8 8;
                         AtlasLoader.frameValue "a.png" 8 0 8 8])
                     SpriteRenderer.Complete;
                   OnPlay]
                  (AtlasLoader.mkTextureFile None)
                  (AtlasLoader.manifestFile 64 64
                     [AtlasLoader.frameValue "c.png" 0 0 8 8])
                  SpriteRenderer.Complete
                  a atlas e l w eq_refl eq_refl Hatlas Hload)
        as (a' & f & Hexec & _ & _ & Htotal & Hplaying & _ & _ & _ & Hnone
            & _)
  end.
  exists a'. split; [exact Hexec|].
  split; [rewrite Hplaying; reflexivity|].
  split; [rewrite Htotal; reflexivity | exact Hnone].
Defined.

Lemma with_frameController_same (a : state) :
  with_frameController (frameController a) a = a.
Proof. now destruct a. Qed.

(** X24. Once the viewer is in step and has frames, the handler of the
    scrub bar, which computes the frame from the position and checks it
    against the count the viewer holds, and the handler of the progress
    indicator, which leaves both to the controller, do the same thing at
    every position: they move to the same frame, or both leave the viewer
    as it is, or both compute an index that is not a number.  The check of
    [setCurrentFrame] refuses nothing the controller would accept. *)
Theorem scrub_handlers_agree (col : NaturalOrder.Collation) (a : state)
  (position : number) (i : integral) :
  synced a ->
  1 <= totalFrames a ->
  exec col (OnScrub position) a = exec col (OnProgressChange position) a /\
  setCurrentFrame i a = control (FrameController.setFrame i) a.
Proof.
  intros (Htotal & _) Hn.
  assert (Hset : forall j,
    setCurrentFrame j a = control (FrameController.setFrame j) a).
  { intros j. unfold setCurrentFrame, control, FrameController.setFrame.
    rewrite Htotal.
    destruct (ltZ j 0 || geZ j (totalFrames a)); [|reflexivity].
    unfold dispatch, FrameController.skip. cbn [fst snd fold_left].
    now rewrite with_frameController_same. }
  split; [|apply Hset].
  cbn [exec]. unfold updateFrameFromPosition,
    FrameController.setFrameFromProgress.
  replace (totalFrames a =? 0) with false by lia. cbn zeta.
  rewrite Hset. unfold control. now rewrite Htotal.
Qed.

Lemma scrub_handlers_agree_witness :
  exists a,
    run NaturalOrder.asciiBase
      [OnFilesReady (AtlasLoader.imageFile 64 64)
         (AtlasLoader.manifestFile 64 64
            [AtlasLoader.frameValue "b.png" 0 0 8 8;
             AtlasLoader.frameValue "a.png" 8 0 8 8])
         SpriteRenderer.Complete]
      new = Some a /\
    exec NaturalOrder.asciiBase (OnScrub (ofZ 1)) a
      = exec NaturalOrder.asciiBase (OnProgressChange (ofZ 1)) a.
Proof.
  eexists. split; [vm_compute; reflexivity|].
  match goal with
  | |- exec _ _ ?a = _ =>
      assert (Hsynced : synced a)
        by (apply (run_invariant NaturalOrder.asciiBase
                     [OnFilesReady (AtlasLoader.imageFile 64 64)
                        (AtlasLoader.manifestFile 64 64
                           [AtlasLoader.frameValue "b.png" 0 0 8 8;
                            AtlasLoader.frameValue "a.png" 8 0 8 8])
                        SpriteRenderer.Complete]
                     new a (proj1 new_invariant) (proj2 new_invariant)
                     eq_refl eq_refl));
      exact (proj1 (scrub_handlers_agree NaturalOrder.asciiBase a (ofZ 1)
                      (Int 0) Hsynced ltac:(cbn; lia)))
  end.
Defined.

(** *** The object URLs of the viewer *)

Lemma fold_onRendererEvent_loader (events : list SpriteRenderer.Event) :
  forall a,
    atlasLoader (fold_left onRendererEvent events a) = atlasLoader a /\
    host (fold_left onRendererEvent events a) = host a.
Proof.
  induction events as [|e events IH]; intros a; [now split|].
  cbn [fold_left]. destruct (IH (onRendererEvent a e)) as [-> ->].
  destruct e; now split.
Qed.

Lemma fold_onControllerEvent_loader (events : list FrameController.Event) :
  forall a,
    atlasLoader (fold_left onControllerEvent events a) = atlasLoader a /\
    host (fold_left onControllerEvent events a) = host a.
Proof.
  induction events as [|e events IH]; intros a; [now split|].
  cbn [fold_left]. destruct (IH (onControllerEvent a e)) as [-> ->].
  destruct e as [i d | playing | fps]; cbn [onControllerEvent];
    try now split.
  unfold render.
  destruct (SpriteRenderer.setFrame i (spriteRenderer a)) as [r revents].
  exact (fold_onRendererEvent_loader revents (with_spriteRenderer r a)).
Qed.

Lemma control_loader (m : FrameController.method) (a : state) :
  atlasLoader (control m a) = atlasLoader a /\
  host (control m a) = host a.
Proof.
  unfold control, dispatch.
  exact (fold_onControllerEvent_loader _ (with_frameController _ a)).
Qed.

Lemma updateFrameFromPosition_loader (position : number) (a : state) :
  atlasLoader (updateFrameFromPosition position a) = atlasLoader a /\
  host (updateFrameFromPosition position a) = host a.
Proof.
  unfold updateFrameFromPosition, setCurrentFrame.
  destruct (totalFrames a =? 0); [now split|]. cbn zeta.
  destruct (_ || _); [now split | apply control_loader].
Qed.

Lemma exec_loader (col : NaturalOrder.Collation) (op : Op) (a a' : state) :
  exec col op a = Some a' ->
  (exists tex file loading, op = OnFilesReady tex file loading) \/
  atlasLoader a' = atlasLoader a /\ host a' = host a.
Proof.
  destruct op; cbn [exec];
    try (intros [= <-]; right; apply control_loader).
  - intros [= <-]. right. unfold setCurrentFrame.
    destruct (_ || _); [now split | apply control_loader].
  - intros [= <-]. right. apply updateFrameFromPosition_loader.
  - cbn zeta.
    destruct (updateFrameFromPosition_loader position a) as [Hl Hh].
    destruct (FrameController.isPlaying _); intros [= <-]; right;
      [|now split].
    destruct (control_loader FrameController.pause
                (updateFrameFromPosition position a)) as [-> ->].
    now split.
  - intros _. left. eauto.
Qed.

Lemma handleFilesReady_loader (col : NaturalOrder.Collation)
  (tex : AtlasLoader.TextureFile) (file : AtlasLoader.AtlasFile)
  (loading : SpriteRenderer.Loading) (a a' : state) :
  handleFilesReady col tex file loading a = Some a' ->
  exists result,
    AtlasLoader.loadAtlas col tex file (atlasLoader a) (host a)
      = Some (result, atlasLoader a', host a').
Proof.
  unfold handleFilesReady.
  destruct (AtlasLoader.loadAtlas col tex file (atlasLoader a) (host a))
    as [[[[e | atlas] l] w]|] eqn:Hload; [| |discriminate].
  - intros [= <-]. now exists (inl e).
  - cbn zeta.
    destruct (SpriteRenderer.loadAtlasTexture _ _ _) as [[r events] ok].
    exists (inr atlas).
    destruct ok; injection H as <-.
    + destruct (control_loader
                  (FrameController.initialize
                     (Z.of_nat (AtlasLoader.totalFrames atlas)))
                  (fold_left onRendererEvent events
                     (with_spriteRenderer r
                        (with_currentFrame (Int 0)
                           (with_totalFrames
                              (Z.of_nat (AtlasLoader.totalFrames atlas))
                              (with_atlasLoader l w a))))))
        as [-> ->].
      destruct (fold_onRendererEvent_loader events
                  (with_spriteRenderer r
                     (with_currentFrame (Int 0)
                        (with_totalFrames
                           (Z.of_nat (AtlasLoader.totalFrames atlas))
                           (with_atlasLoader l w a)))))
        as [-> ->].
      reflexivity.
    + destruct (fold_onRendererEvent_loader events
                  (with_spriteRenderer r
                     (with_currentFrame (Int 0)
                        (with_totalFrames
                           (Z.of_nat (AtlasLoader.totalFrames atlas))
                           (with_atlasLoader l w a)))))
        as [-> ->].
      reflexivity.
Qed.

Lemma Reachable_loader (col : NaturalOrder.Collation) (a : state) :
  Reachable col a ->
  AtlasLoader.Reachable col (atlasLoader a) (host a).
Proof.
  induction 1 as [| op a a' Hreach IH Hexec]; [constructor|].
  destruct (exec_loader col op a a' Hexec)
    as [(tex & file & loading & ->) | [-> ->]]; [|exact IH].
  cbn [exec] in Hexec.
  destruct (handleFilesReady_loader col tex file loading a a' Hexec)
    as [result Hload].
  exact (AtlasLoader.Reachable_load col tex file _ _ result _ _ IH Hload).
Qed.

(** X25. In the viewer, an object URL that is registered with the host and
    that the loader does not hold stays so whatever the page asks next:
    nothing ever revokes it.  The URL of the atlas shown becomes one when
    another atlas is loaded in its place. *)
Theorem orphan_urls_stay (col : NaturalOrder.Collation) (op : Op)
  (a a' : state) (url : nat) :
  Reachable col a ->
  exec col op a = Some a' ->
  (orphan url a -> orphan url a') /\
  (forall old atlas,
     AtlasLoader.loadedAtlas (atlasLoader a) = Some old ->
     AtlasLoader.loadedAtlas (atlasLoader a') = Some atlas ->
     atlas <> old ->
     orphan (AtlasLoader.textureURL old) a').
Proof.
  intros Hreach Hexec.
  pose proof (Reachable_loader col a Hreach) as Hloader.
  destruct (AtlasLoaderSteps.Reachable_inv col _ _ Hloader) as [Hw Hinv].
  destruct (exec_loader col op a a' Hexec)
    as [(tex & file & loading & ->) | [Hl Hh]].
  - cbn [exec] in Hexec.
    destruct (handleFilesReady_loader col tex file loading a a' Hexec)
      as [result Hload].
    split.
    + intros [Hin Hheld]. unfold orphan.
      exact (AtlasLoaderSteps.loadAtlas_keeps col tex file _ _ result _ _ url
               Hw Hin Hheld Hload).
    + intros old atlas Hold Hnew Hne.
      destruct (Hinv old Hold) as (Hreg & _).
      destruct result as [e | loaded].
      * pose proof (AtlasLoaderSteps.loadAtlas_rejected _ _ _ _ _ _ _ _ Hload)
          as Hnone.
        rewrite Hnone in Hnew. discriminate.
      * destruct (AtlasLoaderSteps.successful_load_fields col tex file _ _
                    loaded _ _ Hw Hload) as (Hheld & Hfresh & Hurls).
        rewrite Hheld in Hnew. injection Hnew as <-.
        unfold orphan. rewrite Hurls, Hheld. split; [now right|].
        intros atlas' [= <-]. intros Heq. apply Hfresh. now rewrite Heq.
  - split.
    + unfold orphan. now rewrite Hl, Hh.
    + intros old atlas Hold Hnew Hne. rewrite Hl, Hold in Hnew.
      injection Hnew as <-. contradiction.
Qed.

Lemma orphan_urls_stay_witness :
  exists a,
    run NaturalOrder.asciiBase
      [OnFilesReady (AtlasLoader.imageFile 64 64)
         (AtlasLoader.manifestFile 64 64
            [AtlasLoader.frameValue "a.png" 0 0 8 8])
         SpriteRenderer.Complete;
       OnFilesReady (AtlasLoader.imageFile 64 64)
         (AtlasLoader.manifestFile 64 64
            [AtlasLoader.frameValue "b.png" 0 0 8 8])
         SpriteRenderer.Complete]
      new = Some a /\
    forall a', exec NaturalOrder.asciiBase OnStop a = Some a' -> orphan 0 a'.
Proof.
  eexists. split; [vm_compute; reflexivity|].
  match goal with
  | |- forall a', exec _ _ ?a = _ -> _ =>
      assert (Hreach : Reachable NaturalOrder.asciiBase a)
        by (apply (run_Reachable NaturalOrder.asciiBase
                     [OnFilesReady (AtlasLoader.imageFile 64 64)
                        (AtlasLoader.manifestFile 64 64
                           [AtlasLoader.frameValue "a.png" 0 0 8 8])
                        SpriteRenderer.Complete;
                      OnFilesReady (AtlasLoader.imageFile 64 64)
                        (AtlasLoader.manifestFile 64 64
                           [AtlasLoader.frameValue "b.png" 0 0 8 8])
                        SpriteRenderer.Complete]
                     new _ (Reachable_new _));
            vm_compute; reflexivity);
      intros a' Hexec;
      apply (proj1 (orphan_urls_stay NaturalOrder.asciiBase OnStop a a' 0%nat
                      Hreach Hexec))
  end.
  split; [cbn; auto|].
  intros atlas [= <-]. cbn. discriminate.
Defined.

End AppFacts.
